(** * Railway ticket office: pricing, seat availability and analytics

    A shallow embedding of [railway/tickets/models.py] and of the report
    queries of [railway/tickets/repositories.py], with the properties of
    the ticket price, the seat guard, the deletion rules and the reports. *)

From Stdlib Require Import ZArith QArith Qpower Qabs Lia Uint63 Floats.
From stdpp Require Import gmap strings list fin_maps pretty sorting.

Local Open Scope Z_scope.

(** ** Python's [decimal.Decimal]

    A finite decimal is a signed coefficient and an exponent; its value is
    [coef * 10 ^ expo].  [Decimal('0.5')] is [Dec 5 (-1)], [Decimal('1.0')]
    is [Dec 10 (-1)], and [Decimal(n)] for a Python [int] [n] is [Dec n 0].
    A Python [int] met in an arithmetic operation with a [Decimal] is first
    converted that way, so an [int] operand is represented by [Dec n 0].
    NaN and the infinities are not represented.  Arithmetic runs in the
    default context: 28 significant digits, ROUND_HALF_EVEN; the exponent
    limits (Emax = 999999) are not represented. *)
Module Decimal.

Record t : Type := Dec { coef : Z; expo : Z }.

#[global] Instance t_eq_dec : EqDecision t.
Proof. solve_decision. Defined.

(** Context precision, [getcontext().prec]. *)
Definition prec : Z := 28.

Fixpoint digits_aux (fuel : nat) (n : Z) : Z :=
  match fuel with
  | O => 1
  | S fuel' => if n <? 10 then 1 else 1 + digits_aux fuel' (n / 10)
  end.

(** [len(self._int)]: the number of decimal digits of the coefficient. *)
Definition ndigits (n : Z) : Z :=
  digits_aux (Z.to_nat (Z.log2 (Z.abs n))) (Z.abs n).

(** Quotient of [n >= 0] by [m > 0], rounded half to even. *)
Definition round_half_even (n m : Z) : Z :=
  let q := n / m in
  let r := n mod m in
  if 2 * r <? m then q
  else if m <? 2 * r then q + 1
  else if Z.even q then q else q + 1.

(** The same on a signed coefficient (sign and magnitude). *)
Definition div_half_even (c m : Z) : Z :=
  Z.sgn c * round_half_even (Z.abs c) m.

(** [Decimal._rescale(exp, ROUND_HALF_EVEN)]. *)
Definition rescale (d : t) (e : Z) : t :=
  if e <=? expo d
  then Dec (coef d * 10 ^ (expo d - e)) e
  else Dec (div_half_even (coef d) (10 ^ (e - expo d))) e.

(** [Decimal._fix(context)]: round to the context precision. *)
Definition fix_ (d : t) : t :=
  let n := ndigits (coef d) in
  if n <=? prec then d
  else
    let drop := n - prec in
    let c := div_half_even (coef d) (10 ^ drop) in
    if prec <? ndigits c
    then Dec (c / 10) (expo d + drop + 1)
    else Dec c (expo d + drop).

Definition mul_exact (a b : t) : t :=
  Dec (coef a * coef b) (expo a + expo b).

(** [Decimal.__mul__]. *)
Definition mul (a b : t) : t := fix_ (mul_exact a b).

Definition add_exact (a b : t) : t :=
  let e := Z.min (expo a) (expo b) in
  Dec (coef a * 10 ^ (expo a - e) + coef b * 10 ^ (expo b - e)) e.

(** [Decimal.__add__] (and [__radd__]). *)
Definition add (a b : t) : t := fix_ (add_exact a b).

(** [Decimal(n)] for a Python [int]. *)
Definition of_int (n : Z) : t := Dec n 0.

(** [Decimal.__bool__]: zero is falsy. *)
Definition truthy (d : t) : bool := negb (coef d =? 0).

(** [round(d, places)], that is [d.quantize(Decimal(1).scaleb(-places))]
    in the default context; [None] is [decimal.InvalidOperation]
    (the result would need more than [prec] digits). *)
Definition round_ (d : t) (places : Z) : option t :=
  if coef d =? 0 then Some (Dec 0 (- places))
  else if prec <? expo d + ndigits (coef d) + places then None
  else
    let ans := rescale d (- places) in
    if prec <? ndigits (coef ans) then None else Some ans.

(** The rational number a decimal denotes. *)
Definition value (d : t) : Q := (inject_Z (coef d) * Qpower 10 (expo d))%Q.

(** Numeric comparison, as SQL and Python compare decimals. *)
Definition le (a b : t) : Prop := (value a <= value b)%Q.

End Decimal.

Abbreviation Decimal := Decimal.t.
Abbreviation Dec := Decimal.Dec.

(** ** [Ticket.calculate_discount]  (models.py, lines 119-125)

    The class body defines [calculate_discount] twice; the second
    definition, which returns [Decimal] values, replaces the first. *)
Definition calculate_discount (age : Z) : Decimal :=
  if age <? 18 then Dec 5 (-1)
  else if 60 <? age then Dec 7 (-1)
  else Dec 10 (-1).

(** [Ticket.TAX = Decimal('0.2')]. *)
Definition TAX : Decimal := Dec 2 (-1).


(** ** The records of models.py

    Dates and times are counted in seconds.  A row of a table is the record
    of the model; its primary key is the key of the row in the table. *)
Module Passenger.
Record t : Type := Build
  { first_name : string; last_name : string; passport : string; age : Z }.

Definition set_age (a : Z) (p : t) : t :=
  Build (first_name p) (last_name p) (passport p) a.

End Passenger.

Module Cashier.
Record t : Type := Build
  { first_name : string; last_name : string; hire_date : Z }.
End Cashier.

Module Trip.
Record t : Type := Build
  { start_station : string; end_station : string; distance_km : Z;
    number : string; train_type : string; departure : Z; arrival : Z;
    price : Z; capacity : Z }.

Definition set_capacity (n : Z) (tr : t) : t :=
  Build (start_station tr) (end_station tr) (distance_km tr) (number tr)
    (train_type tr) (departure tr) (arrival tr) (price tr) n.

(** [Trip.__str__]. *)
Definition str (tr : t) : string :=
  start_station tr +:+ " — " +:+ end_station tr +:+
  " (" +:+ pretty (distance_km tr) +:+ " км)".
End Trip.

Module Ticket.
(** A [Ticket] instance.  [pk] is [None] until the row is inserted;
    [adding] is Django's [_state.adding]: set on an instance that was
    built in memory, cleared once it is saved or when it is loaded from
    the table.  An attribute that was never assigned is [None]. *)
Record t : Type := Build
  { pk : option Z; adding : bool;
    passenger_id : option Z; cashier_id : option Z; trip_id : option Z;
    purchase_date : option Z; base_price : option Decimal;
    payment_method : option string; paid_amount : Decimal }.

Definition set_base_price (b : option Decimal) (x : t) : t :=
  Build (pk x) (adding x) (passenger_id x) (cashier_id x) (trip_id x)
    (purchase_date x) b (payment_method x) (paid_amount x).
Definition set_paid_amount (p : Decimal) (x : t) : t :=
  Build (pk x) (adding x) (passenger_id x) (cashier_id x) (trip_id x)
    (purchase_date x) (base_price x) (payment_method x) p.
Definition set_passenger_id (c : option Z) (x : t) : t :=
  Build (pk x) (adding x) c (cashier_id x) (trip_id x)
    (purchase_date x) (base_price x) (payment_method x) (paid_amount x).
Definition set_cashier_id (c : option Z) (x : t) : t :=
  Build (pk x) (adding x) (passenger_id x) c (trip_id x)
    (purchase_date x) (base_price x) (payment_method x) (paid_amount x).
Definition set_trip_id (c : option Z) (x : t) : t :=
  Build (pk x) (adding x) (passenger_id x) (cashier_id x) c
    (purchase_date x) (base_price x) (payment_method x) (paid_amount x).
Definition set_payment_method (m : option string) (x : t) : t :=
  Build (pk x) (adding x) (passenger_id x) (cashier_id x) (trip_id x)
    (purchase_date x) (base_price x) m (paid_amount x).
(** What the insert or update of a row leaves on the instance. *)
Definition stored (k : Z) (date : option Z) (x : t) : t :=
  Build (Some k) false (passenger_id x) (cashier_id x) (trip_id x)
    date (base_price x) (payment_method x) (paid_amount x).

#[global] Instance t_eq_dec : EqDecision t.
Proof. solve_decision. Defined.
End Ticket.

(** The store: one table per model, and the clock read by
    [auto_now_add]. *)
Record DB : Type := MkDB
  { passengers : gmap Z Passenger.t;
    cashiers : gmap Z Cashier.t;
    trips : gmap Z Trip.t;
    tickets : gmap Z Ticket.t;
    now : Z }.

Definition with_tickets (ts : gmap Z Ticket.t) (db : DB) : DB :=
  MkDB (passengers db) (cashiers db) (trips db) ts (now db).

(** ** Exceptions *)

(** One entry of a [ValidationError]: an error of a field, with Django's
    error code, or an error of the whole instance, with its message. *)
Inductive ErrorItem : Type :=
| FieldError (field code : string)
| NonFieldError (message : string).

Inductive Exn : Type :=
| RelatedObjectDoesNotExist (field : string)
| DoesNotExist (model : string)
| InvalidOperation
| IntegrityError (column : string)
| DataError (message : string)
| ValidationError (errors : list ErrorItem).

#[global] Instance ErrorItem_eq_dec : EqDecision ErrorItem.
Proof. solve_decision. Defined.

(** ** Computations over the store that may raise *)
Definition M (A : Type) : Type := DB -> (Exn + A) * DB.

#[global] Instance M_ret : MRet M := fun A x db => (inr x, db).
#[global] Instance M_bind : MBind M := fun A B f m db =>
  match m db with
  | (inl e, db') => (inl e, db')
  | (inr x, db') => f x db'
  end.

Definition raise {A} (e : Exn) : M A := fun db => (inl e, db).
Definition read : M DB := fun db => (inr db, db).
Definition write (db' : DB) : M unit := fun _ => (inr tt, db').
Definition of_option {A} (e : Exn) (o : option A) : M A :=
  match o with Some x => mret x | None => raise e end.

(** ** Related objects *)

(** [related_tickets fk k db]: the rows of [Ticket] whose foreign key [fk]
    is [k] (the reverse managers [trip.tickets], [passenger.tickets],
    [cashier.sold_tickets]). *)
Definition related_tickets (fk : Ticket.t -> option Z) (k : Z) (db : DB)
  : list Ticket.t :=
  filter (fun x => fk x = Some k) (map_to_list (tickets db)).*2.

(** [self.trip]: the trip's key and row. *)
Definition get_trip (x : Ticket.t) : M (Z * Trip.t) :=
  match Ticket.trip_id x with
  | None => raise (RelatedObjectDoesNotExist "trip")
  | Some k => db ← read; tr ← of_option (DoesNotExist "Trip") (trips db !! k); mret (k, tr)
  end.

(** [self.passenger]. *)
Definition get_passenger (x : Ticket.t) : M Passenger.t :=
  match Ticket.passenger_id x with
  | None => raise (RelatedObjectDoesNotExist "passenger")
  | Some k => db ← read; of_option (DoesNotExist "Passenger") (passengers db !! k)
  end.

(** [Trip.available_seats]  (models.py, lines 78-81), for the trip of
    key [k]. *)
Definition sold_count (k : Z) (db : DB) : Z :=
  Z.of_nat (length (related_tickets Ticket.trip_id k db)).

Definition available_seats (k : Z) (tr : Trip.t) (db : DB) : Z :=
  Trip.capacity tr - sold_count k db.

(** ** [Ticket.price]  (models.py, lines 127-143) *)

(** Python truth of [self.base_price]: [None] and zero are falsy. *)
Definition base_price_set (x : Ticket.t) : bool :=
  match Ticket.base_price x with
  | Some b => Decimal.truthy b
  | None => false
  end.

(** Line 140: [current_base * discount * (1 + self.TAX)]. *)
Definition raw_price (current_base discount : Decimal) : Decimal :=
  Decimal.mul (Decimal.mul current_base discount)
              (Decimal.add (Decimal.of_int 1) TAX).

Definition price (x : Ticket.t) : M Decimal :=
  current_base ←
    (match Ticket.base_price x with
     | Some b =>
         if Decimal.truthy b then mret b
         else '(_, tr) ← get_trip x; mret (Decimal.of_int (Trip.price tr))
     | None => '(_, tr) ← get_trip x; mret (Decimal.of_int (Trip.price tr))
     end);
  p ← get_passenger x;
  let discount := calculate_discount (Passenger.age p) in
  of_option InvalidOperation (Decimal.round_ (raw_price current_base discount) 2).

(** ** [Ticket.clean]  (models.py, lines 145-148) *)

(** The message of the error raised by [clean]; it quotes [str(trip)]. *)
Definition no_seats_message (tr : Trip.t) : string :=
  "На рейс " +:+ Trip.str tr +:+ " більше немає вільних місць!".

Definition clean (x : Ticket.t) : M unit :=
  match Ticket.pk x with
  | None =>
      '(k, tr) ← get_trip x;
      db ← read;
      if available_seats k tr db <=? 0
      then raise (ValidationError [NonFieldError (no_seats_message tr)])
      else mret tt
  | Some _ => mret tt
  end.

(** ** Django's [Model.full_clean] on the fields declared in models.py *)

(** [len] of a Python [str] held as UTF-8: bytes [10xxxxxx] continue a
    character. *)
Fixpoint py_len (s : string) : Z :=
  match s with
  | EmptyString => 0
  | String (Ascii.Ascii _ _ _ _ _ _ b6 b7) s' =>
      (if b7 && negb b6 then 0 else 1) + py_len s'
  end.

(** [DecimalValidator(max_digits, decimal_places)]; it reports the first
    limit that is exceeded. *)
Definition decimal_validator (max_digits decimal_places : Z)
    (field : string) (d : Decimal) : list ErrorItem :=
  let len := Decimal.ndigits (Decimal.coef d) in
  let e := Decimal.expo d in
  let '(digits, decimals) :=
    if 0 <=? e then ((if Decimal.coef d =? 0 then len else len + e), 0)
    else if len <? - e then (- e, - e)
    else (len, - e) in
  if max_digits <? digits then [FieldError field "max_digits"]
  else if decimal_places <? decimals then [FieldError field "max_decimal_places"]
  else if max_digits - decimal_places <? digits - decimals
       then [FieldError field "max_whole_digits"]
  else [].

(** A foreign key: [None] is refused ([null] for a column that is not
    nullable, [blank] for one that is but is not declared [blank=True]),
    and a key must be the key of a row. *)
Definition foreign_key_errors {A} (field : string) (nullable : bool)
    (table : gmap Z A) (fk : option Z) : list ErrorItem :=
  match fk with
  | None => [FieldError field (if nullable then "blank" else "null")]
  | Some k =>
      match table !! k with
      | Some _ => []
      | None => [FieldError field "invalid"]
      end
  end.

(** [Model.clean_fields]: [id] and [purchase_date] have nothing to check,
    a field declared [blank=True] is skipped when it is empty. *)
Definition clean_fields (x : Ticket.t) (db : DB) : list ErrorItem :=
  foreign_key_errors "passenger" false (passengers db) (Ticket.passenger_id x) ++
  foreign_key_errors "cashier" true (cashiers db) (Ticket.cashier_id x) ++
  foreign_key_errors "trip" false (trips db) (Ticket.trip_id x) ++
  match Ticket.base_price x with
  | None => []
  | Some b => decimal_validator 10 2 "base_price" b
  end ++
  match Ticket.payment_method x with
  | None => []
  | Some s =>
      if String.eqb s "" then []
      else if 50 <? py_len s then [FieldError "payment_method" "max_length"]
      else []
  end ++
  decimal_validator 10 2 "paid_amount" (Ticket.paid_amount x).

(** [Model.validate_unique]: the primary key of an instance that is being
    added must be free. *)
Definition validate_unique (x : Ticket.t) (db : DB) : list ErrorItem :=
  match Ticket.pk x with
  | Some k =>
      if Ticket.adding x && bool_decide (is_Some (tickets db !! k))
      then [FieldError "id" "unique"] else []
  | None => []
  end.

(** [Model.full_clean]: the errors of the fields, of [clean] and of the
    uniqueness check are gathered into one [ValidationError]; any other
    exception of [clean] goes through. *)
Definition full_clean (x : Ticket.t) : M unit :=
  db ← read;
  let field_errors := clean_fields x db in
  let unique_errors := validate_unique x db in
  match fst (clean x db) with
  | inl (ValidationError es) =>
      raise (ValidationError (field_errors ++ es ++ unique_errors))
  | inl e => raise e
  | inr _ =>
      match field_errors ++ unique_errors with
      | [] => mret tt
      | es => raise (ValidationError es)
      end
  end.

(** ** [Model.save], the [super().save()] of [Ticket.save]

    An instance without a key is inserted under a key the store chooses;
    an instance with a key updates its row, or is inserted under that key
    when there is no such row.  An insert stamps [purchase_date]
    ([auto_now_add]); the column is not nullable. *)
Definition insert_ticket (k : Z) (x : Ticket.t) : M Ticket.t :=
  db ← read;
  let row := Ticket.stored k (Some (now db)) x in
  write (with_tickets (<[k := row]> (tickets db)) db);;
  mret row.

Definition super_save (x : Ticket.t) : M Ticket.t :=
  db ← read;
  match Ticket.pk x with
  | None => insert_ticket (fresh (dom (tickets db))) x
  | Some k =>
      match tickets db !! k with
      | None => insert_ticket k x
      | Some _ =>
          match Ticket.purchase_date x with
          | None => raise (IntegrityError "purchase_date")
          | Some d =>
              let row := Ticket.stored k (Some d) x in
              write (with_tickets (<[k := row]> (tickets db)) db);;
              mret row
          end
      end
  end.

(** ** [Ticket.save]  (models.py, lines 150-159) *)
Definition save (x : Ticket.t) : M Ticket.t :=
  x1 ← (if base_price_set x then mret x
        else '(_, tr) ← get_trip x;
             mret (Ticket.set_base_price
                     (Some (Decimal.of_int (Trip.price tr))) x));
  p ← price x1;
  let x2 := Ticket.set_paid_amount p x1 in
  full_clean x2;;
  super_save x2.

(** ** The generic repository  (repositories.py, lines 30-44) *)

(** [BaseRepository.get_by_id] on tickets: the instance loaded from the
    row. *)
Definition get_ticket (k : Z) : M (option Ticket.t) :=
  db ← read; mret (tickets db !! k).

(** [BaseRepository.update] on tickets: [setattr] then [obj.save()]. *)
Definition update_ticket (k : Z) (setattrs : Ticket.t -> Ticket.t)
  : M (option Ticket.t) :=
  o ← get_ticket k;
  match o with
  | None => mret None
  | Some obj => x ← save (setattrs obj); mret (Some x)
  end.

(** [BaseRepository.update] on passengers and on trips; these models keep
    Django's own [save]. *)
Definition update_passenger (k : Z) (setattrs : Passenger.t -> Passenger.t)
  : M (option Passenger.t) :=
  db ← read;
  match passengers db !! k with
  | None => mret None
  | Some p =>
      write (MkDB (<[k := setattrs p]> (passengers db)) (cashiers db)
                  (trips db) (tickets db) (now db));;
      mret (Some (setattrs p))
  end.

Definition update_trip (k : Z) (setattrs : Trip.t -> Trip.t)
  : M (option Trip.t) :=
  db ← read;
  match trips db !! k with
  | None => mret None
  | Some tr =>
      write (MkDB (passengers db) (cashiers db)
                  (<[k := setattrs tr]> (trips db)) (tickets db) (now db));;
      mret (Some (setattrs tr))
  end.

(** ** Deletion  (models.py, lines 99-101: the [on_delete] of the foreign
    keys of [Ticket]) *)
Inductive OnDelete : Type := CASCADE | SET_NULL.

Definition passenger_on_delete : OnDelete := CASCADE.
Definition cashier_on_delete : OnDelete := SET_NULL.
Definition trip_on_delete : OnDelete := CASCADE.

(** What deleting the row [k] of a referenced table does to the tickets,
    for a foreign key [fk] with the rule [rule]. *)
Definition on_delete (rule : OnDelete) (fk : Ticket.t -> option Z)
    (set_fk : option Z -> Ticket.t -> Ticket.t) (k : Z)
    (ts : gmap Z Ticket.t) : gmap Z Ticket.t :=
  match rule with
  | CASCADE => filter (fun kx => fk kx.2 <> Some k) ts
  | SET_NULL =>
      (fun x => if decide (fk x = Some k) then set_fk None x else x) <$> ts
  end.

(** [BaseRepository.delete] on passengers, cashiers and trips. *)
Definition delete_passenger (k : Z) : M bool :=
  db ← read;
  match passengers db !! k with
  | None => mret false
  | Some _ =>
      write (MkDB (delete k (passengers db)) (cashiers db) (trips db)
               (on_delete passenger_on_delete Ticket.passenger_id
                  Ticket.set_passenger_id k (tickets db))
               (now db));;
      mret true
  end.

Definition delete_cashier (k : Z) : M bool :=
  db ← read;
  match cashiers db !! k with
  | None => mret false
  | Some _ =>
      write (MkDB (passengers db) (delete k (cashiers db)) (trips db)
               (on_delete cashier_on_delete Ticket.cashier_id
                  Ticket.set_cashier_id k (tickets db))
               (now db));;
      mret true
  end.

Definition delete_trip (k : Z) : M bool :=
  db ← read;
  match trips db !! k with
  | None => mret false
  | Some _ =>
      write (MkDB (passengers db) (cashiers db) (delete k (trips db))
               (on_delete trip_on_delete Ticket.trip_id
                  Ticket.set_trip_id k (tickets db))
               (now db));;
      mret true
  end.

(** ** The reports  (repositories.py, [get_complex_analytics]) *)

(** What the query leaves to the database engine: where NULL sorts, what
    a division by zero does, and the arithmetic of [SUM] over a decimal
    column. *)
Inductive ZeroDivision : Type := RaisesError | YieldsNull.
Inductive SumArithmetic : Type := ExactNumeric | Binary64.
Record Backend : Type := MkBackend
  { nulls_largest : bool; division_by_zero : ZeroDivision;
    sum_arithmetic : SumArithmetic }.

(** *** SQL [SUM] over a [DecimalField]

    PostgreSQL and MySQL hold the column as an exact decimal: [SUM] is
    NULL over no row and the exact sum otherwise, in whatever order the
    rows are met. *)
Definition sum_exact (ds : list Decimal) : option Decimal :=
  match ds with
  | [] => None
  | d :: ds' => Some (foldl Decimal.add_exact d ds')
  end.

(** SQLite has no decimal type.  Django writes the amount as text; the
    NUMERIC affinity of the column stores a whole number that fits 64
    bits as an INTEGER and any other amount as a REAL, the binary64
    number nearest to it ([c / 10 ^ k] in binary64 is that number while
    [c] and [10 ^ k] are below [2 ^ 53], which a
    [DecimalField(max_digits=10, decimal_places=2)] ensures). *)
Inductive SqliteValue : Type := SqlInteger (n : Z) | SqlReal (x : float).

(** The binary64 number nearest to an integer. *)
Definition float_of_Z (n : Z) : float :=
  SF2Prim (binary_normalize FloatOps.prec emax n 0 false).

Definition is_int64 (n : Z) : bool := (- 2 ^ 63 <=? n) && (n <? 2 ^ 63).

Definition sqlite_integer (n : Z) : SqliteValue :=
  if is_int64 n then SqlInteger n else SqlReal (float_of_Z n).

Definition sqlite_value (d : Decimal) : SqliteValue :=
  let c := Decimal.coef d in
  let e := Decimal.expo d in
  if 0 <=? e then sqlite_integer (c * 10 ^ e)
  else if c mod 10 ^ (- e) =? 0 then sqlite_integer (c / 10 ^ (- e))
  else SqlReal (PrimFloat.div (float_of_Z c) (float_of_Z (10 ^ (- e)))).

(** The aggregate [sum()] of SQLite, row by row: a binary64 sum of every
    value, and beside it a 64-bit integer sum for as long as every value
    was an INTEGER. *)
Record SumCtx : Type := MkSumCtx
  { rSum : float; iSum : Z; approx : bool; overflow : bool }.

Definition sum_init : SumCtx := MkSumCtx 0%float 0 false false.

Definition sum_step (p : SumCtx) (v : SqliteValue) : SumCtx :=
  match v with
  | SqlInteger n =>
      let r := PrimFloat.add (rSum p) (float_of_Z n) in
      if approx p || overflow p then MkSumCtx r (iSum p) (approx p) (overflow p)
      else if is_int64 (iSum p + n) then MkSumCtx r (iSum p + n) false false
      else MkSumCtx r (iSum p) true true
  | SqlReal x => MkSumCtx (PrimFloat.add (rSum p) x) (iSum p) true (overflow p)
  end.

(** The value of the aggregate; [None] where SQLite raises
    "integer overflow". *)
Definition sum_finalize (p : SumCtx) : option SqliteValue :=
  if overflow p then None
  else if approx p then Some (SqlReal (rSum p))
  else Some (SqlInteger (iSum p)).

(** Django converts the value it reads for a decimal expression with
    [Context(prec=15).create_decimal_from_float]: the exact decimal
    expansion of the number, rounded half to even to 15 significant
    digits. *)
Fixpoint trailing_zeros (p : positive) : Z :=
  match p with
  | xO q => 1 + trailing_zeros q
  | _ => 0
  end.

(** [Decimal.from_float]: [n * 5 ^ k] with exponent [- k], for the
    number [n / 2 ^ k] in lowest terms.  [None] for an infinity or a
    NaN, which [Decimal.t] does not represent. *)
Definition from_float (x : float) : option Decimal :=
  match Prim2SF x with
  | S754_zero _ => Some (Dec 0 0)
  | S754_finite s m e =>
      let sign := if s then -1 else 1 in
      if 0 <=? e then Some (Dec (sign * (Z.pos m * 2 ^ e)) 0)
      else
        let r := Z.min (trailing_zeros m) (- e) in
        let k := - e - r in
        Some (Dec (sign * (Z.pos m / 2 ^ r * 5 ^ k)) (- k))
  | _ => None
  end.

(** [Decimal._fix] in a context of precision [p]. *)
Definition fix_to (p : Z) (d : Decimal) : Decimal :=
  let n := Decimal.ndigits (Decimal.coef d) in
  if n <=? p then d
  else
    let drop := n - p in
    let c := Decimal.div_half_even (Decimal.coef d) (10 ^ drop) in
    if p <? Decimal.ndigits c
    then Dec (c / 10) (Decimal.expo d + drop + 1)
    else Dec c (Decimal.expo d + drop).

Definition create_decimal (v : SqliteValue) : option Decimal :=
  match v with
  | SqlInteger n => Some (fix_to 15 (Dec n 0))
  | SqlReal x => fix_to 15 <$> from_float x
  end.

(** [SUM] on SQLite, as Django returns it, over the rows in the order
    they are met: [Some None] is NULL, [None] is no value (the engine
    raises, or the sum is not finite). *)
Definition sqlite_sum (ds : list Decimal) : option (option Decimal) :=
  match ds with
  | [] => Some None
  | _ =>
      v ← sum_finalize (foldl sum_step sum_init (sqlite_value <$> ds));
      Some <$> create_decimal v
  end.

(** [SUM] over rows met in the given order. *)
Definition sum_in_order (be : Backend) (ds : list Decimal)
  : option (option Decimal) :=
  match sum_arithmetic be with
  | ExactNumeric => Some (sum_exact ds)
  | Binary64 => sqlite_sum ds
  end.

(** [sql_sum be ds s]: [s] is a value [SUM] may have over the amounts
    [ds].  SQL does not say in which order an aggregate meets its rows:
    an exact sum does not depend on it (lemma [sum_exact_perm] below), a
    binary64 sum does. *)
Definition sql_sum (be : Backend) (ds : list Decimal) (s : option Decimal)
  : Prop :=
  match sum_arithmetic be with
  | ExactNumeric => s = sum_exact ds
  | Binary64 => exists ds', ds' ≡ₚ ds /\ sqlite_sum ds' = Some s
  end.

(** [ORDER BY key DESC]: [desc_before le a b] when a row of key [a] may
    stand before a row of key [b]. *)
Definition desc_before {K} (le : K -> K -> Prop) (nulls_big : bool)
    (a b : option K) : Prop :=
  match a, b with
  | Some x, Some y => le y x
  | None, None => True
  | None, Some _ => nulls_big = true
  | Some _, None => nulls_big = false
  end.

(** The rows a query may return for [ORDER BY]: the rows, arranged so
    that the keys are in order.  The queries name no second key and the
    models declare no default ordering, so SQL leaves the order of rows
    with equal keys open. *)
Definition order_by {A} (before : A -> A -> Prop) (rows out : list A)
  : Prop :=
  rows ≡ₚ out /\ Sorted before out.

(** *** [revenue_by_trip]  (lines 101-104) *)
Record RevenueRow : Type := MkRevenueRow
  { rr_id : Z; rr_trip : Trip.t;
    total_revenue : option Decimal; tickets_sold : Z }.

(** [r] is a row the query may compute for the trip [kt]. *)
Definition revenue_row (be : Backend) (db : DB) (kt : Z * Trip.t)
    (r : RevenueRow) : Prop :=
  let ts := related_tickets Ticket.trip_id kt.1 db in
  rr_id r = kt.1 /\ rr_trip r = kt.2 /\
  sql_sum be (Ticket.paid_amount <$> ts) (total_revenue r) /\
  tickets_sold r = Z.of_nat (length ts).

Definition revenue_before (be : Backend) (a b : RevenueRow) : Prop :=
  desc_before Decimal.le (nulls_largest be) (total_revenue a) (total_revenue b).

(** The answers of the query: a row for each trip, in order.  (The
    engine orders by the sums it computed; the decimals Django makes of
    them are in the same order, or equal.)  Where [SUM] has no value
    the query has no answer. *)
Definition revenue_by_trip (be : Backend) (db : DB)
    (out : list RevenueRow) : Prop :=
  exists rows,
    Forall2 (revenue_row be db) (map_to_list (trips db)) rows /\
    order_by (revenue_before be) rows out.

(** *** [top_passengers]  (lines 148-151) *)
Record PassengerRow : Type := MkPassengerRow
  { pr_id : Z; pr_passenger : Passenger.t;
    total_spent : option Decimal; trips_count : Z }.

Definition passenger_row (be : Backend) (db : DB) (kp : Z * Passenger.t)
    (r : PassengerRow) : Prop :=
  let ts := related_tickets Ticket.passenger_id kp.1 db in
  pr_id r = kp.1 /\ pr_passenger r = kp.2 /\
  sql_sum be (Ticket.paid_amount <$> ts) (total_spent r) /\
  trips_count r = Z.of_nat (length ts).

Definition spent_before (be : Backend) (a b : PassengerRow) : Prop :=
  desc_before Decimal.le (nulls_largest be) (total_spent a) (total_spent b).

Definition top_passengers (be : Backend) (db : DB)
    (out : list PassengerRow) : Prop :=
  exists rows sorted,
    Forall2 (passenger_row be db) (map_to_list (passengers db)) rows /\
    order_by (spent_before be)
      (filter (fun r => is_Some (total_spent r)) rows) sorted /\
    out = take 10 sorted.

(** *** [trip_occupancy]  (lines 117-124)

    [F('sold_count') * 100.0 / F('capacity')] with a [FloatField] output:
    binary64 arithmetic.  Counts and capacities are below [2^53], so their
    conversion is exact. *)
Record OccupancyRow : Type := MkOccupancyRow
  { or_id : Z; or_trip : Trip.t; or_sold_count : Z;
    occupancy_rate : option float }.

Definition float_of_int (n : Z) : float := PrimFloat.of_uint63 (Uint63.of_Z n).

Definition occupancy_formula (sold capacity : Z) : float :=
  PrimFloat.div (PrimFloat.mul (float_of_int sold) 100%float)
                (float_of_int capacity).

(** The SQL division: by zero it is the engine that decides. *)
Definition occupancy_rate_of (be : Backend) (sold capacity : Z)
  : Exn + option float :=
  if capacity =? 0 then
    match division_by_zero be with
    | RaisesError => inl (DataError "division by zero")
    | YieldsNull => inr None
    end
  else inr (Some (occupancy_formula sold capacity)).

Definition occupancy_row (be : Backend) (db : DB) (kt : Z * Trip.t)
  : Exn + OccupancyRow :=
  let sold := sold_count kt.1 db in
  match occupancy_rate_of be sold (Trip.capacity kt.2) with
  | inl e => inl e
  | inr rate => inr (MkOccupancyRow kt.1 kt.2 sold rate)
  end.

Fixpoint collect_rows {A B} (f : A -> Exn + B) (l : list A) : Exn + list B :=
  match l with
  | [] => inr []
  | a :: l' =>
      match f a with
      | inl e => inl e
      | inr b =>
          match collect_rows f l' with
          | inl e => inl e
          | inr bs => inr (b :: bs)
          end
      end
  end.

Definition float_le (x y : float) : Prop := PrimFloat.leb x y = true.

Definition occupancy_before (be : Backend) (a b : OccupancyRow) : Prop :=
  desc_before float_le (nulls_largest be) (occupancy_rate a) (occupancy_rate b).

Definition trip_occupancy (be : Backend) (db : DB)
    (res : Exn + list OccupancyRow) : Prop :=
  match collect_rows (occupancy_row be db) (map_to_list (trips db)) with
  | inl e => res = inl e
  | inr rows => exists out, res = inr out /\ order_by (occupancy_before be) rows out
  end.

(** Reference runs of the reports: the rows are summed in the order of
    the table, and a stable merge sort is one of the arrangements
    [order_by] allows.  A run is [None] where [SUM] has no value. *)
#[global] Instance decimal_le_dec a b : Decision (Decimal.le a b).
Proof. unfold Decimal.le, Qle. apply _. Defined.

#[global] Instance float_le_dec x y : Decision (float_le x y).
Proof. unfold float_le. apply _. Defined.

#[global] Instance desc_before_dec {K} (le : K -> K -> Prop)
  `{forall x y, Decision (le x y)} nb a b : Decision (desc_before le nb a b).
Proof. destruct a, b; simpl; apply _. Defined.

#[global] Instance revenue_before_dec be a b : Decision (revenue_before be a b).
Proof. unfold revenue_before. apply _. Defined.

#[global] Instance spent_before_dec be a b : Decision (spent_before be a b).
Proof. unfold spent_before. apply _. Defined.

#[global] Instance occupancy_before_dec be a b : Decision (occupancy_before be a b).
Proof. unfold occupancy_before. apply _. Defined.

Definition run_revenue_row (be : Backend) (db : DB) (kt : Z * Trip.t)
  : option RevenueRow :=
  let ts := related_tickets Ticket.trip_id kt.1 db in
  s ← sum_in_order be (Ticket.paid_amount <$> ts);
  Some (MkRevenueRow kt.1 kt.2 s (Z.of_nat (length ts))).

Definition run_revenue_by_trip (be : Backend) (db : DB)
  : option (list RevenueRow) :=
  rows ← mapM (run_revenue_row be db) (map_to_list (trips db));
  Some (merge_sort (revenue_before be) rows).

Definition run_passenger_row (be : Backend) (db : DB) (kp : Z * Passenger.t)
  : option PassengerRow :=
  let ts := related_tickets Ticket.passenger_id kp.1 db in
  s ← sum_in_order be (Ticket.paid_amount <$> ts);
  Some (MkPassengerRow kp.1 kp.2 s (Z.of_nat (length ts))).

Definition run_top_passengers (be : Backend) (db : DB)
  : option (list PassengerRow) :=
  rows ← mapM (run_passenger_row be db) (map_to_list (passengers db));
  Some (take 10
          (merge_sort (spent_before be)
             (filter (fun r => is_Some (total_spent r)) rows))).

Definition run_trip_occupancy (be : Backend) (db : DB)
  : Exn + list OccupancyRow :=
  match collect_rows (occupancy_row be db) (map_to_list (trips db)) with
  | inl e => inl e
  | inr rows => inr (merge_sort (occupancy_before be) rows)
  end.

(** ** The other methods of the models *)

(** [Passenger.age_group]  (models.py, lines 41-46). *)
Definition age_group (p : Passenger.t) : string :=
  if Passenger.age p <? 18 then "неповнолітній"
  else if 60 <? Passenger.age p then "пенсіонер"
  else "дорослий".

(** [Trip.duration_minutes]  (models.py, lines 83-85):
    [int(delta.total_seconds() // 60)], a floor division. *)
Definition duration_minutes (tr : Trip.t) : Z :=
  (Trip.arrival tr - Trip.departure tr) / 60.

(** [Trip.duration_str]  (models.py, lines 87-91). *)
Definition duration_str (tr : Trip.t) : string :=
  let mins := duration_minutes tr in
  let hours := mins / 60 in
  let minutes := mins mod 60 in
  pretty hours +:+ " год " +:+ pretty minutes +:+ " хв".

(** ** The queries of the repositories  (repositories.py, lines 54-81)

    A query without [order_by] returns its rows in an order the
    database chooses; here it is the order of the table. *)

(** [TicketRepository.by_passenger]. *)
Definition by_passenger (passenger_id : Z) : M (list Ticket.t) :=
  db ← read; mret (related_tickets Ticket.passenger_id passenger_id db).

(** [PassengerRepository.find_by_passport]. *)
Definition find_by_passport (passport : string) : M (list Passenger.t) :=
  db ← read;
  mret (filter (fun p => Passenger.passport p = passport)
          (map_to_list (passengers db)).*2).

(** [TripRepository.upcoming]: [departure__gte=from_datetime]. *)
Definition upcoming (from_datetime : Z) : M (list Trip.t) :=
  db ← read;
  mret (filter (fun tr => from_datetime <= Trip.departure tr)
          (map_to_list (trips db)).*2).

(** Calls of [BaseRepository.add] on tickets one after the other, a call
    that raises being given up. *)
Fixpoint add_all (xs : list Ticket.t) (db : DB) : DB :=
  match xs with
  | [] => db
  | x :: xs' => add_all xs' (save x db).2
  end.

(** *** [cashier_performance]  (repositories.py, lines 109-112) *)
Record CashierRow : Type := MkCashierRow
  { cr_id : Z; cr_cashier : Cashier.t;
    tickets_count : Z; total_sales : option Decimal }.

Definition cashier_row (be : Backend) (db : DB) (kc : Z * Cashier.t)
    (r : CashierRow) : Prop :=
  let ts := related_tickets Ticket.cashier_id kc.1 db in
  cr_id r = kc.1 /\ cr_cashier r = kc.2 /\
  tickets_count r = Z.of_nat (length ts) /\
  sql_sum be (Ticket.paid_amount <$> ts) (total_sales r).

Definition sales_before (be : Backend) (a b : CashierRow) : Prop :=
  desc_before Decimal.le (nulls_largest be) (total_sales a) (total_sales b).

Definition cashier_performance (be : Backend) (db : DB)
    (out : list CashierRow) : Prop :=
  exists rows,
    Forall2 (cashier_row be db) (map_to_list (cashiers db)) rows /\
    order_by (sales_before be) (filter (fun r => 0 < tickets_count r) rows) out.

(** *** [sales_by_month]  (repositories.py, lines 138-143)

    [month_of] is [ExtractMonth]: the month, from 1 to 12, of a time in
    the time zone of the connection.  The tickets are grouped by the
    month of [purchase_date], whatever the year. *)
Record MonthRow : Type := MkMonthRow
  { mr_month : option Z; monthly_revenue : option Decimal;
    mr_tickets_sold : Z }.

Definition month_key (month_of : Z -> Z) (x : Ticket.t) : option Z :=
  month_of <$> Ticket.purchase_date x.

(** The tickets of a month. *)
Definition month_tickets (month_of : Z -> Z) (db : DB) (m : option Z)
  : list Ticket.t :=
  filter (fun x => month_key month_of x = m) (map_to_list (tickets db)).*2.

Definition month_row (month_of : Z -> Z) (be : Backend) (db : DB)
    (m : option Z) (r : MonthRow) : Prop :=
  let ts := month_tickets month_of db m in
  mr_month r = m /\
  sql_sum be (Ticket.paid_amount <$> ts) (monthly_revenue r) /\
  mr_tickets_sold r = Z.of_nat (length ts).

(** The groups: one for each month that some ticket has. *)
Definition months (month_of : Z -> Z) (db : DB) : list (option Z) :=
  remove_dups (month_key month_of <$> (map_to_list (tickets db)).*2).

(** [ORDER BY key ASC]. *)
Definition asc_before {K} (le : K -> K -> Prop) (nulls_big : bool)
    (a b : option K) : Prop :=
  match a, b with
  | Some x, Some y => le x y
  | None, None => True
  | None, Some _ => nulls_big = false
  | Some _, None => nulls_big = true
  end.

Definition month_before (be : Backend) (a b : MonthRow) : Prop :=
  asc_before Z.le (nulls_largest be) (mr_month a) (mr_month b).

Definition sales_by_month (month_of : Z -> Z) (be : Backend) (db : DB)
    (out : list MonthRow) : Prop :=
  exists rows,
    Forall2 (month_row month_of be db) (months month_of db) rows /\
    order_by (month_before be) rows out.

(** Reference runs of the other reports. *)
#[global] Instance sales_before_dec be a b : Decision (sales_before be a b).
Proof. unfold sales_before. apply _. Defined.

(** A reference run of [cashier_performance]. *)
Definition run_cashier_row (be : Backend) (db : DB) (kc : Z * Cashier.t)
  : option CashierRow :=
  let ts := related_tickets Ticket.cashier_id kc.1 db in
  s ← sum_in_order be (Ticket.paid_amount <$> ts);
  Some (MkCashierRow kc.1 kc.2 (Z.of_nat (length ts)) s).

Definition run_cashier_performance (be : Backend) (db : DB)
  : option (list CashierRow) :=
  rows ← mapM (run_cashier_row be db) (map_to_list (cashiers db));
  Some (merge_sort (sales_before be)
          (filter (fun r => 0 < tickets_count r) rows)).

#[global] Instance asc_before_dec {K} (le : K -> K -> Prop)
  `{forall x y, Decision (le x y)} nb a b : Decision (asc_before le nb a b).
Proof. destruct a, b; simpl; apply _. Defined.

#[global] Instance month_before_dec be a b : Decision (month_before be a b).
Proof. unfold month_before. apply _. Defined.

(** A reference run of [sales_by_month]. *)
Definition run_month_row (month_of : Z -> Z) (be : Backend) (db : DB)
    (m : option Z) : option MonthRow :=
  let ts := month_tickets month_of db m in
  s ← sum_in_order be (Ticket.paid_amount <$> ts);
  Some (MkMonthRow m s (Z.of_nat (length ts))).

Definition run_sales_by_month (month_of : Z -> Z) (be : Backend) (db : DB)
  : option (list MonthRow) :=
  rows ← mapM (run_month_row month_of be db) (months month_of db);
  Some (merge_sort (month_before be) rows).

(** ** The vocabulary of the statements *)

(** The sum of a list of integers. *)
Definition Zsum (l : list Z) : Z := foldr Z.add 0 l.

(** The revenue of a row of the monthly report, NULL counting for
    nothing. *)
Definition revenue_value (r : MonthRow) : Q :=
  from_option Decimal.value 0%Q (monthly_revenue r).

(** A row of the ticket table in order: it carries its key, it is no
    longer being added, it is dated and priced to the cent, and what it
    refers to is there (a cashier, when it has one). *)
Definition row_ok (db : DB) (k : Z) (x : Ticket.t) : Prop :=
  Ticket.pk x = Some k /\ Ticket.adding x = false /\
  is_Some (Ticket.purchase_date x) /\
  (exists pid, Ticket.passenger_id x = Some pid /\ is_Some (passengers db !! pid)) /\
  (forall cid, Ticket.cashier_id x = Some cid -> is_Some (cashiers db !! cid)) /\
  (exists tid, Ticket.trip_id x = Some tid /\ is_Some (trips db !! tid)) /\
  is_Some (Ticket.base_price x) /\
  Decimal.expo (Ticket.paid_amount x) = -2.

Definition store_ok (db : DB) : Prop :=
  forall k x, tickets db !! k = Some x -> row_ok db k x.

(** No trip has more tickets than seats. *)
Definition not_overbooked (db : DB) : Prop :=
  forall k tr, trips db !! k = Some tr -> sold_count k db <= Trip.capacity tr.


(** [k] is the quotient of [c] by [m] rounded half to even: it is a
    nearest integer, and an even one when two are equally near. *)
Definition is_half_even_quotient (c m k : Z) : Prop :=
  2 * Z.abs (c - k * m) <= m /\
  (2 * Z.abs (c - k * m) = m -> Z.even k = true).

(** [p] is [raw] rounded to two decimal places, half to even. *)
Definition rounded_to_cents (raw p : Decimal) : Prop :=
  Decimal.expo p = -2 /\
  if -2 <=? Decimal.expo raw
  then Decimal.coef p = Decimal.coef raw * 10 ^ (Decimal.expo raw + 2)
  else is_half_even_quotient (Decimal.coef raw)
         (10 ^ (-2 - Decimal.expo raw)) (Decimal.coef p).

(** A computation that leaves the store as it found it. *)
Definition read_only {A} (m : M A) : Prop := forall db, snd (m db) = db.

(** The base price that [price] and [save] settle on: the one supplied
    when it is set and not zero, the fare of the trip otherwise. *)
Definition resolves_base (x : Ticket.t) (db : DB) (base : Decimal) : Prop :=
  if base_price_set x then Ticket.base_price x = Some base
  else exists k tr,
      Ticket.trip_id x = Some k /\ trips db !! k = Some tr /\
      base = Decimal.of_int (Trip.price tr).

(** The exceptions that are not a [ValidationError]. *)
Definition not_validation (e : Exn) : Prop :=
  match e with ValidationError _ => False | _ => True end.

(** The instance that reaches [full_clean]: the resolved base price and
    the price are set on it. *)
Definition priced (x : Ticket.t) (base p : Decimal) : Ticket.t :=
  Ticket.set_paid_amount p (Ticket.set_base_price (Some base) x).

(** A new ticket that passes the validation of its fields: its price can
    be computed, and [clean_fields] has nothing to report. *)
Definition fields_valid (x : Ticket.t) (db : DB) : Prop :=
  exists base p,
    resolves_base x db base /\ (price x db).1 = inr p /\
    clean_fields (priced x base p) db = [].

(** The sum of a list of rationals. *)
Definition Qsum (l : list Q) : Q := foldr Qplus 0%Q l.

(** The row of a trip, with no rate where the capacity is zero. *)
Definition occupancy_row_of (db : DB) (kt : Z * Trip.t) : OccupancyRow :=
  MkOccupancyRow kt.1 kt.2 (sold_count kt.1 db)
    (if Trip.capacity kt.2 =? 0 then None
     else Some (occupancy_formula (sold_count kt.1 db) (Trip.capacity kt.2))).

(** ** [train_type_stats]  (repositories.py, lines 129-133) *)
Record TrainTypeRow : Type := MkTrainTypeRow
  { tt_train_type : string; avg_passenger_age : option float;
    max_ticket_price : option Decimal; tt_trips_count : Z }.

(** The rows one trip has in [Trip LEFT JOIN Ticket LEFT JOIN Passenger]:
    one for each of its tickets, with the passenger of the ticket, or a
    single row of NULLs when it has no ticket. *)
Definition joined (db : DB) (kt : Z * Trip.t)
  : list (option (Ticket.t * option Passenger.t)) :=
  match related_tickets Ticket.trip_id kt.1 db with
  | [] => [None]
  | ts =>
      (fun x => Some (x, Ticket.passenger_id x ≫= fun pid => passengers db !! pid))
        <$> ts
  end.

(** The trips of a train type, and their joined rows: the group of
    [values('train_type')]. *)
Definition trips_of_type (db : DB) (ty : string) : list (Z * Trip.t) :=
  filter (fun kt => Trip.train_type kt.2 = ty) (map_to_list (trips db)).

Definition joined_of_type (db : DB) (ty : string)
  : list (option (Ticket.t * option Passenger.t)) :=
  mjoin (joined db <$> trips_of_type db ty).

(** SQL [AVG] of integers, in binary64, and [MAX] of decimals; both skip
    NULLs and are NULL over no value. *)
Definition sql_avg (ns : list Z) : option float :=
  match ns with
  | [] => None
  | _ => Some (PrimFloat.div (float_of_int (Zsum ns))
                             (float_of_int (Z.of_nat (length ns))))
  end.

Definition dec_max (a b : Decimal) : Decimal :=
  if decide (Decimal.le a b) then b else a.

Definition sql_max (ds : list Decimal) : option Decimal :=
  match ds with
  | [] => None
  | d :: ds' => Some (foldl dec_max d ds')
  end.

(** [Avg('tickets__passenger__age')], [Max('tickets__paid_amount')] and
    [Count('id')] over the joined rows of the group: [COUNT(trip.id)]
    counts every joined row, the key of the trip being in each. *)
Definition train_type_row (db : DB) (ty : string) : TrainTypeRow :=
  let rows := joined_of_type db ty in
  MkTrainTypeRow ty
    (sql_avg (omap (fun r => r ≫= fun xp => Passenger.age <$> xp.2) rows))
    (sql_max (omap (fun r => (Ticket.paid_amount ∘ fst) <$> r) rows))
    (Z.of_nat (length rows)).

Definition train_type_rows (db : DB) : list TrainTypeRow :=
  train_type_row db <$>
    remove_dups (Trip.train_type <$> (map_to_list (trips db)).*2).

(** [order_by('train_type')]; [collate] is the order of the strings in
    the collation of the column. *)
Definition train_type_stats (collate : string -> string -> Prop) (db : DB)
    (out : list TrainTypeRow) : Prop :=
  order_by (fun a b => collate (tt_train_type a) (tt_train_type b))
    (train_type_rows db) out.

(** ** A small store, for the examples

    Three passengers aged 10, 70 and 30, one cashier, and one trip from
    Lviv to Kyiv with a fare of 100 and a single seat. *)
Definition example_trip : Trip.t :=
  Trip.Build "Львів" "Київ" 540 "91" "Intercity" 0 21600 100 1.

Definition example_db : DB :=
  MkDB (<[1 := Passenger.Build "Ivan" "Franko" "KA100001" 10]>
       (<[2 := Passenger.Build "Lesia" "Ukrainka" "KA100002" 70]>
       (<[3 := Passenger.Build "Taras" "Shevchenko" "KA100003" 30]> ∅)))
       (<[1 := Cashier.Build "Olha" "Kobylianska" 0]> ∅)
       (<[1 := example_trip]> ∅)
       ∅ 1000.

(** A ticket built in memory for the example trip, sold by the cashier. *)
Definition new_ticket (passenger : Z) (base : option Decimal) : Ticket.t :=
  Ticket.Build None true (Some passenger) (Some 1) (Some 1) None base None
    (Decimal.of_int 0).

(** The example store after the adult passenger has bought the seat. *)
Definition example_sold_out : DB := (save (new_ticket 3 None) example_db).2.

(** Then the passenger's age is edited to 70, and the ticket is saved
    again with a payment method. *)
Definition example_aged : DB :=
  (update_passenger 3 (Passenger.set_age 70) example_sold_out).2.

Definition example_resaved : DB :=
  (update_ticket 0 (Ticket.set_payment_method (Some "card")) example_aged).2.

(** A ticket built in memory with a primary key of its own, for the
    example trip. *)
Definition keyed_ticket : Ticket.t :=
  Ticket.Build (Some 7) true (Some 2) (Some 1) (Some 1) None None None
    (Decimal.of_int 0).

(** The row of that ticket, and what saving it again with a payment
    method writes once the passenger is 70. *)
Definition example_sold_ticket : Ticket.t :=
  Ticket.Build (Some 0) false (Some 3) (Some 1) (Some 1) (Some 1000)
    (Some (Decimal.of_int 100)) None (Dec 12000 (-2)).

Definition example_resaved_ticket : Ticket.t :=
  Ticket.Build (Some 0) false (Some 3) (Some 1) (Some 1) (Some 1000)
    (Some (Decimal.of_int 100)) (Some "card") (Dec 8400 (-2)).

(** ** A store for the reports

    Passengers 1 and 2 hold one ticket of 120.00 each on trip 1, passenger
    3 holds none; trip 2 has no ticket and no seat at all. *)
Definition report_passenger (name : string) (age : Z) : Passenger.t :=
  Passenger.Build name "Petrenko" "KB200001" age.

Definition report_ticket (k passenger : Z) : Ticket.t :=
  Ticket.Build (Some k) false (Some passenger) (Some 1) (Some 1) (Some 1000)
    (Some (Decimal.of_int 100)) None (Dec 12000 (-2)).

Definition example_report_db : DB :=
  MkDB (<[1 := report_passenger "Anna" 30]>
       (<[2 := report_passenger "Bohdan" 40]>
       (<[3 := report_passenger "Vira" 50]> ∅)))
       (<[1 := Cashier.Build "Olha" "Kobylianska" 0]> ∅)
       (<[1 := Trip.set_capacity 2 example_trip]>
       (<[2 := Trip.set_capacity 0 example_trip]> ∅))
       (<[1 := report_ticket 1 1]> (<[2 := report_ticket 2 2]> ∅))
       1000.

(** ** A store where the binary64 sum shows

    Fifteen tickets of 64.68 (a base price of 53.90 and an adult) on one
    trip. *)
Definition float_ticket (k : Z) : Ticket.t :=
  Ticket.Build (Some k) false (Some 1) (Some 1) (Some 1) (Some 1000)
    (Some (Dec 5390 (-2))) None (Dec 6468 (-2)).

Definition example_float_db : DB :=
  MkDB (<[1 := report_passenger "Anna" 30]> ∅)
       (<[1 := Cashier.Build "Olha" "Kobylianska" 0]> ∅)
       (<[1 := Trip.set_capacity 20 example_trip]> ∅)
       (list_to_map ((fun k => (k, float_ticket k)) <$> seqZ 1 15))
       1000.

(** The row of the revenue report for that trip on SQLite. *)
Definition float_revenue_row : RevenueRow :=
  MkRevenueRow 1 (Trip.set_capacity 20 example_trip)
    (Some (Dec 970200000000001 (-12))) 15.

(** A calendar for the examples: months of thirty days. *)
Definition example_month_of (t : Z) : Z := (t / 2592000) mod 12 + 1.

(** SQLite sorts NULL first, returns NULL for a division by zero and
    adds a decimal column in binary64; PostgreSQL sorts NULL last,
    raises an error and adds exactly. *)
Definition lenient_backend : Backend := MkBackend false YieldsNull Binary64.
Definition strict_backend : Backend := MkBackend true RaisesError ExactNumeric.

Definition tie_row (k : Z) (name : string) (age : Z) : PassengerRow :=
  MkPassengerRow k (report_passenger name age) (Some (Dec 12000 (-2))) 1.

(** Two answers to the query for the top passengers on that store. *)
Definition tie_order_a : list PassengerRow :=
  [tie_row 1 "Anna" 30; tie_row 2 "Bohdan" 40].
Definition tie_order_b : list PassengerRow :=
  [tie_row 2 "Bohdan" 40; tie_row 1 "Anna" 30].

(** The same on SQLite, where the sum of one amount of 120.00, held as
    the INTEGER 120, comes back as [Decimal('120')]. *)
Definition sqlite_tie_row (k : Z) (name : string) (age : Z) : PassengerRow :=
  MkPassengerRow k (report_passenger name age) (Some (Dec 120 0)) 1.

Definition sqlite_tie_order_a : list PassengerRow :=
  [sqlite_tie_row 1 "Anna" 30; sqlite_tie_row 2 "Bohdan" 40].
Definition sqlite_tie_order_b : list PassengerRow :=
  [sqlite_tie_row 2 "Bohdan" 40; sqlite_tie_row 1 "Anna" 30].

(** The occupancy rows of that store where a division by zero yields
    NULL: trip 1 is full, trip 2 has no rate. *)
Definition example_occupancy_rows : list OccupancyRow :=
  [MkOccupancyRow 1 (Trip.set_capacity 2 example_trip) 2 (Some 100%float);
   MkOccupancyRow 2 (Trip.set_capacity 0 example_trip) 0 None].

(** * Facts about decimals *)

Section DecimalFacts.
Import Decimal.

Lemma digits_aux_pos fuel n : 1 <= digits_aux fuel n.
Proof.
  revert n; induction fuel as [|fuel IH]; intros n; simpl; [lia|].
  destruct (n <? 10); [lia|]. specialize (IH (n / 10)). lia.
Qed.

Lemma digits_aux_bound fuel : forall n k,
  0 <= n -> n < 2 ^ (Z.of_nat fuel + 1) -> 1 <= k ->
  (digits_aux fuel n <= k <-> n < 10 ^ k).
Proof.
  induction fuel as [|fuel IH]; intros n k Hn Hfuel Hk.
  - simpl in *. change (2 ^ 1) with 2 in Hfuel.
    assert (10 ^ 1 <= 10 ^ k) by (apply Z.pow_le_mono_r; lia).
    change (10 ^ 1) with 10 in *. lia.
  - cbn [digits_aux]. destruct (Z.ltb_spec n 10) as [Hlt|Hge].
    + assert (10 ^ 1 <= 10 ^ k) by (apply Z.pow_le_mono_r; lia).
      change (10 ^ 1) with 10 in *. lia.
    + assert (Hdiv : n / 10 < 2 ^ (Z.of_nat fuel + 1)).
      { apply Z.div_lt_upper_bound; [lia|].
        replace (Z.of_nat (S fuel) + 1) with (Z.succ (Z.of_nat fuel + 1)) in Hfuel by lia.
        rewrite Z.pow_succ_r in Hfuel by lia. lia. }
      destruct (Z.eq_dec k 1) as [->|Hk1].
      * pose proof (digits_aux_pos fuel (n / 10)).
        change (10 ^ 1) with 10. lia.
      * specialize (IH (n / 10) (k - 1) ltac:(apply Z.div_pos; lia) Hdiv ltac:(lia)).
        replace k with (Z.succ (k - 1)) at 2 by lia.
        rewrite Z.pow_succ_r by lia.
        split; intros H.
        -- assert (n / 10 < 10 ^ (k - 1)) by (apply IH; lia).
           pose proof (Z.div_mod n 10 ltac:(lia)).
           pose proof (Z.mod_pos_bound n 10 ltac:(lia)). lia.
        -- assert (n / 10 < 10 ^ (k - 1)).
           { apply Z.div_lt_upper_bound; lia. }
           apply IH in H0. lia.
Qed.

(** A coefficient has at most [k] digits exactly when it is below [10^k]. *)
Lemma ndigits_le n k : 1 <= k -> (ndigits n <= k <-> Z.abs n < 10 ^ k).
Proof.
  intros Hk. unfold ndigits. apply digits_aux_bound; [lia| |lia].
  destruct (Z.eq_dec (Z.abs n) 0) as [->|Hnz]; [reflexivity|].
  rewrite Z2Nat.id by apply Z.log2_nonneg.
  apply Z.log2_spec. lia.
Qed.

Lemma fix_small d : Z.abs (coef d) < 10 ^ prec -> fix_ d = d.
Proof.
  intros H. unfold fix_.
  apply (ndigits_le _ prec) in H; [|unfold prec; lia].
  apply Z.leb_le in H. now rewrite H.
Qed.

Lemma value_mul_exact a b :
  (value (mul_exact a b) == value a * value b)%Q.
Proof.
  unfold value, mul_exact; simpl.
  rewrite inject_Z_mult, Qpower_plus by discriminate. ring.
Qed.

End DecimalFacts.

(** * The discount *)

(** C1. The discount is a function of the passenger's age alone: below 18
    the factor is 0.5, above 60 it is 0.7, and from 18 to 60 inclusive
    (so at exactly 18 and at exactly 60) it is 1.0. *)
Theorem calculate_discount_tiers (age : Z) :
  (age < 18 ->
     calculate_discount age = Dec 5 (-1) /\
     (Decimal.value (calculate_discount age) == 1 # 2)%Q) /\
  (60 < age ->
     calculate_discount age = Dec 7 (-1) /\
     (Decimal.value (calculate_discount age) == 7 # 10)%Q) /\
  (18 <= age <= 60 ->
     calculate_discount age = Dec 10 (-1) /\
     (Decimal.value (calculate_discount age) == 1)%Q).
Proof.
  unfold calculate_discount. repeat split; try intros H.
  all: destruct (Z.ltb_spec age 18); destruct (Z.ltb_spec 60 age);
    try lia; reflexivity.
Qed.

Lemma calculate_discount_tiers_witness :
  calculate_discount 17 = Dec 5 (-1) /\
  calculate_discount 18 = Dec 10 (-1) /\
  calculate_discount 60 = Dec 10 (-1) /\
  calculate_discount 61 = Dec 7 (-1).
Proof.
  split; [apply (calculate_discount_tiers 17); lia|].
  split; [apply (calculate_discount_tiers 18); lia|].
  split; [apply (calculate_discount_tiers 60); lia|].
  apply (calculate_discount_tiers 61); lia.
Defined.

(** * Rounding to the cent *)

Section Rounding.
Import Decimal.

Lemma round_half_even_spec n m :
  0 <= n -> 0 < m -> is_half_even_quotient n m (round_half_even n m).
Proof.
  intros Hn Hm. unfold is_half_even_quotient, round_half_even.
  pose proof (Z.div_mod n m ltac:(lia)) as Hdm.
  pose proof (Z.mod_pos_bound n m Hm) as Hr.
  set (q := n / m) in *. set (r := n mod m) in *.
  destruct (Z.ltb_spec (2 * r) m) as [H1|H1].
  - split; [|intros Habs]; nia.
  - destruct (Z.ltb_spec m (2 * r)) as [H2|H2].
    + split; [|intros Habs]; nia.
    + assert (Hhalf : 2 * r = m) by lia.
      destruct (Z.even q) eqn:Hev.
      * split; [nia|auto].
      * split; [nia|intros _].
        rewrite Z.add_1_r, Z.even_succ, <- Z.negb_even, Hev. reflexivity.
Qed.

Lemma div_half_even_spec c m :
  0 < m -> is_half_even_quotient c m (div_half_even c m).
Proof.
  intros Hm. unfold div_half_even.
  destruct (round_half_even_spec (Z.abs c) m ltac:(lia) Hm) as [Hnear Htie].
  unfold is_half_even_quotient.
  set (k := round_half_even (Z.abs c) m) in *.
  assert (Hk : 0 <= k).
  { unfold k, round_half_even.
    pose proof (Z.div_pos (Z.abs c) m ltac:(lia) Hm).
    repeat match goal with |- context [if ?b then _ else _] => destruct b end; lia. }
  destruct (Z.sgn_spec c) as [[Hc ->]|[[Hc ->]|[Hc ->]]].
  - assert (Ha : Z.abs c = c) by lia. rewrite Ha in Hnear, Htie.
    rewrite Z.mul_1_l. split; auto.
  - subst c. assert (k = 0) as -> by (simpl in Hnear; nia).
    split; [simpl; lia|reflexivity].
  - assert (Ha : Z.abs c = - c) by lia. rewrite Ha in Hnear, Htie.
    assert (Hk' : Z.opp 1 * k = - k) by lia. rewrite Hk'.
    assert (Hopp : Z.abs (c - - k * m) = Z.abs (- c - k * m)) by lia.
    rewrite Hopp. split; [exact Hnear|].
    intros H. rewrite Z.even_opp. auto.
Qed.

Lemma rescale_rounded raw : rounded_to_cents raw (rescale raw (-2)).
Proof.
  unfold rounded_to_cents, rescale.
  destruct (Z.leb_spec (-2) (expo raw)); cbn [coef expo]; split; try reflexivity.
  apply div_half_even_spec. apply Z.pow_pos_nonneg; lia.
Qed.

Lemma round_2_Some raw p :
  round_ raw 2 = Some p -> p = rescale raw (-2).
Proof.
  unfold round_. destruct (Z.eqb_spec (coef raw) 0) as [Hz|Hnz].
  - intros [= <-]. unfold rescale. rewrite Hz.
    destruct (_ <=? expo raw); reflexivity.
  - destruct (prec <? expo raw + ndigits (coef raw) + 2); [discriminate|].
    destruct (prec <? _); [discriminate|]. now intros [= <-].
Qed.

End Rounding.

(** * The computations over the store *)

Create HintDb store discriminated.

Ltac unfold_M :=
  unfold mbind, M_bind, mret, M_ret, raise, read, write, of_option in *.

Section Store.

Lemma bind_inr {A B} (m : M A) (f : A -> M B) db y db' :
  (m ≫= f) db = (inr y, db') ->
  exists x db1, m db = (inr x, db1) /\ f x db1 = (inr y, db').
Proof.
  unfold mbind, M_bind. destruct (m db) as [[e|x] db1]; [discriminate|].
  intros H. eauto.
Qed.

Lemma bind_inl {A B} (m : M A) (f : A -> M B) db e db' :
  m db = (inl e, db') -> (m ≫= f) db = (inl e, db').
Proof. unfold mbind, M_bind. now intros ->. Qed.

Lemma bind_step {A B} (m : M A) (f : A -> M B) db x db1 :
  m db = (inr x, db1) -> (m ≫= f) db = f x db1.
Proof. unfold mbind, M_bind. now intros ->. Qed.

Lemma read_only_ret {A} (x : A) : read_only (mret x).
Proof. intros db. reflexivity. Qed.

Lemma read_only_raise {A} e : read_only (@raise A e).
Proof. intros db. reflexivity. Qed.

Lemma read_only_read : read_only read.
Proof. intros db. reflexivity. Qed.

Lemma read_only_of_option {A} e (o : option A) : read_only (of_option e o).
Proof. intros db. destruct o; reflexivity. Qed.

Lemma read_only_bind {A B} (m : M A) (f : A -> M B) :
  read_only m -> (forall x, read_only (f x)) -> read_only (m ≫= f).
Proof.
  intros Hm Hf db. unfold mbind, M_bind.
  specialize (Hm db). destruct (m db) as [[e|x] db1]; simpl in *; subst.
  - reflexivity.
  - apply Hf.
Qed.

Hint Resolve read_only_ret read_only_raise read_only_read
  read_only_of_option : store.

Lemma read_only_get_trip x : read_only (get_trip x).
Proof.
  unfold get_trip. destruct (Ticket.trip_id x); auto with store.
  apply read_only_bind; auto with store. intros db.
  apply read_only_bind; auto with store.
Qed.

Lemma read_only_get_passenger x : read_only (get_passenger x).
Proof.
  unfold get_passenger. destruct (Ticket.passenger_id x); auto with store.
  apply read_only_bind; auto with store.
Qed.

Hint Resolve read_only_get_trip read_only_get_passenger : store.

Lemma read_only_price x : read_only (price x).
Proof.
  unfold price. apply read_only_bind.
  - destruct (Ticket.base_price x) as [b|]; [destruct (Decimal.truthy b)|];
      auto with store; apply read_only_bind; auto with store;
      intros [k tr]; auto with store.
  - intros base. apply read_only_bind; auto with store.
Qed.

Lemma read_only_clean x : read_only (clean x).
Proof.
  unfold clean. destruct (Ticket.pk x); auto with store.
  apply read_only_bind; auto with store. intros [k tr].
  apply read_only_bind; auto with store. intros db.
  destruct (_ <=? 0); auto with store.
Qed.

Lemma read_only_full_clean x : read_only (full_clean x).
Proof.
  unfold full_clean. apply read_only_bind; auto with store. intros db.
  destruct (clean x db).1 as [[]|]; auto with store.
  destruct (_ ++ _); auto with store.
Qed.

Lemma get_trip_inr x db k tr db' :
  get_trip x db = (inr (k, tr), db') ->
  db' = db /\ Ticket.trip_id x = Some k /\ trips db !! k = Some tr.
Proof.
  unfold get_trip. destruct (Ticket.trip_id x) as [k0|]; [|discriminate].
  unfold_M. destruct (trips db !! k0) eqn:E; [|discriminate].
  intros [= <- <- <-]. auto.
Qed.

Lemma get_trip_found x db k tr :
  Ticket.trip_id x = Some k -> trips db !! k = Some tr ->
  get_trip x db = (inr (k, tr), db).
Proof. unfold get_trip. intros -> H. unfold_M. now rewrite H. Qed.

Lemma get_passenger_inr x db p db' :
  get_passenger x db = (inr p, db') ->
  db' = db /\ exists k, Ticket.passenger_id x = Some k /\ passengers db !! k = Some p.
Proof.
  unfold get_passenger. destruct (Ticket.passenger_id x) as [k0|]; [|discriminate].
  unfold_M. destruct (passengers db !! k0) eqn:E; [|discriminate].
  intros [= <- <-]. eauto.
Qed.

Lemma get_passenger_found x db k p :
  Ticket.passenger_id x = Some k -> passengers db !! k = Some p ->
  get_passenger x db = (inr p, db).
Proof. unfold get_passenger. intros -> H. unfold_M. now rewrite H. Qed.

End Store.

(** * The price *)

Section Price.
Import Decimal.

Lemma price_eval x db base pid pa :
  resolves_base x db base ->
  Ticket.passenger_id x = Some pid -> passengers db !! pid = Some pa ->
  price x db =
    (match round_ (raw_price base (calculate_discount (Passenger.age pa))) 2 with
     | Some p => inr p
     | None => inl InvalidOperation
     end, db).
Proof.
  intros Hbase Hpid Hpa. unfold price, resolves_base, base_price_set in *.
  assert (Hcur :
    (match Ticket.base_price x with
     | Some b =>
         if truthy b then mret b
         else '(_, tr) ← get_trip x; mret (of_int (Trip.price tr))
     | None => '(_, tr) ← get_trip x; mret (of_int (Trip.price tr))
     end) db = (inr base, db)).
  { destruct (Ticket.base_price x) as [b|]; [destruct (truthy b)|].
    - now injection Hbase as ->.
    - destruct Hbase as (k & tr & Hk & Htr & ->).
      now rewrite (bind_step _ _ _ _ _ (get_trip_found _ _ _ _ Hk Htr)).
    - destruct Hbase as (k & tr & Hk & Htr & ->).
      now rewrite (bind_step _ _ _ _ _ (get_trip_found _ _ _ _ Hk Htr)). }
  rewrite (bind_step _ _ _ _ _ Hcur).
  rewrite (bind_step _ _ _ _ _ (get_passenger_found _ _ _ _ Hpid Hpa)).
  destruct (round_ _ 2); reflexivity.
Qed.

Lemma price_inr x db p db' :
  price x db = (inr p, db') ->
  db' = db /\
  exists base pid pa,
    resolves_base x db base /\
    Ticket.passenger_id x = Some pid /\ passengers db !! pid = Some pa /\
    round_ (raw_price base (calculate_discount (Passenger.age pa))) 2 = Some p.
Proof.
  intros H. split.
  { pose proof (read_only_price x db) as Hro. now rewrite H in Hro. }
  unfold price in H.
  apply bind_inr in H as (base & db1 & Hcur & H).
  apply bind_inr in H as (pa & db2 & Hpa & H).
  assert (Hbase : db1 = db /\ resolves_base x db base).
  { unfold resolves_base, base_price_set.
    destruct (Ticket.base_price x) as [b|]; [destruct (truthy b)|].
    - injection Hcur as <- <-. auto.
    - apply bind_inr in Hcur as ([k tr] & db3 & Hg & Hcur).
      apply get_trip_inr in Hg as (-> & Hk & Htr).
      injection Hcur as <- <-. eauto 6.
    - apply bind_inr in Hcur as ([k tr] & db3 & Hg & Hcur).
      apply get_trip_inr in Hg as (-> & Hk & Htr).
      injection Hcur as <- <-. eauto 6. }
  destruct Hbase as [-> Hbase].
  apply get_passenger_inr in Hpa as (-> & pid & Hpid & Hpa).
  exists base, pid, pa. repeat split; auto.
  unfold_M. destruct (round_ _ 2); [now injection H as ->|discriminate].
Qed.

Lemma ndigits_pos n : 1 <= ndigits n.
Proof. apply digits_aux_pos. Qed.

(** A value that passes [DecimalValidator(10, 2)] has at most ten
    digits and at most two decimal places. *)
Lemma decimal_validator_ok field d :
  decimal_validator 10 2 field d = [] ->
  -2 <= expo d /\ Z.abs (coef d) < 10 ^ 10.
Proof.
  unfold decimal_validator. pose proof (ndigits_pos (coef d)) as Hpos.
  pose proof (ndigits_le (coef d) 10 ltac:(lia)) as Hlen.
  destruct (Z.leb_spec 0 (expo d)) as [He|He].
  - destruct (Z.eqb_spec (coef d) 0).
    + destruct (Z.ltb_spec 10 (ndigits (coef d))); [discriminate|].
      intros _. split; [lia|]. apply Hlen. lia.
    + destruct (Z.ltb_spec 10 (ndigits (coef d) + expo d)); [discriminate|].
      intros _. split; [lia|]. apply Hlen. lia.
  - destruct (Z.ltb_spec (ndigits (coef d)) (- expo d)).
    + destruct (Z.ltb_spec 10 (- expo d)); [discriminate|].
      destruct (Z.ltb_spec 2 (- expo d)); [discriminate|].
      intros _. split; [lia|]. apply Hlen. lia.
    + destruct (Z.ltb_spec 10 (ndigits (coef d))); [discriminate|].
      destruct (Z.ltb_spec 2 (- expo d)); [discriminate|].
      intros _. split; [lia|]. apply Hlen. lia.
Qed.

Lemma one_plus_tax : add (of_int 1) TAX = Dec 12 (-1).
Proof. reflexivity. Qed.

Lemma calculate_discount_coef age :
  0 < coef (calculate_discount age) <= 10 /\ expo (calculate_discount age) = -1.
Proof.
  unfold calculate_discount.
  destruct (age <? 18); [|destruct (60 <? age)]; simpl; lia.
Qed.

(** Within the digits of the field no product is rounded: the raw price
    is the exact product. *)
Lemma raw_price_exact base age :
  Z.abs (coef base) < 10 ^ 10 ->
  raw_price base (calculate_discount age) =
  mul_exact (mul_exact base (calculate_discount age)) (Dec 12 (-1)).
Proof.
  intros Hb. unfold raw_price. rewrite one_plus_tax.
  destruct (calculate_discount_coef age) as [Hc _].
  change (10 ^ 10) with 10000000000 in Hb.
  unfold mul. rewrite (fix_small (mul_exact base _)).
  - apply fix_small. unfold mul_exact; cbn [coef expo].
    change (10 ^ prec) with 10000000000000000000000000000. nia.
  - unfold mul_exact; cbn [coef expo].
    change (10 ^ prec) with 10000000000000000000000000000. nia.
Qed.

Lemma value_raw_price_exact base d :
  (value (mul_exact (mul_exact base d) (Dec 12 (-1))) ==
   value base * value d * (1 + value TAX))%Q.
Proof.
  rewrite !value_mul_exact.
  assert (H : (value (Dec 12 (-1)) == 1 + value TAX)%Q) by reflexivity.
  now rewrite H.
Qed.

End Price.

(** * [Ticket.save], stage by stage *)

Section Save.
Import Decimal.

Lemma get_trip_inl x db e db' :
  get_trip x db = (inl e, db') -> db' = db /\ not_validation e.
Proof.
  unfold get_trip. destruct (Ticket.trip_id x) as [k|].
  - unfold_M. destruct (trips db !! k); [discriminate|].
    intros [= <- <-]. now split.
  - intros [= <- <-]. now split.
Qed.

Lemma get_passenger_inl x db e db' :
  get_passenger x db = (inl e, db') -> db' = db /\ not_validation e.
Proof.
  unfold get_passenger. destruct (Ticket.passenger_id x) as [k|].
  - unfold_M. destruct (passengers db !! k); [discriminate|].
    intros [= <- <-]. now split.
  - intros [= <- <-]. now split.
Qed.

Lemma price_inl x db e db' :
  price x db = (inl e, db') -> db' = db /\ not_validation e.
Proof.
  intros H. split.
  { pose proof (read_only_price x db) as Hro. now rewrite H in Hro. }
  revert H. unfold price. unfold mbind at 1, M_bind at 1.
  destruct (Ticket.base_price x) as [b|]; [destruct (truthy b)|].
  - unfold mret at 1, M_ret at 1. unfold mbind, M_bind.
    destruct (get_passenger x db) as [[e'|pa] db1] eqn:Hp.
    + intros [= <- <-]. now apply get_passenger_inl in Hp.
    + unfold of_option. destruct (round_ _ 2); [discriminate|].
      now intros [= <- <-].
  - unfold mbind at 1, M_bind at 1.
    destruct (get_trip x db) as [[e'|[k tr]] db1] eqn:Ht.
    + intros [= <- <-]. now apply get_trip_inl in Ht.
    + unfold mret at 1, M_ret at 1. unfold mbind, M_bind.
      destruct (get_passenger x db1) as [[e'|pa] db2] eqn:Hp.
      * intros [= <- <-]. now apply get_passenger_inl in Hp.
      * unfold of_option. destruct (round_ _ 2); [discriminate|].
        now intros [= <- <-].
  - unfold mbind at 1, M_bind at 1.
    destruct (get_trip x db) as [[e'|[k tr]] db1] eqn:Ht.
    + intros [= <- <-]. now apply get_trip_inl in Ht.
    + unfold mret at 1, M_ret at 1. unfold mbind, M_bind.
      destruct (get_passenger x db1) as [[e'|pa] db2] eqn:Hp.
      * intros [= <- <-]. now apply get_passenger_inl in Hp.
      * unfold of_option. destruct (round_ _ 2); [discriminate|].
        now intros [= <- <-].
Qed.

Lemma set_base_price_same x base :
  Ticket.base_price x = Some base -> Ticket.set_base_price (Some base) x = x.
Proof. destruct x; simpl. now intros ->. Qed.

(** Either [save] stops before validation with an exception that is not
    a [ValidationError] and leaves the store alone, or the base price
    and the price are settled and [save] goes on to [full_clean] and
    [super().save()]. *)
Lemma save_cases x db :
  (exists e, save x db = (inl e, db) /\ not_validation e) \/
  (exists base pid pa p,
      resolves_base x db base /\
      Ticket.passenger_id x = Some pid /\ passengers db !! pid = Some pa /\
      round_ (raw_price base (calculate_discount (Passenger.age pa))) 2 = Some p /\
      save x db =
        (full_clean (priced x base p) ≫= fun _ => super_save (priced x base p)) db).
Proof.
  unfold save. destruct (base_price_set x) eqn:Hset.
  - rewrite (bind_step (mret x) _ db x db eq_refl).
    destruct (price x db) as [[e|p] db1] eqn:Hp.
    + rewrite (bind_inl _ _ _ _ _ Hp).
      apply price_inl in Hp as [-> He]. left. eauto.
    + rewrite (bind_step _ _ _ _ _ Hp).
      apply price_inr in Hp as (-> & base & pid & pa & Hb & Hpid & Hpa & Hr).
      right. exists base, pid, pa, p. repeat split; auto.
      unfold priced. unfold resolves_base in Hb. rewrite Hset in Hb.
      now rewrite (set_base_price_same _ _ Hb).
  - destruct (get_trip x db) as [[e|[k tr]] db1] eqn:Ht.
    + rewrite (bind_inl _ _ _ _ _ (bind_inl _ _ _ _ _ Ht)).
      apply get_trip_inl in Ht as [-> He]. left. eauto.
    + rewrite (bind_step _ _ _ _ _ (bind_step _ _ _ _ _ Ht)).
      apply get_trip_inr in Ht as (-> & Hk & Htr).
      set (x1 := Ticket.set_base_price _ x).
      destruct (price x1 db) as [[e|p] db1] eqn:Hp.
      * rewrite (bind_inl _ _ _ _ _ Hp).
        apply price_inl in Hp as [-> He]. left. eauto.
      * rewrite (bind_step _ _ _ _ _ Hp).
        apply price_inr in Hp as (-> & base & pid & pa & Hb & Hpid & Hpa & Hr).
        assert (base = of_int (Trip.price tr)) as ->.
        { unfold resolves_base in Hb.
          destruct (base_price_set x1).
          - simpl in Hb. congruence.
          - destruct Hb as (k' & tr' & Hk' & Htr' & ->).
            assert (k' = k) as -> by (destruct x; simpl in *; congruence).
            congruence. }
        right. exists (of_int (Trip.price tr)), pid, pa, p.
        split. { unfold resolves_base. rewrite Hset. eauto. }
        split. { destruct x; auto. }
        repeat split; auto.
Qed.

End Save.

(** * Validation and the write *)

Section Validation.

Lemma clean_persisted x db k :
  Ticket.pk x = Some k -> clean x db = (inr tt, db).
Proof. unfold clean. now intros ->. Qed.

Lemma clean_no_seats x db k tr :
  Ticket.pk x = None ->
  Ticket.trip_id x = Some k -> trips db !! k = Some tr ->
  available_seats k tr db <= 0 ->
  clean x db = (inl (ValidationError [NonFieldError (no_seats_message tr)]), db).
Proof.
  intros Hpk Hk Htr Hseats. unfold clean. rewrite Hpk.
  rewrite (bind_step _ _ _ _ _ (get_trip_found _ _ _ _ Hk Htr)).
  unfold_M. apply Z.leb_le in Hseats. now rewrite Hseats.
Qed.

Lemma clean_seats_left x db k tr :
  Ticket.trip_id x = Some k -> trips db !! k = Some tr ->
  0 < available_seats k tr db ->
  clean x db = (inr tt, db).
Proof.
  intros Hk Htr Hseats. unfold clean. destruct (Ticket.pk x); [reflexivity|].
  rewrite (bind_step _ _ _ _ _ (get_trip_found _ _ _ _ Hk Htr)).
  unfold_M. apply Z.leb_gt in Hseats. now rewrite Hseats.
Qed.

Lemma full_clean_eval x db :
  full_clean x db =
  (match (clean x db).1 with
   | inl (ValidationError es) =>
       inl (ValidationError (clean_fields x db ++ es ++ validate_unique x db))
   | inl e => inl e
   | inr _ =>
       match clean_fields x db ++ validate_unique x db with
       | [] => inr tt
       | es => inl (ValidationError es)
       end
   end, db).
Proof.
  unfold full_clean. unfold_M.
  destruct (clean x db).1 as [[]|]; try reflexivity.
  destruct (_ ++ _); reflexivity.
Qed.

Lemma full_clean_inr x db u db' :
  full_clean x db = (inr u, db') ->
  db' = db /\ clean_fields x db = [] /\ validate_unique x db = [] /\
  (clean x db).1 = inr tt.
Proof.
  rewrite full_clean_eval.
  destruct (clean x db).1 as [[]|[]]; try discriminate.
  destruct (clean_fields x db ++ validate_unique x db) eqn:E; [|discriminate].
  apply app_eq_nil in E as [-> ->]. intros [= <- <-]. auto.
Qed.

Lemma full_clean_pass x db :
  clean_fields x db = [] -> validate_unique x db = [] ->
  (clean x db).1 = inr tt -> full_clean x db = (inr tt, db).
Proof. intros H1 H2 H3. rewrite full_clean_eval, H1, H2, H3. reflexivity. Qed.

(** The errors of the fields and of the uniqueness check are errors of a
    field. *)
Lemma decimal_validator_fields md dp f d item :
  item ∈ decimal_validator md dp f d -> exists c, item = FieldError f c.
Proof.
  unfold decimal_validator.
  destruct (if 0 <=? _ then _ else _) as [digits decimals].
  repeat match goal with |- context [if ?b then _ else _] => destruct b end;
    intros H; try (apply list_elem_of_singleton in H; eauto);
    now apply not_elem_of_nil in H.
Qed.

Lemma foreign_key_errors_fields {A} f nb (tbl : gmap Z A) fk item :
  item ∈ foreign_key_errors f nb tbl fk -> exists c, item = FieldError f c.
Proof.
  unfold foreign_key_errors. destruct fk as [k|]; [destruct (tbl !! k)|];
    intros H; try (apply list_elem_of_singleton in H; eauto);
    now apply not_elem_of_nil in H.
Qed.

Lemma clean_fields_fields x db item :
  item ∈ clean_fields x db -> exists f c, item = FieldError f c.
Proof.
  unfold clean_fields. rewrite !elem_of_app.
  intros [H|[H|[H|[H|[H|H]]]]].
  - apply foreign_key_errors_fields in H as [c ->]; eauto.
  - apply foreign_key_errors_fields in H as [c ->]; eauto.
  - apply foreign_key_errors_fields in H as [c ->]; eauto.
  - destruct (Ticket.base_price x); [|now apply not_elem_of_nil in H].
    apply decimal_validator_fields in H as [c ->]; eauto.
  - destruct (Ticket.payment_method x) as [s|]; [|now apply not_elem_of_nil in H].
    destruct (String.eqb s ""); [now apply not_elem_of_nil in H|].
    destruct (50 <? py_len s); [|now apply not_elem_of_nil in H].
    apply list_elem_of_singleton in H; eauto.
  - apply decimal_validator_fields in H as [c ->]; eauto.
Qed.

Lemma validate_unique_fields x db item :
  item ∈ validate_unique x db -> exists f c, item = FieldError f c.
Proof.
  unfold validate_unique. destruct (Ticket.pk x); [|now intros ?%not_elem_of_nil].
  destruct (_ && _); [|now intros ?%not_elem_of_nil].
  intros H%list_elem_of_singleton. eauto.
Qed.

(** An insert under a key the store chooses. *)
Lemma super_save_new x db :
  Ticket.pk x = None ->
  let k := fresh (dom (tickets db)) in
  let row := Ticket.stored k (Some (now db)) x in
  tickets db !! k = None /\
  super_save x db = (inr row, with_tickets (<[k := row]> (tickets db)) db).
Proof.
  intros Hpk k row. split.
  - apply not_elem_of_dom. apply is_fresh.
  - unfold super_save. unfold_M. now rewrite Hpk.
Qed.

(** Whatever [super().save()] writes, it writes the instance under its
    key, and touches no other row and no other table. *)
Lemma super_save_inr x db x' db' :
  super_save x db = (inr x', db') ->
  exists k date,
    x' = Ticket.stored k date x /\
    (forall k0, Ticket.pk x = Some k0 -> k = k0) /\
    (Ticket.pk x = None -> tickets db !! k = None) /\
    db' = with_tickets (<[k := x']> (tickets db)) db.
Proof.
  unfold super_save. unfold_M. destruct (Ticket.pk x) as [k|] eqn:Hpk.
  - destruct (tickets db !! k) eqn:Hrow.
    + destruct (Ticket.purchase_date x) as [d|]; [|discriminate].
      intros [= <- <-]. exists k, (Some d). repeat split; try congruence.
    + intros [= <- <-]. exists k, (Some (now db)). repeat split; congruence.
  - intros [= <- <-]. exists (fresh (dom (tickets db))), (Some (now db)).
    repeat split; try congruence.
    intros _. apply not_elem_of_dom, is_fresh.
Qed.

End Validation.

Section Creation.
Import Decimal.

Lemma clean_fields_nil x db :
  clean_fields x db = [] ->
  foreign_key_errors "passenger" false (passengers db) (Ticket.passenger_id x) = [] /\
  foreign_key_errors "cashier" true (cashiers db) (Ticket.cashier_id x) = [] /\
  foreign_key_errors "trip" false (trips db) (Ticket.trip_id x) = [] /\
  (forall b, Ticket.base_price x = Some b ->
             decimal_validator 10 2 "base_price" b = []) /\
  decimal_validator 10 2 "paid_amount" (Ticket.paid_amount x) = [].
Proof.
  unfold clean_fields. intros H.
  repeat (apply app_eq_nil in H as [? H]).
  repeat split; auto. intros b Hb.
  match goal with H : match Ticket.base_price x with _ => _ end = [] |- _ =>
    now rewrite Hb in H end.
Qed.

(** What a successful [save] has done: the base price and the price are
    settled as in [price], the instance has passed validation, and the
    row written carries that price. *)
Lemma save_inr x db x' db' :
  save x db = (inr x', db') ->
  exists base pid pa p k date,
    resolves_base x db base /\
    Ticket.passenger_id x = Some pid /\ passengers db !! pid = Some pa /\
    round_ (raw_price base (calculate_discount (Passenger.age pa))) 2 = Some p /\
    clean_fields (priced x base p) db = [] /\
    (clean (priced x base p) db).1 = inr tt /\
    x' = Ticket.stored k date (priced x base p) /\
    (forall k0, Ticket.pk x = Some k0 -> k = k0) /\
    (Ticket.pk x = None -> tickets db !! k = None) /\
    db' = with_tickets (<[k := x']> (tickets db)) db.
Proof.
  intros H. destruct (save_cases x db) as [(e & He & _)|Hok].
  { rewrite He in H. discriminate. }
  destruct Hok as (base & pid & pa & p & Hb & Hpid & Hpa & Hr & Hsave).
  rewrite Hsave in H. apply bind_inr in H as (u & db1 & Hfc & Hss).
  apply full_clean_inr in Hfc as (-> & Hcf & Hvu & Hcl).
  apply super_save_inr in Hss as (k & date & -> & Hk & Hnew & ->).
  exists base, pid, pa, p, k, date. repeat split; auto.
Qed.

Lemma paid_amount_stored k date x base p :
  Ticket.paid_amount (Ticket.stored k date (priced x base p)) = p.
Proof. reflexivity. Qed.

Lemma base_price_stored k date x base p :
  Ticket.base_price (Ticket.stored k date (priced x base p)) = Some base.
Proof. reflexivity. Qed.

(** The price of a validated base price: exact product, rounded to the
    cent. *)
Lemma validated_price x base p db age :
  clean_fields (priced x base p) db = [] ->
  round_ (raw_price base (calculate_discount age)) 2 = Some p ->
  let raw := mul_exact (mul_exact base (calculate_discount age)) (Dec 12 (-1)) in
  raw_price base (calculate_discount age) = raw /\
  p = rescale raw (-2).
Proof.
  intros Hcf Hr raw.
  apply clean_fields_nil in Hcf as (_ & _ & _ & Hbase & _).
  specialize (Hbase base eq_refl).
  apply decimal_validator_ok in Hbase as [_ Hbound].
  pose proof (raw_price_exact base age Hbound) as Hraw.
  split; [exact Hraw|]. rewrite Hraw in Hr. now apply round_2_Some.
Qed.

End Creation.


Section Seats.
Import Decimal.

(** [save] when the base price and the passenger are found. *)
Lemma save_eval x db base pid pa :
  resolves_base x db base ->
  Ticket.passenger_id x = Some pid -> passengers db !! pid = Some pa ->
  save x db =
  match round_ (raw_price base (calculate_discount (Passenger.age pa))) 2 with
  | Some p =>
      (full_clean (priced x base p) ≫= fun _ => super_save (priced x base p)) db
  | None => (inl InvalidOperation, db)
  end.
Proof.
  intros Hb Hpid Hpa.
  unfold save. unfold resolves_base in Hb.
  destruct (base_price_set x) eqn:Hset.
  - rewrite (bind_step (mret x) _ db x db eq_refl).
    assert (Hres : resolves_base x db base)
      by (unfold resolves_base; now rewrite Hset).
    pose proof (price_eval x db base pid pa Hres Hpid Hpa) as Hp.
    destruct (round_ _ 2) as [p|].
    + rewrite (bind_step _ _ _ _ _ Hp).
      unfold priced. now rewrite (set_base_price_same _ _ Hb).
    + now rewrite (bind_inl _ _ _ _ _ Hp).
  - destruct Hb as (k & tr & Hk & Htr & ->).
    pose proof (get_trip_found x db k tr Hk Htr) as Ht.
    rewrite (bind_step _ _ _ _ _ (bind_step _ _ _ _ _ Ht)).
    set (x1 := Ticket.set_base_price _ x).
    assert (Hres : resolves_base x1 db (of_int (Trip.price tr))).
    { unfold resolves_base. destruct (base_price_set x1); [reflexivity|].
      exists k, tr. repeat split; auto. }
    assert (Hpid1 : Ticket.passenger_id x1 = Some pid) by (destruct x; auto).
    pose proof (price_eval x1 db _ pid pa Hres Hpid1 Hpa) as Hp.
    destruct (round_ _ 2) as [p|].
    + now rewrite (bind_step _ _ _ _ _ Hp).
    + now rewrite (bind_inl _ _ _ _ _ Hp).
Qed.

(** [price] succeeds exactly when [save] reaches validation. *)
Lemma price_then_save x db p :
  (price x db).1 = inr p ->
  exists base,
    resolves_base x db base /\
    save x db =
      (full_clean (priced x base p) ≫= fun _ => super_save (priced x base p)) db.
Proof.
  intros H. destruct (price x db) as [r db1] eqn:Hp. simpl in H. subst r.
  apply price_inr in Hp as (-> & base & pid & pa & Hb & Hpid & Hpa & Hr).
  exists base. split; [exact Hb|].
  rewrite (save_eval x db base pid pa Hb Hpid Hpa). now rewrite Hr.
Qed.

Lemma full_clean_no_seats x db k tr :
  Ticket.pk x = None ->
  Ticket.trip_id x = Some k -> trips db !! k = Some tr ->
  available_seats k tr db <= 0 ->
  exists errs,
    full_clean x db = (inl (ValidationError errs), db) /\
    NonFieldError (no_seats_message tr) ∈ errs.
Proof.
  intros Hpk Hk Htr Hseats. rewrite full_clean_eval.
  rewrite (clean_no_seats x db k tr Hpk Hk Htr Hseats). simpl.
  eexists. split; [reflexivity|].
  rewrite elem_of_app. right. apply list_elem_of_here.
Qed.

(** A ticket written under a free key is one more ticket of its trip. *)
Lemma related_tickets_insert fk k db k' row :
  tickets db !! k' = None ->
  related_tickets fk k (with_tickets (<[k' := row]> (tickets db)) db) ≡ₚ
  (if decide (fk row = Some k) then [row] else []) ++ related_tickets fk k db.
Proof.
  intros Hfree. unfold related_tickets. simpl.
  rewrite (map_to_list_insert _ _ _ Hfree). simpl.
  rewrite filter_cons. destruct (decide (fk row = Some k)); reflexivity.
Qed.

Lemma sold_count_insert k db k' row :
  tickets db !! k' = None ->
  sold_count k (with_tickets (<[k' := row]> (tickets db)) db) =
  sold_count k db + (if decide (Ticket.trip_id row = Some k) then 1 else 0).
Proof.
  intros Hfree. unfold sold_count.
  rewrite (related_tickets_insert _ _ _ _ _ Hfree).
  destruct (decide _); simpl; lia.
Qed.

(** A new ticket whose fields are valid is saved when its trip has a
    seat left. *)
Lemma save_creates x db k tr :
  Ticket.pk x = None ->
  Ticket.trip_id x = Some k -> trips db !! k = Some tr ->
  sold_count k db < Trip.capacity tr -> fields_valid x db ->
  exists x' db', save x db = (inr x', db').
Proof.
  intros Hpk Hk Htr Hseats (base & p & Hb & Hp & Hcf).
  apply price_then_save in Hp as (base' & Hb' & Hs).
  assert (base' = base) as ->.
  { unfold resolves_base in *. destruct (base_price_set x); [congruence|].
    destruct Hb as (k1 & tr1 & Hk1 & Htr1 & ->).
    destruct Hb' as (k2 & tr2 & Hk2 & Htr2 & ->). congruence. }
  set (x2 := priced x base p) in *.
  assert (Hpk2 : Ticket.pk x2 = None) by (destruct x; assumption).
  assert (Hk2 : Ticket.trip_id x2 = Some k) by (destruct x; assumption).
  assert (Hfc : full_clean x2 db = (inr tt, db)).
  { apply full_clean_pass; auto.
    - unfold validate_unique. now rewrite Hpk2.
    - rewrite (clean_seats_left x2 db k tr Hk2 Htr); [reflexivity|].
      unfold available_seats. lia. }
  destruct (super_save_new x2 db Hpk2) as [Hfree Hss].
  rewrite (bind_step _ _ _ _ _ Hfc), Hss in Hs.
  eexists _, _. exact Hs.
Qed.

End Seats.

(** C3, as the code has it.  Creating a ticket whose primary key is not
    set, for a trip without a seat left, fails and writes nothing; the
    failure is the validation error of [clean], whose message quotes the
    trip, as soon as the price could be computed.  So on a trip of
    capacity 1 without a ticket, a first creation succeeds and a second
    one fails with that error.  (A ticket built with a key of its own is
    not checked for seats.) *)
Theorem no_seats_available :
  (forall x db k tr,
      Ticket.pk x = None ->
      Ticket.trip_id x = Some k -> trips db !! k = Some tr ->
      available_seats k tr db <= 0 ->
      exists e,
        save x db = (inl e, db) /\
        (forall p, (price x db).1 = inr p ->
           exists errs, e = ValidationError errs /\
                        NonFieldError (no_seats_message tr) ∈ errs)) /\
  (forall x1 db k tr,
      trips db !! k = Some tr -> Trip.capacity tr = 1 -> sold_count k db = 0 ->
      Ticket.pk x1 = None -> Ticket.trip_id x1 = Some k ->
      fields_valid x1 db ->
      exists x1' db1,
        save x1 db = (inr x1', db1) /\
        forall x2 p,
          Ticket.pk x2 = None -> Ticket.trip_id x2 = Some k ->
          (price x2 db1).1 = inr p ->
          exists errs,
            save x2 db1 = (inl (ValidationError errs), db1) /\
            NonFieldError (no_seats_message tr) ∈ errs).
Proof.
  assert (Hfull : forall x db k tr,
      Ticket.pk x = None ->
      Ticket.trip_id x = Some k -> trips db !! k = Some tr ->
      available_seats k tr db <= 0 ->
      exists e,
        save x db = (inl e, db) /\
        (forall p, (price x db).1 = inr p ->
           exists errs, e = ValidationError errs /\
                        NonFieldError (no_seats_message tr) ∈ errs)).
  { intros x db k tr Hpk Hk Htr Hseats.
    assert (Hreach : forall base p,
      exists errs,
        (full_clean (priced x base p) ≫= fun _ => super_save (priced x base p)) db
        = (inl (ValidationError errs), db) /\
        NonFieldError (no_seats_message tr) ∈ errs).
    { intros base p.
      destruct (full_clean_no_seats (priced x base p) db k tr) as (errs & Hfc & Hin);
        try (destruct x; assumption); auto.
      exists errs. split; [|exact Hin]. now apply bind_inl. }
    destruct (save_cases x db) as [(e & He & Hnv)|Hok].
    - exists e. split; [exact He|]. intros p Hp.
      apply price_then_save in Hp as (base & _ & Hs).
      destruct (Hreach base p) as (errs & Hr & _).
      rewrite Hs, Hr in He. injection He as <-. destruct Hnv.
    - destruct Hok as (base & pid & pa & p & _ & _ & _ & _ & Hs).
      destruct (Hreach base p) as (errs & Hr & Hin). rewrite Hr in Hs.
      exists (ValidationError errs). split; [exact Hs|]. intros p' Hp'.
      apply price_then_save in Hp' as (base' & _ & Hs').
      destruct (Hreach base' p') as (errs' & Hr' & Hin').
      rewrite Hs', Hr' in Hs. injection Hs as ->. eauto. }
  split; [exact Hfull|].
  intros x1 db k tr Htr Hcap Hsold Hpk Hk (base & p & Hb & Hp & Hcf).
  apply price_then_save in Hp as (base' & Hb' & Hs).
  assert (base' = base) as ->.
  { unfold resolves_base in *. destruct (base_price_set x1); [congruence|].
    destruct Hb as (k1 & tr1 & Hk1 & Htr1 & ->).
    destruct Hb' as (k2 & tr2 & Hk2 & Htr2 & ->). congruence. }
  set (x2 := priced x1 base p) in *.
  assert (Hpk2 : Ticket.pk x2 = None) by (destruct x1; assumption).
  assert (Hk2 : Ticket.trip_id x2 = Some k) by (destruct x1; assumption).
  assert (Hfc : full_clean x2 db = (inr tt, db)).
  { apply full_clean_pass; auto.
    - unfold validate_unique. now rewrite Hpk2.
    - rewrite (clean_seats_left x2 db k tr Hk2 Htr); [reflexivity|].
      unfold available_seats. lia. }
  destruct (super_save_new x2 db Hpk2) as [Hfree Hss].
  rewrite (bind_step _ _ _ _ _ Hfc), Hss in Hs.
  eexists _, _. split; [exact Hs|].
  intros x3 p3 Hpk3 Hk3 Hp3.
  match type of Hs with _ = (_, ?d) => set (db1 := d) in * end.
  assert (Hseats : available_seats k tr db1 <= 0).
  { unfold available_seats, db1. rewrite (sold_count_insert _ _ _ _ Hfree).
    simpl. rewrite decide_True by (destruct x1; assumption). lia. }
  destruct (Hfull x3 db1 k tr Hpk3 Hk3 Htr Hseats) as (e & He & Herr).
  destruct (Herr p3 Hp3) as (errs & -> & Hin). eauto.
Qed.

(** The claim as the spec words it fails.  The seat check looks at the
    primary key of the instance, not at the table: on the example trip,
    sold out, a ticket built with the key 7, which no row has, is created
    all the same and leaves the trip with -1 seat.  And a creation
    without a key whose passenger does not exist fails there with the
    error of the lookup, not with the error for seats. *)
Lemma creation_with_key_unchecked :
  available_seats 1 example_trip example_sold_out = 0 /\
  tickets example_sold_out !! 7 = None /\
  (exists x', (save keyed_ticket example_sold_out).1 = inr x' /\
              tickets (save keyed_ticket example_sold_out).2 !! 7 = Some x') /\
  available_seats 1 example_trip (save keyed_ticket example_sold_out).2 = -1 /\
  (save (new_ticket 9 None) example_sold_out).1 = inl (DoesNotExist "Passenger").
Proof.
  split; [vm_compute; reflexivity|]. split; [vm_compute; reflexivity|].
  split; [eexists; split; vm_compute; reflexivity|].
  split; vm_compute; reflexivity.
Qed.

(** C10. The seat check runs only while the primary key is unset: for an
    instance that has a key, [clean] checks nothing, no failure of [save]
    is the no-seats error (a [ValidationError] of [save] then lists
    errors of fields only), and the save of a persisted, valid ticket
    succeeds whatever the seats left on its trip. *)
Theorem seat_check_only_on_creation (x : Ticket.t) (db : DB) (k : Z) :
  Ticket.pk x = Some k ->
  clean x db = (inr tt, db) /\
  (forall e db' errs msg,
      save x db = (inl e, db') -> e = ValidationError errs ->
      NonFieldError msg ∉ errs) /\
  (Ticket.adding x = false -> is_Some (Ticket.purchase_date x) ->
   fields_valid x db ->
   exists x' db', save x db = (inr x', db') /\ tickets db' !! k = Some x').
Proof.
  intros Hpk. split; [now apply (clean_persisted x db k)|]. split.
  - intros e db' errs msg Hsave -> Hin.
    destruct (save_cases x db) as [(e & He & Hnv)|Hok].
    + rewrite He in Hsave. injection Hsave as -> _. destruct Hnv.
    + destruct Hok as (base & pid & pa & p & _ & _ & _ & _ & Hs).
      rewrite Hs in Hsave. clear Hs.
      set (x2 := priced x base p) in *.
      assert (Hpk2 : Ticket.pk x2 = Some k) by (destruct x; assumption).
      pose proof (full_clean_eval x2 db) as Hfc.
      rewrite (clean_persisted x2 db k Hpk2) in Hfc. simpl in Hfc.
      destruct (clean_fields x2 db ++ validate_unique x2 db) as [|i l] eqn:E.
      * rewrite (bind_step _ _ _ _ _ Hfc) in Hsave.
        unfold super_save in Hsave. unfold_M. rewrite Hpk2 in Hsave.
        destruct (tickets db !! k); [|discriminate].
        destruct (Ticket.purchase_date x2); discriminate.
      * rewrite (bind_inl _ _ _ _ _ Hfc) in Hsave. injection Hsave as Herrs _.
        rewrite <- Herrs, <- E in Hin. apply elem_of_app in Hin as [Hin|Hin].
        -- apply clean_fields_fields in Hin as (f & c & [=]).
        -- apply validate_unique_fields in Hin as (f & c & [=]).
  - intros Hadd [d Hd] (base & p & Hb & Hp & Hcf).
    apply price_then_save in Hp as (base' & Hb' & Hs).
    assert (base' = base) as ->.
    { unfold resolves_base in *. destruct (base_price_set x); [congruence|].
      destruct Hb as (k1 & tr1 & Hk1 & Htr1 & ->).
      destruct Hb' as (k2 & tr2 & Hk2 & Htr2 & ->). congruence. }
    set (x2 := priced x base p) in *.
    assert (Hpk2 : Ticket.pk x2 = Some k) by (destruct x; assumption).
    assert (Hadd2 : Ticket.adding x2 = false) by (destruct x; assumption).
    assert (Hd2 : Ticket.purchase_date x2 = Some d) by (destruct x; assumption).
    assert (Hfc : full_clean x2 db = (inr tt, db)).
    { apply full_clean_pass; auto.
      - unfold validate_unique. now rewrite Hpk2, Hadd2.
      - now rewrite (clean_persisted x2 db k Hpk2). }
    rewrite (bind_step _ _ _ _ _ Hfc) in Hs.
    unfold super_save in Hs. unfold_M. rewrite Hpk2, Hd2 in Hs.
    destruct (tickets db !! k); eexists _, _; (split; [exact Hs|]);
      simpl; apply lookup_insert_eq.
Qed.

(** C5. A base price that is unset and a base price of zero are resolved
    alike, [save] and [price] cannot tell them apart, and both take the
    fare of the trip; a base price that is not zero is kept as it is.
    The price is computed from the base price so resolved, and a new
    ticket with valid fields and a seat left is saved with that base
    price and that price. *)
Theorem base_price_fallback :
  (forall x db z,
      Decimal.coef z = 0 ->
      save (Ticket.set_base_price (Some z) x) db =
        save (Ticket.set_base_price None x) db /\
      price (Ticket.set_base_price (Some z) x) db =
        price (Ticket.set_base_price None x) db) /\
  (forall x db x' db',
      save x db = (inr x', db') ->
      ((Ticket.base_price x = None \/
        exists z, Ticket.base_price x = Some z /\ Decimal.coef z = 0) ->
       exists k tr,
         Ticket.trip_id x = Some k /\ trips db !! k = Some tr /\
         Ticket.base_price x' = Some (Decimal.of_int (Trip.price tr))) /\
      (forall b, Ticket.base_price x = Some b -> Decimal.coef b <> 0 ->
                 Ticket.base_price x' = Some b) /\
      exists base pid pa,
        Ticket.base_price x' = Some base /\
        Ticket.passenger_id x = Some pid /\ passengers db !! pid = Some pa /\
        Decimal.round_ (raw_price base (calculate_discount (Passenger.age pa))) 2
          = Some (Ticket.paid_amount x')) /\
  (forall x db k tr pid pa,
      Ticket.trip_id x = Some k -> trips db !! k = Some tr ->
      Ticket.passenger_id x = Some pid -> passengers db !! pid = Some pa ->
      let price_from base :=
        (match Decimal.round_
                 (raw_price base (calculate_discount (Passenger.age pa))) 2 with
         | Some p => inr p
         | None => inl InvalidOperation
         end, db) in
      ((Ticket.base_price x = None \/
        exists z, Ticket.base_price x = Some z /\ Decimal.coef z = 0) ->
       price x db = price_from (Decimal.of_int (Trip.price tr))) /\
      (forall b, Ticket.base_price x = Some b -> Decimal.coef b <> 0 ->
                 price x db = price_from b)) /\
  (forall x db k tr,
      Ticket.pk x = None ->
      Ticket.trip_id x = Some k -> trips db !! k = Some tr ->
      sold_count k db < Trip.capacity tr -> fields_valid x db ->
      exists x' db' base pid pa,
        save x db = (inr x', db') /\
        Ticket.base_price x' = Some base /\
        ((Ticket.base_price x = None \/
          exists z, Ticket.base_price x = Some z /\ Decimal.coef z = 0) ->
         base = Decimal.of_int (Trip.price tr)) /\
        (forall b, Ticket.base_price x = Some b -> Decimal.coef b <> 0 ->
                   base = b) /\
        Ticket.passenger_id x = Some pid /\ passengers db !! pid = Some pa /\
        Decimal.round_ (raw_price base (calculate_discount (Passenger.age pa))) 2
          = Some (Ticket.paid_amount x')).
Proof.
  assert (Hfare : forall x db k tr,
    Ticket.trip_id x = Some k -> trips db !! k = Some tr ->
    (Ticket.base_price x = None \/
     exists z, Ticket.base_price x = Some z /\ Decimal.coef z = 0) ->
    forall base, resolves_base x db base ->
                 base = Decimal.of_int (Trip.price tr)).
  { intros x db k tr Hk Htr Hzero base Hb.
    unfold resolves_base, base_price_set in Hb.
    destruct Hzero as [Hnone|(z & Hz & Hzero)].
    - rewrite Hnone in Hb. destruct Hb as (k' & tr' & Hk' & Htr' & ->). congruence.
    - rewrite Hz in Hb. unfold Decimal.truthy in Hb. rewrite Hzero in Hb.
      destruct Hb as (k' & tr' & Hk' & Htr' & ->). congruence. }
  assert (Hkept : forall x db b,
    Ticket.base_price x = Some b -> Decimal.coef b <> 0 ->
    forall base, resolves_base x db base -> base = b).
  { intros x db b Hbp Hnz base Hb.
    unfold resolves_base, base_price_set in Hb. rewrite Hbp in Hb.
    unfold Decimal.truthy in Hb. apply Z.eqb_neq in Hnz. rewrite Hnz in Hb.
    cbn in Hb. congruence. }
  assert (Hres : forall x db k tr,
    Ticket.trip_id x = Some k -> trips db !! k = Some tr ->
    exists base, resolves_base x db base).
  { intros x db k tr Hk Htr. unfold resolves_base.
    destruct (base_price_set x) eqn:Hset.
    - unfold base_price_set in Hset.
      destruct (Ticket.base_price x) as [b|]; [eauto|discriminate].
    - eauto 6. }
  split; [|split; [|split]].
  - intros x db z Hz. split.
    + unfold save, base_price_set. cbn [Ticket.base_price Ticket.set_base_price].
      unfold Decimal.truthy. rewrite Hz. reflexivity.
    + unfold price. cbn [Ticket.base_price Ticket.set_base_price].
      unfold Decimal.truthy. rewrite Hz. reflexivity.
  - intros x db x' db' Hsave.
    apply save_inr in Hsave
      as (base & pid & pa & p & k & date & Hb & Hpid & Hpa & Hr & _ & _ & -> & _).
    rewrite base_price_stored, paid_amount_stored.
    unfold resolves_base, base_price_set in Hb. split; [|split].
    + intros [Hnone|(z & Hz & Hzero)].
      * rewrite Hnone in Hb. destruct Hb as (k' & tr & Hk & Htr & ->). eauto.
      * rewrite Hz in Hb. unfold Decimal.truthy in Hb.
        rewrite Hzero in Hb. destruct Hb as (k' & tr & Hk & Htr & ->). eauto.
    + intros b Hbp Hnz. rewrite Hbp in Hb. unfold Decimal.truthy in Hb.
      apply Z.eqb_neq in Hnz. rewrite Hnz in Hb. congruence.
    + exists base, pid, pa. auto.
  - intros x db k tr pid pa Hk Htr Hpid Hpa. cbv zeta.
    destruct (Hres x db k tr Hk Htr) as [base Hb].
    rewrite (price_eval x db base pid pa Hb Hpid Hpa). split.
    + intros Hzero. now rewrite (Hfare x db k tr Hk Htr Hzero base Hb).
    + intros b Hbp Hnz. now rewrite (Hkept x db b Hbp Hnz base Hb).
  - intros x db k tr Hpk Hk Htr Hseats Hvalid.
    destruct (save_creates x db k tr Hpk Hk Htr Hseats Hvalid) as (x' & db' & Hsave).
    pose proof Hsave as Hs.
    apply save_inr in Hs
      as (base & pid & pa & p & k0 & date & Hb & Hpid & Hpa & Hr & _ & _ & Hx' & _).
    exists x', db', base, pid, pa. split; [exact Hsave|].
    rewrite Hx', base_price_stored, paid_amount_stored.
    split; [reflexivity|]. split; [|split; [|auto]].
    + intros Hzero. exact (Hfare x db k tr Hk Htr Hzero base Hb).
    + intros b Hbp Hnz. exact (Hkept x db b Hbp Hnz base Hb).
Qed.

(** * Editing and deleting *)

Section Edits.

Lemma update_passenger_tickets k f db :
  tickets (update_passenger k f db).2 = tickets db.
Proof.
  unfold update_passenger. unfold_M. now destruct (passengers db !! k).
Qed.

Lemma update_trip_tickets k f db :
  tickets (update_trip k f db).2 = tickets db.
Proof.
  unfold update_trip. unfold_M. now destruct (trips db !! k).
Qed.

End Edits.

(** C4, as the code has it.  Editing a trip or a passenger leaves every
    ticket row as it is; but each later save of a persisted ticket
    computes the price again, from the base price resolved then and the
    age the passenger has then, and overwrites [paid_amount] in the row of
    that ticket (and in no other row). *)
Theorem paid_amount_after_creation :
  (forall db k f, tickets (update_passenger k f db).2 = tickets db) /\
  (forall db k f, tickets (update_trip k f db).2 = tickets db) /\
  (forall x db x' db' k,
      Ticket.pk x = Some k -> save x db = (inr x', db') ->
      tickets db' = <[k := x']> (tickets db) /\
      exists base pid pa,
        resolves_base x db base /\
        Ticket.passenger_id x = Some pid /\ passengers db !! pid = Some pa /\
        rounded_to_cents
          (Decimal.mul_exact
             (Decimal.mul_exact base (calculate_discount (Passenger.age pa)))
             (Dec 12 (-1)))
          (Ticket.paid_amount x')).
Proof.
  split; [intros; apply update_passenger_tickets|].
  split; [intros; apply update_trip_tickets|].
  intros x db x' db' k Hpk Hsave.
  apply save_inr in Hsave
    as (base & pid & pa & p & k' & date & Hb & Hpid & Hpa & Hr & Hcf & _ & -> & Hk & _ & ->).
  rewrite (Hk k Hpk). split; [reflexivity|].
  destruct (validated_price _ _ _ _ _ Hcf Hr) as [_ ->].
  exists base, pid, pa. repeat split; auto; apply rescale_rounded.
Qed.

(** The claim as the spec words it fails: the passenger who paid 120.00
    at 30 is edited to be 70, the ticket is saved again, and the row now
    holds 84.00. *)
Lemma paid_amount_recomputed_on_save :
  Ticket.paid_amount <$> tickets example_sold_out !! 0 = Some (Dec 12000 (-2)) /\
  Ticket.paid_amount <$> tickets example_resaved !! 0 = Some (Dec 8400 (-2)).
Proof. split; vm_compute; reflexivity. Qed.

(** C9. Deleting a passenger deletes exactly the tickets of that
    passenger.  Deleting a cashier deletes no ticket: the tickets the
    cashier sold lose their cashier reference and keep every other field,
    and the other tickets are untouched. *)
Theorem deletion_rules :
  (forall db k,
      is_Some (passengers db !! k) ->
      (delete_passenger k db).1 = inr true /\
      let db' := (delete_passenger k db).2 in
      passengers db' !! k = None /\
      forall k' x,
        tickets db' !! k' = Some x <->
        tickets db !! k' = Some x /\ Ticket.passenger_id x <> Some k) /\
  (forall db k,
      is_Some (cashiers db !! k) ->
      (delete_cashier k db).1 = inr true /\
      let db' := (delete_cashier k db).2 in
      cashiers db' !! k = None /\
      (forall k', tickets db' !! k' = None <-> tickets db !! k' = None) /\
      forall k' x,
        tickets db !! k' = Some x ->
        exists x',
          tickets db' !! k' = Some x' /\
          (Ticket.cashier_id x = Some k -> Ticket.cashier_id x' = None) /\
          (Ticket.cashier_id x <> Some k -> x' = x) /\
          Ticket.pk x' = Ticket.pk x /\
          Ticket.adding x' = Ticket.adding x /\
          Ticket.passenger_id x' = Ticket.passenger_id x /\
          Ticket.trip_id x' = Ticket.trip_id x /\
          Ticket.purchase_date x' = Ticket.purchase_date x /\
          Ticket.base_price x' = Ticket.base_price x /\
          Ticket.payment_method x' = Ticket.payment_method x /\
          Ticket.paid_amount x' = Ticket.paid_amount x).
Proof.
  split.
  - intros db k [p Hp]. unfold delete_passenger. unfold_M. rewrite Hp. simpl.
    split; [reflexivity|]. split; [apply lookup_delete_eq|].
    intros k' x. unfold on_delete, passenger_on_delete.
    rewrite map_lookup_filter_Some. reflexivity.
  - intros db k [c Hc]. unfold delete_cashier. unfold_M. rewrite Hc. simpl.
    split; [reflexivity|]. split; [apply lookup_delete_eq|].
    unfold on_delete, cashier_on_delete. split.
    + intros k'. rewrite lookup_fmap. destruct (tickets db !! k'); simpl; split;
        intros; congruence.
    + intros k' x Hx. rewrite lookup_fmap, Hx. simpl. eexists. split; [reflexivity|].
      destruct (decide (Ticket.cashier_id x = Some k)) as [Heq|Hne].
      * destruct x; simpl in *. repeat split; auto. intros []; assumption.
      * repeat split; auto. intros Heq. now destruct Hne.
Qed.

(** * The reports *)

Section Sums.
Import Decimal.

Lemma value_shift c n e :
  0 <= n ->
  (inject_Z (c * 10 ^ n) * Qpower 10 e == inject_Z c * Qpower 10 (n + e))%Q.
Proof.
  intros Hn. rewrite inject_Z_mult, (Zpower_Qpower 10 n Hn).
  rewrite Qpower_plus by discriminate.
  change (inject_Z 10) with 10%Q.
  symmetry. apply Qmult_assoc.
Qed.

Lemma value_add_exact a b :
  (value (add_exact a b) == value a + value b)%Q.
Proof.
  unfold value, add_exact. cbn [coef expo].
  set (e := Z.min (expo a) (expo b)).
  rewrite inject_Z_plus, Qmult_plus_distr_l.
  rewrite !value_shift by lia.
  replace (expo a - e + e) with (expo a) by lia.
  replace (expo b - e + e) with (expo b) by lia.
  reflexivity.
Qed.

Lemma value_foldl_add ds : forall d,
  (value (foldl add_exact d ds) == value d + Qsum (value <$> ds))%Q.
Proof.
  induction ds as [|a ds IH]; intros d; cbn [foldl].
  - change (Qsum (value <$> [])) with 0%Q. ring.
  - rewrite IH, value_add_exact.
    change (Qsum (value <$> a :: ds)) with (value a + Qsum (value <$> ds))%Q.
    ring.
Qed.

(** The exact [SUM] is NULL over no row and the arithmetic sum
    otherwise. *)
Lemma sum_exact_spec ds :
  match sum_exact ds with
  | None => ds = []
  | Some s => ds <> [] /\ (value s == Qsum (value <$> ds))%Q
  end.
Proof.
  destruct ds as [|d ds]; simpl; [reflexivity|].
  split; [discriminate|]. apply value_foldl_add.
Qed.

(** Exact addition is commutative and associative, representation
    included, so the exact [SUM] does not depend on the order of the
    rows. *)
Lemma add_exact_comm a b : add_exact a b = add_exact b a.
Proof.
  unfold add_exact. rewrite (Z.min_comm (expo b) (expo a)). f_equal.
  apply Z.add_comm.
Qed.

Lemma add_exact_assoc a b c :
  add_exact (add_exact a b) c = add_exact a (add_exact b c).
Proof.
  destruct a as [ca ea], b as [cb eb], c as [cc ec].
  unfold add_exact. cbn [coef expo].
  set (m1 := Z.min ea eb). set (m2 := Z.min eb ec).
  assert (Hm : Z.min m1 ec = Z.min ea m2) by (unfold m1, m2; lia).
  rewrite <- Hm. set (m := Z.min m1 ec). f_equal.
  rewrite !Z.mul_add_distr_r, <- !Z.mul_assoc.
  rewrite <- !Z.pow_add_r by (unfold m, m1, m2 in *; lia).
  replace (ea - m1 + (m1 - m)) with (ea - m) by lia.
  replace (eb - m1 + (m1 - m)) with (eb - m) by lia.
  replace (eb - m2 + (m2 - m)) with (eb - m) by lia.
  replace (ec - m2 + (m2 - m)) with (ec - m) by lia.
  lia.
Qed.

Lemma foldl_add_exact_perm ds ds' :
  ds ≡ₚ ds' -> forall d, foldl add_exact d ds = foldl add_exact d ds'.
Proof.
  induction 1 as [|x l l' _ IH|x y l|l1 l2 l3 _ IH1 _ IH2]; intros d;
    cbn [foldl].
  - reflexivity.
  - apply IH.
  - f_equal. rewrite !add_exact_assoc. f_equal. apply add_exact_comm.
  - now rewrite IH1.
Qed.

Lemma foldl_add_exact_head d x ds :
  foldl add_exact d (x :: ds) = foldl add_exact x (d :: ds).
Proof. cbn [foldl]. f_equal. apply add_exact_comm. Qed.

Lemma sum_exact_perm ds ds' : ds ≡ₚ ds' -> sum_exact ds = sum_exact ds'.
Proof.
  induction 1 as [|x l l' Hp _|x y l|l1 l2 l3 _ IH1 _ IH2].
  - reflexivity.
  - cbn [sum_exact]. f_equal. now apply foldl_add_exact_perm.
  - cbn [sum_exact]. f_equal. apply foldl_add_exact_head.
  - now rewrite IH1.
Qed.

Lemma Qsum_perm (l1 l2 : list Q) : l1 ≡ₚ l2 -> (Qsum l1 == Qsum l2)%Q.
Proof.
  induction 1 as [|x l1 l2 _ IH|x y l|l1 l2 l3 _ IH1 _ IH2].
  - reflexivity.
  - change (x + Qsum l1 == x + Qsum l2)%Q. now rewrite IH.
  - change (y + (x + Qsum l) == x + (y + Qsum l))%Q. ring.
  - now rewrite IH1.
Qed.

Lemma sqlite_sum_null ds s : sqlite_sum ds = Some s -> (s = None <-> ds = []).
Proof.
  destruct ds as [|d ds].
  - intros [= <-]. tauto.
  - unfold sqlite_sum. intros H. split; [|discriminate]. intros ->.
    destruct (sum_finalize _) as [v|]; [|discriminate].
    cbn in H. destruct (create_decimal v); discriminate.
Qed.

(** On every engine [SUM] is NULL over no row, and only then. *)
Lemma sql_sum_null be ds s : sql_sum be ds s -> (s = None <-> ds = []).
Proof.
  unfold sql_sum. destruct (sum_arithmetic be).
  - intros ->. pose proof (sum_exact_spec ds) as H.
    destruct (sum_exact ds); [|tauto].
    split; [discriminate|]. intros ->. now destruct H.
  - intros (ds' & Hp & Hs). apply sqlite_sum_null in Hs. rewrite Hs.
    apply Permutation_length in Hp.
    split; intros ->; [destruct ds|destruct ds']; (reflexivity || discriminate).
Qed.

Lemma sql_sum_some be ds s : sql_sum be ds s -> ds <> [] -> is_Some s.
Proof.
  intros Hs Hne. apply sql_sum_null in Hs.
  destruct s; [eauto|]. destruct Hne. now apply Hs.
Qed.

(** Where the engine adds decimals exactly, [SUM] is the arithmetic
    sum. *)
Lemma sql_sum_exact be ds s :
  sum_arithmetic be = ExactNumeric -> sql_sum be ds (Some s) ->
  (value s == Qsum (value <$> ds))%Q.
Proof.
  unfold sql_sum. intros -> H. pose proof (sum_exact_spec ds) as Hs.
  rewrite <- H in Hs. tauto.
Qed.

Lemma sql_sum_fun be ds s s' :
  sum_arithmetic be = ExactNumeric ->
  sql_sum be ds s -> sql_sum be ds s' -> s = s'.
Proof. unfold sql_sum. intros ->. congruence. Qed.

Lemma sql_sum_backend be be' ds s :
  sum_arithmetic be' = sum_arithmetic be -> sql_sum be ds s -> sql_sum be' ds s.
Proof. unfold sql_sum. now intros ->. Qed.

Lemma sum_in_order_exact be ds :
  sum_arithmetic be = ExactNumeric -> sum_in_order be ds = Some (sum_exact ds).
Proof. unfold sum_in_order. now intros ->. Qed.

(** A value of [SUM] over the rows met in some order is a value of
    [SUM]. *)
Lemma sql_sum_perm be ds ds' s :
  ds' ≡ₚ ds -> sum_in_order be ds' = Some s -> sql_sum be ds s.
Proof.
  unfold sum_in_order, sql_sum. intros Hp. destruct (sum_arithmetic be).
  - intros [= <-]. now apply sum_exact_perm.
  - intros H. now exists ds'.
Qed.

Lemma sum_in_order_sql_sum be ds s :
  sum_in_order be ds = Some s -> sql_sum be ds s.
Proof.
  unfold sum_in_order, sql_sum. destruct (sum_arithmetic be).
  - now intros [= <-].
  - intros H. exists ds. split; [reflexivity|exact H].
Qed.

(** Rows computed one for each key. *)
Lemma rows_of_l {A B} (R : A -> B -> Prop) l rows a :
  Forall2 R l rows -> a ∈ l -> exists b, b ∈ rows /\ R a b.
Proof.
  induction 1 as [|x y l rows Hxy _ IH]; intros Hin.
  - now apply not_elem_of_nil in Hin.
  - apply elem_of_cons in Hin as [->|Hin].
    + exists y. split; [apply list_elem_of_here|exact Hxy].
    + destruct (IH Hin) as (b & Hb & Hab). exists b.
      split; [now apply list_elem_of_further|exact Hab].
Qed.

Lemma rows_of_r {A B} (R : A -> B -> Prop) l rows b :
  Forall2 R l rows -> b ∈ rows -> exists a, a ∈ l /\ R a b.
Proof.
  induction 1 as [|x y l rows Hxy _ IH]; intros Hin.
  - now apply not_elem_of_nil in Hin.
  - apply elem_of_cons in Hin as [->|Hin].
    + exists x. split; [apply list_elem_of_here|exact Hxy].
    + destruct (IH Hin) as (a & Ha & Hab). exists a.
      split; [now apply list_elem_of_further|exact Hab].
Qed.

Lemma rows_fmap {A B C} (R : A -> B -> Prop) (f : B -> C) (g : A -> C) l rows :
  Forall2 R l rows -> (forall a b, R a b -> f b = g a) -> f <$> rows = g <$> l.
Proof.
  intros H Hfg. induction H as [|x y l rows Hxy _ IH]; [reflexivity|].
  rewrite !fmap_cons, IH. f_equal. now apply Hfg.
Qed.

Lemma rows_Qsum {A B} (R : A -> B -> Prop) (f : B -> Q) (g : A -> Q) l rows :
  Forall2 R l rows -> (forall a b, R a b -> (f b == g a)%Q) ->
  (Qsum (f <$> rows) == Qsum (g <$> l))%Q.
Proof.
  intros H Hfg. induction H as [|x y l rows Hxy _ IH]; [reflexivity|].
  rewrite !fmap_cons.
  change (f y + Qsum (f <$> rows) == g x + Qsum (g <$> l))%Q.
  now rewrite IH, (Hfg x y Hxy).
Qed.

Lemma rows_fun {A B} (R : A -> B -> Prop) l rows rows' :
  (forall a b b', R a b -> R a b' -> b = b') ->
  Forall2 R l rows -> Forall2 R l rows' -> rows = rows'.
Proof.
  intros Hfun H. revert rows'.
  induction H as [|x y l rows Hxy _ IH]; intros rows' H';
    inversion H' as [|x' y' l' rows'' Hxy' Hrest]; subst; [reflexivity|].
  f_equal; [now apply (Hfun x)|now apply IH].
Qed.

Lemma mapM_rows {A B} (f : A -> option B) (R : A -> B -> Prop) l rows :
  mapM f l = Some rows -> (forall a b, f a = Some b -> R a b) ->
  Forall2 R l rows.
Proof.
  intros H HR. apply mapM_Some in H.
  eapply Forall2_impl; [exact H|]. exact HR.
Qed.

(** The rows behind a reverse manager are the rows of the table whose
    foreign key is the given one. *)
Lemma elem_of_related_tickets fk k db x :
  x ∈ related_tickets fk k db <->
  (exists kx, tickets db !! kx = Some x) /\ fk x = Some k.
Proof.
  unfold related_tickets. rewrite list_elem_of_filter, list_elem_of_fmap.
  split.
  - intros [Hfk ([kx y] & -> & Hin)]. apply elem_of_map_to_list in Hin. eauto.
  - intros [[kx Hx] Hfk]. split; [exact Hfk|].
    exists (kx, x). split; [reflexivity|]. now apply elem_of_map_to_list.
Qed.

Lemma length_related_tickets fk k db :
  length (related_tickets fk k db) =
  size (filter (fun kx : Z * Ticket.t => fk kx.2 = Some k) (tickets db)).
Proof.
  unfold related_tickets.
  rewrite map_filter_alt, map_size_list_to_map.
  - generalize (map_to_list (tickets db)). intros l.
    induction l as [|[kx x] l IH]; [reflexivity|].
    rewrite fmap_cons, !filter_cons. cbn [snd].
    destruct (decide (fk x = Some k)); simpl; now rewrite IH.
  - apply NoDup_fmap_fst.
    + intros i x y [_ Hx]%list_elem_of_filter [_ Hy]%list_elem_of_filter.
      apply elem_of_map_to_list in Hx, Hy. congruence.
    + apply NoDup_filter, NoDup_map_to_list.
Qed.

End Sums.

Section Ordering.

Lemma desc_before_trans {K} (le : K -> K -> Prop) nb :
  Transitive le -> Transitive (desc_before le nb).
Proof.
  intros Htr [x|] [y|] [z|]; simpl; intros H1 H2; try congruence; auto.
  exact (Htr _ _ _ H2 H1).
Qed.

Lemma desc_before_total {K} (le : K -> K -> Prop) nb :
  Total le -> Total (desc_before le nb).
Proof.
  intros Htot [x|] [y|]; simpl; auto; destruct nb; auto.
Qed.

#[global] Instance decimal_le_trans : Transitive Decimal.le.
Proof. intros a b c. unfold Decimal.le. apply Qle_trans. Qed.

#[global] Instance decimal_le_total : Total Decimal.le.
Proof.
  intros a b. unfold Decimal.le.
  destruct (Qlt_le_dec (Decimal.value b) (Decimal.value a)) as [Hlt|Hle].
  - right. now apply Qlt_le_weak.
  - left. exact Hle.
Qed.

#[global] Instance revenue_before_trans be : Transitive (revenue_before be).
Proof.
  intros a b c. unfold revenue_before.
  apply (desc_before_trans Decimal.le _ _).
Qed.

#[global] Instance revenue_before_total be : Total (revenue_before be).
Proof.
  intros a b. unfold revenue_before.
  apply (desc_before_total Decimal.le _ _).
Qed.

#[global] Instance spent_before_trans be : Transitive (spent_before be).
Proof.
  intros a b c. unfold spent_before.
  apply (desc_before_trans Decimal.le _ _).
Qed.

#[global] Instance spent_before_total be : Total (spent_before be).
Proof.
  intros a b. unfold spent_before.
  apply (desc_before_total Decimal.le _ _).
Qed.

(** What any answer to [ORDER BY] has: the same rows, each as often,
    and every row before the rows that follow it. *)
Lemma order_by_sorted {A} (R : A -> A -> Prop) `{!Transitive R} rows out :
  order_by R rows out ->
  StronglySorted R out /\ length out = length rows /\
  (forall r, r ∈ out <-> r ∈ rows).
Proof.
  intros [Hperm Hsorted]. split; [now apply Sorted_StronglySorted|].
  split; [now rewrite Hperm|]. intros r. now rewrite Hperm.
Qed.

(** The merge sort of the rows is an answer. *)
Lemma order_by_merge_sort {A} (R : A -> A -> Prop)
    `{!forall x y, Decision (R x y)} `{!Total R} rows :
  order_by R rows (merge_sort R rows).
Proof.
  split; [symmetry; apply merge_sort_Permutation|apply Sorted_merge_sort; auto].
Qed.

Lemma run_revenue_by_trip_ok be db out :
  run_revenue_by_trip be db = Some out -> revenue_by_trip be db out.
Proof.
  unfold run_revenue_by_trip. intros H.
  destruct (mapM _ _) as [rows|] eqn:Hm; [|discriminate].
  injection H as <-. exists rows. split.
  - apply (mapM_rows _ _ _ _ Hm). intros kt r Hr. unfold run_revenue_row in Hr.
    destruct (sum_in_order _ _) as [s|] eqn:Hs; [|discriminate].
    injection Hr as <-. repeat split. now apply sum_in_order_sql_sum.
  - apply order_by_merge_sort; apply _.
Qed.

Lemma mapM_total {A B} (f : A -> option B) l :
  (forall a, is_Some (f a)) -> is_Some (mapM f l).
Proof. intros H. apply mapM_is_Some, Forall_forall. intros a _. apply H. Qed.

(** Where the engine adds exactly, the queries have an answer. *)
Lemma revenue_by_trip_answers be db :
  sum_arithmetic be = ExactNumeric -> exists out, revenue_by_trip be db out.
Proof.
  intros Hex.
  destruct (mapM_total (run_revenue_row be db) (map_to_list (trips db)))
    as [rows Hm].
  { intros kt. unfold run_revenue_row.
    rewrite (sum_in_order_exact _ _ Hex). cbn. eauto. }
  eexists. apply run_revenue_by_trip_ok. unfold run_revenue_by_trip.
  rewrite Hm. reflexivity.
Qed.

Lemma run_top_passengers_ok be db out :
  run_top_passengers be db = Some out -> top_passengers be db out.
Proof.
  unfold run_top_passengers. intros H.
  destruct (mapM _ _) as [rows|] eqn:Hm; [|discriminate].
  injection H as <-. eexists rows, _. split; [|split; [|reflexivity]].
  - apply (mapM_rows _ _ _ _ Hm). intros kp r Hr. unfold run_passenger_row in Hr.
    destruct (sum_in_order _ _) as [s|] eqn:Hs; [|discriminate].
    injection Hr as <-. repeat split. now apply sum_in_order_sql_sum.
  - apply order_by_merge_sort; apply _.
Qed.

Lemma top_passengers_answers be db :
  sum_arithmetic be = ExactNumeric -> exists out, top_passengers be db out.
Proof.
  intros Hex.
  destruct (mapM_total (run_passenger_row be db) (map_to_list (passengers db)))
    as [rows Hm].
  { intros kp. unfold run_passenger_row.
    rewrite (sum_in_order_exact _ _ Hex). cbn. eauto. }
  eexists. apply run_top_passengers_ok. unfold run_top_passengers.
  rewrite Hm. reflexivity.
Qed.

End Ordering.

(** C6, as the code has it.  The revenue report has one row for every
    trip; the row counts the tickets of the trip and carries the [SUM]
    the database computes over their [paid_amount] (those tickets and no
    others; NULL exactly when the trip has no ticket, and the row is
    there all the same); the rows are in descending order of revenue,
    the NULLs standing where the database engine sorts them.  Where the
    engine adds decimals exactly, that [SUM] is the arithmetic sum. *)
Theorem revenue_by_trip_report (be : Backend) (db : DB) :
  (sum_arithmetic be = ExactNumeric -> exists out, revenue_by_trip be db out) /\
  forall out, revenue_by_trip be db out ->
  (fun r => (rr_id r, rr_trip r)) <$> out ≡ₚ map_to_list (trips db) /\
  (forall k tr, trips db !! k = Some tr ->
                exists r, r ∈ out /\ rr_id r = k /\ rr_trip r = tr) /\
  (forall r, r ∈ out ->
     trips db !! rr_id r = Some (rr_trip r) /\
     let ts := related_tickets Ticket.trip_id (rr_id r) db in
     (forall x, x ∈ ts <->
        (exists kx, tickets db !! kx = Some x) /\ Ticket.trip_id x = Some (rr_id r)) /\
     length ts =
       size (filter (fun kx : Z * Ticket.t => Ticket.trip_id kx.2 = Some (rr_id r))
               (tickets db)) /\
     tickets_sold r = Z.of_nat (length ts) /\
     sql_sum be (Ticket.paid_amount <$> ts) (total_revenue r) /\
     (total_revenue r = None <-> ts = []) /\
     (sum_arithmetic be = ExactNumeric ->
      forall s, total_revenue r = Some s ->
        (Decimal.value s == Qsum (Decimal.value ∘ Ticket.paid_amount <$> ts))%Q)) /\
  StronglySorted (revenue_before be) out.
Proof.
  split; [apply revenue_by_trip_answers|].
  intros out (rows & Hrows & Hq). pose proof Hq as [Hperm _].
  apply order_by_sorted in Hq as (Hsorted & _ & Hmem); [|apply _].
  split; [|split; [|split]].
  - rewrite <- Hperm.
    rewrite (rows_fmap _ (fun r => (rr_id r, rr_trip r)) id _ _ Hrows).
    + now rewrite list_fmap_id.
    + intros [k tr] r (H1 & H2 & _). cbn [fst snd] in *. now rewrite H1, H2.
  - intros k tr Hk.
    destruct (rows_of_l _ _ _ (k, tr) Hrows) as (r & Hr & H1 & H2 & _).
    { now apply elem_of_map_to_list. }
    exists r. split; [now apply Hmem|]. split; assumption.
  - intros r Hr. apply Hmem in Hr.
    destruct (rows_of_r _ _ _ r Hrows Hr) as ([k tr] & Hin & H1 & H2 & Hsum & Hcount).
    cbn [fst snd] in *. rewrite H1, H2.
    apply elem_of_map_to_list in Hin. split; [exact Hin|]. cbv zeta.
    split; [intros x; apply elem_of_related_tickets|].
    split; [apply length_related_tickets|].
    split; [exact Hcount|]. split; [exact Hsum|]. split.
    + rewrite (sql_sum_null _ _ _ Hsum).
      split; [apply fmap_nil_inv|now intros ->].
    + intros Hex s Hs. rewrite Hs in Hsum.
      rewrite (sql_sum_exact _ _ _ Hex Hsum). now rewrite list_fmap_compose.
  - exact Hsorted.
Qed.

Lemma revenue_by_trip_report_witness :
  (exists out r,
     run_revenue_by_trip lenient_backend example_report_db = Some out /\
     r ∈ out /\ rr_id r = 2 /\ total_revenue r = None) /\
  (exists out,
     revenue_by_trip strict_backend example_report_db out /\
     forall r s, r ∈ out -> total_revenue r = Some s ->
       (Decimal.value s ==
        Qsum (Decimal.value ∘ Ticket.paid_amount <$>
              related_tickets Ticket.trip_id (rr_id r) example_report_db))%Q).
Proof.
  split.
  2:{ destruct (proj1 (revenue_by_trip_report strict_backend example_report_db)
                  eq_refl) as [out Hout].
      exists out. split; [exact Hout|]. intros r s Hr Hs.
      destruct (proj2 (revenue_by_trip_report strict_backend example_report_db)
                  out Hout) as (_ & _ & Hrows & _).
      destruct (Hrows r Hr) as (_ & _ & _ & _ & _ & _ & Hexact).
      exact (Hexact eq_refl s Hs). }
  assert (Hrun : exists out,
            run_revenue_by_trip lenient_backend example_report_db = Some out)
    by (eexists; vm_compute; reflexivity).
  destruct Hrun as [out Hrun].
  destruct (proj2 (revenue_by_trip_report lenient_backend example_report_db) out
              (run_revenue_by_trip_ok _ _ _ Hrun))
    as (_ & Hall & Hrows & _).
  destruct (Hall 2 (Trip.set_capacity 0 example_trip) eq_refl) as (r & Hr & Hid & Htr).
  exists out, r. split; [exact Hrun|]. split; [exact Hr|]. split; [exact Hid|].
  destruct (Hrows r Hr) as (_ & _ & _ & _ & _ & Hnull & _).
  apply Hnull. rewrite Hid. reflexivity.
Defined.

(** The claim as the spec words it fails on SQLite.  The trip has
    fifteen tickets of 64.68, each the price [save] computes for it;
    their arithmetic sum is 970.20, and the revenue of the one row of
    every answer is 970.200000000001. *)
Lemma revenue_sum_in_binary64 :
  revenue_by_trip lenient_backend example_float_db [float_revenue_row] /\
  (forall out, revenue_by_trip lenient_backend example_float_db out ->
               out = [float_revenue_row]) /\
  (fun x => (price x example_float_db).1) <$>
    related_tickets Ticket.trip_id 1 example_float_db
  = replicate 15 (inr (Dec 6468 (-2))) /\
  (Qsum (Decimal.value ∘ Ticket.paid_amount <$>
         related_tickets Ticket.trip_id 1 example_float_db) == 97020 # 100)%Q /\
  ~ (Decimal.value (Dec 970200000000001 (-12)) == 97020 # 100)%Q.
Proof.
  assert (Hamounts :
    Ticket.paid_amount <$> related_tickets Ticket.trip_id 1 example_float_db
    = replicate 15 (Dec 6468 (-2))) by (vm_compute; reflexivity).
  assert (Hsum : forall s,
    sql_sum lenient_backend
      (Ticket.paid_amount <$> related_tickets Ticket.trip_id 1 example_float_db) s ->
    s = Some (Dec 970200000000001 (-12))).
  { intros s (ds' & Hp & Hs). rewrite Hamounts in Hp. symmetry in Hp.
    apply replicate_Permutation in Hp. rewrite <- Hp in Hs.
    vm_compute in Hs. congruence. }
  split; [|split; [|split; [|split]]].
  - apply run_revenue_by_trip_ok. vm_compute. reflexivity.
  - intros out (rows & Hrows & Hperm & _).
    assert (Htrips : map_to_list (trips example_float_db)
                     = [(1, Trip.set_capacity 20 example_trip)])
      by (vm_compute; reflexivity).
    rewrite Htrips in Hrows.
    inversion Hrows as [|kt r l rows' Hr Hnil]; subst.
    inversion Hnil; subst. apply Permutation_singleton_l in Hperm as <-.
    destruct Hr as (H1 & H2 & Hs & Hc). cbn [fst snd] in *.
    apply Hsum in Hs. destruct r as [id tr total sold].
    cbn in H1, H2, Hs, Hc. subst. f_equal.
  - vm_compute. reflexivity.
  - vm_compute. reflexivity.
  - intros H. vm_compute in H. discriminate.
Qed.

(** C7, as the code has it.  The report of the top passengers has at most
    10 rows; every row is a passenger with at least one ticket, with the
    count of those tickets and the [SUM] the database computes over their
    [paid_amount] (their arithmetic sum where the engine adds decimals
    exactly); the rows are in descending order of [total_spent]; and a
    passenger with tickets who is left out spent no more than any
    passenger listed.  The order of passengers who spent the same is not
    settled by the query. *)
Theorem top_passengers_report (be : Backend) (db : DB) :
  (sum_arithmetic be = ExactNumeric -> exists out, top_passengers be db out) /\
  forall out, top_passengers be db out ->
  (length out <= 10)%nat /\
  (forall r, r ∈ out ->
     passengers db !! pr_id r = Some (pr_passenger r) /\
     let ts := related_tickets Ticket.passenger_id (pr_id r) db in
     ts <> [] /\ trips_count r = Z.of_nat (length ts) /\
     exists s, total_spent r = Some s /\
       sql_sum be (Ticket.paid_amount <$> ts) (Some s) /\
       (sum_arithmetic be = ExactNumeric ->
        (Decimal.value s == Qsum (Decimal.value ∘ Ticket.paid_amount <$> ts))%Q)) /\
  StronglySorted (spent_before be) out /\
  (forall k p,
     passengers db !! k = Some p ->
     related_tickets Ticket.passenger_id k db <> [] ->
     exists rk,
       passenger_row be db (k, p) rk /\
       (rk ∈ out \/
        (length out = 10%nat /\ forall r, r ∈ out -> spent_before be r rk))).
Proof.
  split; [apply top_passengers_answers|].
  intros out (rows & sorted & Hrows & Hq & ->).
  apply order_by_sorted in Hq as (Hsorted & _ & Hmem); [|apply _].
  assert (Hsplit : StronglySorted (spent_before be) (take 10 sorted ++ drop 10 sorted))
    by now rewrite take_drop.
  split; [|split; [|split]].
  - rewrite length_take. lia.
  - intros r Hr.
    assert (Hin : r ∈ sorted).
    { rewrite <- (take_drop 10 sorted). apply elem_of_app. now left. }
    apply Hmem, list_elem_of_filter in Hin as [[s Hs] Hin].
    destruct (rows_of_r _ _ _ r Hrows Hin) as ([k p] & Hkp & H1 & H2 & Hsum & Hcount).
    cbn [fst snd] in *. rewrite H1, H2.
    apply elem_of_map_to_list in Hkp. split; [exact Hkp|]. cbv zeta.
    rewrite Hs in Hsum. split; [|split; [exact Hcount|]].
    + intros Hnil. rewrite Hnil in Hsum. apply sql_sum_null in Hsum.
      now destruct Hsum as [_ Hsum]; specialize (Hsum eq_refl).
    + exists s. split; [exact Hs|]. split; [exact Hsum|]. intros Hex.
      rewrite (sql_sum_exact _ _ _ Hex Hsum). now rewrite list_fmap_compose.
  - now apply StronglySorted_app_1_l in Hsplit.
  - intros k p Hp Hne.
    destruct (rows_of_l _ _ _ (k, p) Hrows) as (rk & Hrk & Hrow).
    { now apply elem_of_map_to_list. }
    exists rk. split; [exact Hrow|].
    assert (Hin : rk ∈ sorted).
    { apply Hmem, list_elem_of_filter. split; [|exact Hrk].
      destruct Hrow as (_ & _ & Hsum & _).
      apply (sql_sum_some _ _ _ Hsum). cbn [fst].
      intros Hnil. apply fmap_nil_inv in Hnil. now destruct Hne. }
    rewrite <- (take_drop 10 sorted) in Hin. apply elem_of_app in Hin as [Hin|Hin].
    + now left.
    + right. split.
      * apply length_take_le.
        destruct (decide (10 <= length sorted)%nat) as [Hle|Hgt]; [exact Hle|].
        rewrite drop_ge in Hin by lia. now apply not_elem_of_nil in Hin.
      * intros r Hr. exact (StronglySorted_app_1_elem_of _ _ _ _ _ Hsplit Hr Hin).
Qed.

Lemma top_passengers_report_witness :
  (exists out,
     run_top_passengers lenient_backend example_report_db = Some out /\
     (length out <= 10)%nat /\
     forall r, r ∈ out ->
               related_tickets Ticket.passenger_id (pr_id r) example_report_db <> []) /\
  (exists out, top_passengers strict_backend example_report_db out).
Proof.
  split;
    [|exact (proj1 (top_passengers_report strict_backend example_report_db) eq_refl)].
  assert (Hrun : exists out,
            run_top_passengers lenient_backend example_report_db = Some out)
    by (eexists; vm_compute; reflexivity).
  destruct Hrun as [out Hrun].
  destruct (proj2 (top_passengers_report lenient_backend example_report_db) out
              (run_top_passengers_ok _ _ _ Hrun))
    as (Hlen & Hrows & _).
  exists out. split; [exact Hrun|]. split; [exact Hlen|].
  intros r Hr. now destruct (Hrows r Hr) as (_ & Hne & _).
Defined.

(** The claim as the spec words it fails: on the store of the example
    the two passengers spent the same, and the query may answer with
    either of them first, on PostgreSQL and on SQLite alike. *)
Lemma top_passengers_tie_order :
  (top_passengers strict_backend example_report_db tie_order_a /\
   top_passengers strict_backend example_report_db tie_order_b /\
   tie_order_a <> tie_order_b) /\
  (top_passengers lenient_backend example_report_db sqlite_tie_order_a /\
   top_passengers lenient_backend example_report_db sqlite_tie_order_b /\
   sqlite_tie_order_a <> sqlite_tie_order_b).
Proof.
  assert (Hall : forall be rows,
    mapM (run_passenger_row be example_report_db)
      (map_to_list (passengers example_report_db)) = Some rows ->
    Forall2 (passenger_row be example_report_db)
      (map_to_list (passengers example_report_db)) rows).
  { intros be rows Hm. apply (mapM_rows _ _ _ _ Hm). intros kp r Hr.
    unfold run_passenger_row in Hr.
    destruct (sum_in_order _ _) as [s|] eqn:Hs; [|discriminate].
    injection Hr as <-. repeat split. now apply sum_in_order_sql_sum. }
  split.
  - assert (Hrows : exists rows,
      mapM (run_passenger_row strict_backend example_report_db)
        (map_to_list (passengers example_report_db)) = Some rows /\
      filter (fun r => is_Some (total_spent r)) rows = tie_order_b).
    { eexists. split; vm_compute; reflexivity. }
    destruct Hrows as (rows & Hm & Hfilter).
    assert (Hle : Decimal.le (Dec 12000 (-2)) (Dec 12000 (-2))).
    { unfold Decimal.le. apply Qle_refl. }
    split; [|split].
    + exists rows, tie_order_a. split; [now apply Hall|]. split; [|reflexivity].
      split; [rewrite Hfilter; apply perm_swap|repeat constructor; exact Hle].
    + exists rows, tie_order_b. split; [now apply Hall|]. split; [|reflexivity].
      split; [now rewrite Hfilter|repeat constructor; exact Hle].
    + intros H. apply (f_equal (fmap pr_id)) in H. discriminate H.
  - assert (Hrows : exists rows,
      mapM (run_passenger_row lenient_backend example_report_db)
        (map_to_list (passengers example_report_db)) = Some rows /\
      filter (fun r => is_Some (total_spent r)) rows = sqlite_tie_order_b).
    { eexists. split; vm_compute; reflexivity. }
    destruct Hrows as (rows & Hm & Hfilter).
    assert (Hle : Decimal.le (Dec 120 0) (Dec 120 0)).
    { unfold Decimal.le. apply Qle_refl. }
    split; [|split].
    + exists rows, sqlite_tie_order_a. split; [now apply Hall|].
      split; [|reflexivity].
      split; [rewrite Hfilter; apply perm_swap|repeat constructor; exact Hle].
    + exists rows, sqlite_tie_order_b. split; [now apply Hall|].
      split; [|reflexivity].
      split; [now rewrite Hfilter|repeat constructor; exact Hle].
    + intros H. apply (f_equal (fmap pr_id)) in H. discriminate H.
Qed.

Section Occupancy.

Lemma collect_rows_fmap {A B} (f : A -> Exn + B) (g : A -> B) l :
  (forall a, a ∈ l -> f a = inr (g a)) -> collect_rows f l = inr (g <$> l).
Proof.
  induction l as [|a l IH]; intros Hf; [reflexivity|].
  cbn [collect_rows]. rewrite (Hf a) by apply list_elem_of_here.
  rewrite IH; [reflexivity|]. intros b Hb. apply Hf. now apply list_elem_of_further.
Qed.

Lemma collect_rows_inl {A B} (f : A -> Exn + B) l a e :
  a ∈ l -> f a = inl e -> (forall b e', f b = inl e' -> e' = e) ->
  collect_rows f l = inl e.
Proof.
  intros Hin Ha Hsame. induction l as [|b l IH]; [now apply not_elem_of_nil in Hin|].
  cbn [collect_rows]. destruct (f b) as [e'|y] eqn:Hb.
  - now rewrite (Hsame b e' Hb).
  - apply elem_of_cons in Hin as [->|Hin]; [congruence|].
    now rewrite (IH Hin).
Qed.

Lemma occupancy_row_defined be db kt :
  division_by_zero be = YieldsNull \/ Trip.capacity kt.2 <> 0 ->
  occupancy_row be db kt = inr (occupancy_row_of db kt).
Proof.
  unfold occupancy_row, occupancy_row_of, occupancy_rate_of.
  destruct (Z.eqb_spec (Trip.capacity kt.2) 0) as [Hz|Hnz]; [|reflexivity].
  intros [->|Hne]; [reflexivity|]. now destruct Hne.
Qed.

Lemma occupancy_row_error be db kt e :
  occupancy_row be db kt = inl e -> e = DataError "division by zero".
Proof.
  unfold occupancy_row, occupancy_rate_of.
  destruct (Trip.capacity kt.2 =? 0); [|discriminate].
  destruct (division_by_zero be); [|discriminate]. now intros [= <-].
Qed.

Lemma example_occupancy_answer :
  trip_occupancy lenient_backend example_report_db (inr example_occupancy_rows).
Proof.
  unfold trip_occupancy.
  assert (Hrows :
    collect_rows (occupancy_row lenient_backend example_report_db)
      (map_to_list (trips example_report_db))
    = inr (rev example_occupancy_rows)) by (vm_compute; reflexivity).
  rewrite Hrows. exists example_occupancy_rows. split; [reflexivity|]. split.
  - apply perm_swap.
  - repeat constructor.
Qed.

End Occupancy.

(** C8, as the code has it.  For every trip the report computes
    [tickets sold * 100.0 / capacity] in binary64 and orders the rows by
    descending rate, as long as no capacity is zero.  Nothing in the
    query guards the division: for a trip of capacity zero the outcome is
    what the database engine does with a division by zero, an error for
    the whole report or a NULL rate in the row of that trip. *)
Theorem trip_occupancy_report (be : Backend) (db : DB)
    (res : Exn + list OccupancyRow) :
  trip_occupancy be db res ->
  ((forall k tr, trips db !! k = Some tr -> Trip.capacity tr <> 0) ->
   exists out,
     res = inr out /\
     (fun r => (or_id r, or_trip r)) <$> out ≡ₚ map_to_list (trips db) /\
     (forall r, r ∈ out ->
        or_sold_count r = sold_count (or_id r) db /\
        occupancy_rate r =
          Some (occupancy_formula (or_sold_count r) (Trip.capacity (or_trip r)))) /\
     Sorted (occupancy_before be) out) /\
  (forall k tr,
     trips db !! k = Some tr -> Trip.capacity tr = 0 ->
     match division_by_zero be with
     | RaisesError => res = inl (DataError "division by zero")
     | YieldsNull =>
         exists out r,
           res = inr out /\ r ∈ out /\ or_id r = k /\ occupancy_rate r = None
     end).
Proof.
  unfold trip_occupancy. intros Hq. split.
  - intros Hcap.
    rewrite (collect_rows_fmap _ (occupancy_row_of db)) in Hq.
    2:{ intros [k tr] Hin. apply occupancy_row_defined. right.
        apply elem_of_map_to_list in Hin. exact (Hcap k tr Hin). }
    destruct Hq as (out & -> & Hperm & Hsorted). exists out.
    split; [reflexivity|]. split; [|split; [|exact Hsorted]].
    + rewrite <- Hperm, <- list_fmap_compose.
      rewrite (list_fmap_ext _ id); [now rewrite list_fmap_id|].
      now intros i [k tr] _.
    + intros r Hr. rewrite <- Hperm in Hr.
      apply list_elem_of_fmap in Hr as ([k tr] & -> & Hin).
      apply elem_of_map_to_list in Hin. specialize (Hcap k tr Hin).
      unfold occupancy_row_of. cbn [or_id or_trip or_sold_count occupancy_rate fst snd].
      split; [reflexivity|]. apply Z.eqb_neq in Hcap. now rewrite Hcap.
  - intros k tr Hk Hzero. apply elem_of_map_to_list in Hk.
    destruct (division_by_zero be) eqn:Hdz.
    + rewrite (collect_rows_inl _ _ (k, tr) (DataError "division by zero")) in Hq; auto.
      * unfold occupancy_row, occupancy_rate_of. cbn [fst snd].
        now rewrite Hzero, Hdz.
      * intros b e'. apply occupancy_row_error.
    + rewrite (collect_rows_fmap _ (occupancy_row_of db)) in Hq.
      2:{ intros kt _. apply occupancy_row_defined. now left. }
      destruct Hq as (out & -> & Hperm & _).
      exists out, (occupancy_row_of db (k, tr)). split; [reflexivity|].
      split; [|split].
      * rewrite <- Hperm. apply list_elem_of_fmap. eauto.
      * reflexivity.
      * unfold occupancy_row_of. cbn [occupancy_rate snd]. now rewrite Hzero.
Qed.

Lemma trip_occupancy_report_witness :
  exists out r,
    @inr Exn _ example_occupancy_rows = inr out /\ r ∈ out /\ or_id r = 2 /\
    occupancy_rate r = None.
Proof.
  exact (proj2 (trip_occupancy_report lenient_backend example_report_db
                  (inr example_occupancy_rows) example_occupancy_answer)
               2 (Trip.set_capacity 0 example_trip) eq_refl eq_refl).
Defined.

(** The claim as the spec words it fails: with a trip of capacity zero in
    the store, an engine that raises on a division by zero fails the
    whole report, and an engine that does not leaves the rate NULL. *)
Lemma trip_occupancy_unguarded :
  trip_occupancy strict_backend example_report_db
    (inl (DataError "division by zero")) /\
  run_trip_occupancy strict_backend example_report_db =
    inl (DataError "division by zero") /\
  run_trip_occupancy lenient_backend example_report_db =
    inr example_occupancy_rows.
Proof.
  split; [|split].
  - unfold trip_occupancy.
    assert (Hrows :
      collect_rows (occupancy_row strict_backend example_report_db)
        (map_to_list (trips example_report_db))
      = inl (DataError "division by zero")) by (vm_compute; reflexivity).
    now rewrite Hrows.
  - vm_compute. reflexivity.
  - vm_compute. reflexivity.
Qed.

(** * The claims on the example stores *)


Lemma no_seats_available_witness :
  exists x1' db1,
    save (new_ticket 3 None) example_db = (inr x1', db1) /\
    forall x2 p,
      Ticket.pk x2 = None -> Ticket.trip_id x2 = Some 1 ->
      (price x2 db1).1 = inr p ->
      exists errs,
        save x2 db1 = (inl (ValidationError errs), db1) /\
        NonFieldError (no_seats_message example_trip) ∈ errs.
Proof.
  apply (proj2 no_seats_available (new_ticket 3 None) example_db 1 example_trip);
    try reflexivity.
  exists (Decimal.of_int 100), (Dec 12000 (-2)). split; [|split].
  - exists 1, example_trip. repeat split; reflexivity.
  - vm_compute. reflexivity.
  - vm_compute. reflexivity.
Defined.

Lemma seat_check_only_on_creation_witness :
  available_seats 1 example_trip example_sold_out = 0 /\
  exists x' db',
    save (Ticket.set_payment_method (Some "card") example_sold_ticket)
         example_sold_out = (inr x', db') /\
    tickets db' !! 0 = Some x'.
Proof.
  split; [vm_compute; reflexivity|].
  apply (seat_check_only_on_creation
           (Ticket.set_payment_method (Some "card") example_sold_ticket)
           example_sold_out 0 eq_refl).
  - reflexivity.
  - eexists. reflexivity.
  - exists (Decimal.of_int 100), (Dec 12000 (-2)). split; [|split].
    + reflexivity.
    + vm_compute. reflexivity.
    + vm_compute. reflexivity.
Defined.

Lemma base_price_fallback_witness :
  exists x' db',
    save (Ticket.set_base_price (Some (Dec 0 (-2))) (new_ticket 3 None)) example_db
    = (inr x', db') /\
    Ticket.base_price x' = Some (Decimal.of_int 100) /\
    Ticket.paid_amount x' = Dec 12000 (-2).
Proof.
  destruct (proj2 (proj2 (proj2 base_price_fallback))
              (Ticket.set_base_price (Some (Dec 0 (-2))) (new_ticket 3 None))
              example_db 1 example_trip eq_refl eq_refl eq_refl)
    as (x' & db' & base & pid & pa & Hsave & Hbase & Hzero & _ & Hpid & Hpa & Hr).
  - vm_compute. reflexivity.
  - exists (Decimal.of_int 100), (Dec 12000 (-2)). split; [|split].
    + exists 1, example_trip. repeat split; reflexivity.
    + vm_compute. reflexivity.
    + vm_compute. reflexivity.
  - exists x', db'. split; [exact Hsave|].
    assert (Hb : base = Decimal.of_int 100).
    { apply Hzero. right. exists (Dec 0 (-2)). split; reflexivity. }
    subst base. split; [exact Hbase|].
    injection Hpid as <-. vm_compute in Hpa. injection Hpa as <-.
    assert (Hp : Decimal.round_
                   (raw_price (Decimal.of_int 100) (calculate_discount 30)) 2
                 = Some (Dec 12000 (-2))) by (vm_compute; reflexivity).
    cbn [Passenger.age] in Hr. rewrite Hp in Hr. now injection Hr.
Defined.

Lemma paid_amount_after_creation_witness :
  tickets example_resaved = <[0 := example_resaved_ticket]> (tickets example_aged).
Proof.
  refine (proj1 (proj2 (proj2 paid_amount_after_creation)
            (Ticket.set_payment_method (Some "card") example_sold_ticket)
            example_aged example_resaved_ticket example_resaved 0 eq_refl _)).
  vm_compute. reflexivity.
Defined.

Lemma deletion_rules_witness :
  (delete_passenger 1 example_report_db).1 = inr true /\
  (delete_cashier 1 example_report_db).1 = inr true.
Proof.
  split.
  - refine (proj1 (proj1 deletion_rules example_report_db 1 _)).
    eexists. reflexivity.
  - refine (proj1 (proj2 deletion_rules example_report_db 1 _)).
    eexists. reflexivity.
Defined.

(** * More on [Ticket.save] *)

Section SaveMore.
Import Decimal.

Lemma super_save_inl x db e db' :
  super_save x db = (inl e, db') -> db' = db.
Proof.
  unfold super_save. unfold_M. destruct (Ticket.pk x) as [k|]; [|discriminate].
  destruct (tickets db !! k); [|discriminate].
  destruct (Ticket.purchase_date x); [discriminate|]. now intros [= _ <-].
Qed.

Lemma super_save_dated x db x' db' :
  super_save x db = (inr x', db') ->
  exists k d,
    x' = Ticket.stored k (Some d) x /\
    (forall k0, Ticket.pk x = Some k0 -> k = k0) /\
    (Ticket.pk x = None -> tickets db !! k = None) /\
    db' = with_tickets (<[k := x']> (tickets db)) db.
Proof.
  unfold super_save. unfold_M. destruct (Ticket.pk x) as [k|] eqn:Hpk.
  - destruct (tickets db !! k) eqn:Hrow.
    + destruct (Ticket.purchase_date x) as [d|]; [|discriminate].
      intros [= <- <-]. exists k, d. repeat split; congruence.
    + intros [= <- <-]. exists k, (now db). repeat split; congruence.
  - intros [= <- <-]. exists (fresh (dom (tickets db))), (now db).
    repeat split; try congruence.
    intros _. apply not_elem_of_dom, is_fresh.
Qed.

Lemma save_inl x db e db' : save x db = (inl e, db') -> db' = db.
Proof.
  intros H. destruct (save_cases x db) as [(e0 & He & _)|Hok].
  - rewrite He in H. now injection H as _ <-.
  - destruct Hok as (base & pid & pa & p & _ & _ & _ & _ & Hs).
    rewrite Hs in H. clear Hs.
    destruct (full_clean (priced x base p) db) as [[e1|u] db1] eqn:Hfc.
    + rewrite (bind_inl _ _ _ _ _ Hfc) in H. injection H as _ <-.
      pose proof (read_only_full_clean (priced x base p) db) as Hro.
      now rewrite Hfc in Hro.
    + rewrite (bind_step _ _ _ _ _ Hfc) in H.
      pose proof (read_only_full_clean (priced x base p) db) as Hro.
      rewrite Hfc in Hro. simpl in Hro. subst db1.
      now apply super_save_inl in H.
Qed.

(** A successful [save], with the date of the row. *)
Lemma save_inr_dated x db x' db' :
  save x db = (inr x', db') ->
  exists base pid pa p k d,
    resolves_base x db base /\
    Ticket.passenger_id x = Some pid /\ passengers db !! pid = Some pa /\
    round_ (raw_price base (calculate_discount (Passenger.age pa))) 2 = Some p /\
    clean_fields (priced x base p) db = [] /\
    (clean (priced x base p) db).1 = inr tt /\
    x' = Ticket.stored k (Some d) (priced x base p) /\
    (forall k0, Ticket.pk x = Some k0 -> k = k0) /\
    (Ticket.pk x = None -> tickets db !! k = None) /\
    db' = with_tickets (<[k := x']> (tickets db)) db.
Proof.
  intros H. destruct (save_cases x db) as [(e & He & _)|Hok].
  { rewrite He in H. discriminate. }
  destruct Hok as (base & pid & pa & p & Hb & Hpid & Hpa & Hr & Hsave).
  rewrite Hsave in H. apply bind_inr in H as (u & db1 & Hfc & Hss).
  apply full_clean_inr in Hfc as (-> & Hcf & Hvu & Hcl).
  apply super_save_dated in Hss as (k & d & -> & Hk & Hnew & ->).
  exists base, pid, pa, p, k, d. repeat split; auto.
Qed.

Lemma foreign_key_errors_nil {A} f nb (tbl : gmap Z A) fk :
  foreign_key_errors f nb tbl fk = [] ->
  exists k, fk = Some k /\ is_Some (tbl !! k).
Proof.
  unfold foreign_key_errors. destruct fk as [k|]; [|discriminate].
  destruct (tbl !! k) eqn:E; [|discriminate]. eauto.
Qed.

Lemma expo_rescale d e : expo (rescale d e) = e.
Proof. unfold rescale. now destruct (e <=? expo d). Qed.

Lemma save_row_ok x db x' db' :
  save x db = (inr x', db') ->
  exists k,
    tickets db' !! k = Some x' /\ row_ok db' k x' /\
    db' = with_tickets (<[k := x']> (tickets db)) db.
Proof.
  intros H.
  apply save_inr_dated in H
    as (base & pid & pa & p & k & d & Hb & Hpid & Hpa & Hr & Hcf & _ & -> & _ & _ & ->).
  exists k. split; [simpl; apply lookup_insert_eq|]. split; [|reflexivity].
  apply clean_fields_nil in Hcf as (Hfp & Hfc & Hft & _ & _).
  apply foreign_key_errors_nil in Hfp as (kp & Hkp & Hp).
  apply foreign_key_errors_nil in Hfc as (kc & Hkc & Hc).
  apply foreign_key_errors_nil in Hft as (kt & Hkt & Ht).
  apply round_2_Some in Hr. subst p.
  unfold row_ok. cbn. repeat split; eauto.
  - intros cid Hcid. destruct x; cbn in *. congruence.
  - apply expo_rescale.
Qed.

End SaveMore.

Section Invariants.
Import Decimal.

Lemma row_ok_tables db db' k x :
  passengers db' = passengers db -> cashiers db' = cashiers db ->
  trips db' = trips db -> row_ok db k x -> row_ok db' k x.
Proof. unfold row_ok. now intros -> -> ->. Qed.

Lemma store_ok_save x db : store_ok db -> store_ok (save x db).2.
Proof.
  intros Hok. destruct (save x db) as [[e|x'] db'] eqn:Hs; cbn [snd].
  - now rewrite (save_inl _ _ _ _ Hs).
  - destruct (save_row_ok _ _ _ _ Hs) as (k & Hk & Hrow & Hdb).
    intros k' y Hy. destruct (decide (k = k')) as [<-|Hne].
    + assert (y = x') as -> by congruence. exact Hrow.
    + rewrite Hdb in Hy |- *. unfold with_tickets in Hy. cbn [tickets] in Hy.
      rewrite lookup_insert_ne in Hy by exact Hne.
      apply (row_ok_tables db); auto.
Qed.

Lemma store_ok_delete_passenger k db :
  store_ok db -> store_ok (delete_passenger k db).2.
Proof.
  intros Hok. unfold delete_passenger. unfold_M.
  destruct (passengers db !! k) eqn:Hk; [|exact Hok]. cbn [snd].
  intros k' y Hy. cbn in Hy. unfold on_delete, passenger_on_delete in Hy.
  apply map_lookup_filter_Some in Hy as [Hy Hne]. cbn in Hne.
  destruct (Hok k' y Hy) as (H1 & H2 & H3 & (pid & Hpid & Hp) & H5 & H6 & H7 & H8).
  unfold row_ok. cbn. repeat split; auto.
  exists pid. split; [exact Hpid|].
  rewrite lookup_delete_ne; [exact Hp|congruence].
Qed.

Lemma store_ok_delete_trip k db :
  store_ok db -> store_ok (delete_trip k db).2.
Proof.
  intros Hok. unfold delete_trip. unfold_M.
  destruct (trips db !! k) eqn:Hk; [|exact Hok]. cbn [snd].
  intros k' y Hy. cbn in Hy. unfold on_delete, trip_on_delete in Hy.
  apply map_lookup_filter_Some in Hy as [Hy Hne]. cbn in Hne.
  destruct (Hok k' y Hy) as (H1 & H2 & H3 & H4 & H5 & (tid & Htid & Ht) & H7 & H8).
  unfold row_ok. cbn. repeat split; auto.
  exists tid. split; [exact Htid|].
  rewrite lookup_delete_ne; [exact Ht|congruence].
Qed.

Lemma store_ok_delete_cashier k db :
  store_ok db -> store_ok (delete_cashier k db).2.
Proof.
  intros Hok. unfold delete_cashier. unfold_M.
  destruct (cashiers db !! k) eqn:Hk; [|exact Hok]. cbn [snd].
  intros k' y' Hy. cbn in Hy. unfold on_delete, cashier_on_delete in Hy.
  rewrite lookup_fmap in Hy. destruct (tickets db !! k') as [y|] eqn:Hrow; [|discriminate].
  injection Hy as <-.
  destruct (Hok k' y Hrow) as (H1 & H2 & H3 & H4 & H5 & H6 & H7 & H8).
  destruct (decide (Ticket.cashier_id y = Some k)) as [Heq|Hne].
  - unfold row_ok. destruct y; cbn in *. repeat split; auto. discriminate.
  - unfold row_ok. cbn. repeat split; auto.
    intros cid Hcid. rewrite lookup_delete_ne; [now apply H5|congruence].
Qed.

Lemma store_ok_update_passenger k f db :
  store_ok db -> store_ok (update_passenger k f db).2.
Proof.
  intros Hok. unfold update_passenger. unfold_M.
  destruct (passengers db !! k) eqn:Hk; [|exact Hok]. cbn [snd].
  intros k' y Hy. cbn in Hy.
  destruct (Hok k' y Hy) as (H1 & H2 & H3 & (pid & Hpid & Hp) & H5 & H6 & H7 & H8).
  unfold row_ok. cbn. repeat split; auto.
  exists pid. split; [exact Hpid|].
  destruct (decide (k = pid)) as [->|Hne].
  - rewrite lookup_insert_eq. eauto.
  - now rewrite lookup_insert_ne.
Qed.

Lemma store_ok_update_trip k f db :
  store_ok db -> store_ok (update_trip k f db).2.
Proof.
  intros Hok. unfold update_trip. unfold_M.
  destruct (trips db !! k) eqn:Hk; [|exact Hok]. cbn [snd].
  intros k' y Hy. cbn in Hy.
  destruct (Hok k' y Hy) as (H1 & H2 & H3 & H4 & H5 & (tid & Htid & Ht) & H7 & H8).
  unfold row_ok. cbn. repeat split; auto.
  exists tid. split; [exact Htid|].
  destruct (decide (k = tid)) as [->|Hne].
  - rewrite lookup_insert_eq. eauto.
  - now rewrite lookup_insert_ne.
Qed.

Lemma example_report_db_ok : store_ok example_report_db.
Proof.
  intros k x Hx. cbn in Hx.
  apply lookup_insert_Some in Hx as [[<- <-]|[_ Hx]].
  { unfold row_ok. cbn. repeat split; eauto. intros cid [= <-]. eauto. }
  apply lookup_insert_Some in Hx as [[<- <-]|[_ Hx]].
  { unfold row_ok. cbn. repeat split; eauto. intros cid [= <-]. eauto. }
  now rewrite lookup_empty in Hx.
Qed.

End Invariants.

Section Capacity.
Import Decimal.

Lemma clean_inr_new x db :
  Ticket.pk x = None -> (clean x db).1 = inr tt ->
  exists k tr,
    Ticket.trip_id x = Some k /\ trips db !! k = Some tr /\
    0 < available_seats k tr db.
Proof.
  intros Hpk. unfold clean. rewrite Hpk.
  destruct (get_trip x db) as [[e|[k tr]] db1] eqn:Ht.
  - rewrite (bind_inl _ _ _ _ _ Ht). discriminate.
  - rewrite (bind_step _ _ _ _ _ Ht).
    apply get_trip_inr in Ht as (-> & Hk & Htr). unfold_M.
    destruct (Z.leb_spec (available_seats k tr db) 0); [discriminate|].
    intros _. eauto.
Qed.

Lemma related_tickets_overwrite fk k db k0 x0 row :
  tickets db !! k0 = Some x0 ->
  (if decide (fk x0 = Some k) then [x0] else []) ++
    related_tickets fk k (with_tickets (<[k0 := row]> (tickets db)) db) ≡ₚ
  (if decide (fk row = Some k) then [row] else []) ++ related_tickets fk k db.
Proof.
  intros Hrow. unfold related_tickets. cbn [tickets with_tickets].
  rewrite <- (insert_delete_eq (tickets db)).
  rewrite (map_to_list_insert (delete k0 (tickets db)) k0 row)
    by apply lookup_delete_eq.
  rewrite <- (map_to_list_delete (tickets db) k0 x0 Hrow).
  rewrite !fmap_cons, !filter_cons. cbn [snd].
  destruct (decide (fk x0 = Some k)), (decide (fk row = Some k)); cbn [app];
    try reflexivity.
  apply perm_swap.
Qed.

Lemma sold_count_overwrite k db k0 x0 row :
  tickets db !! k0 = Some x0 ->
  sold_count k (with_tickets (<[k0 := row]> (tickets db)) db) =
  sold_count k db
  + (if decide (Ticket.trip_id row = Some k) then 1 else 0)
  - (if decide (Ticket.trip_id x0 = Some k) then 1 else 0).
Proof.
  intros Hrow. unfold sold_count.
  pose proof (related_tickets_overwrite Ticket.trip_id k db k0 x0 row Hrow) as Hp.
  apply Permutation_length in Hp. rewrite !length_app in Hp.
  destruct (decide (Ticket.trip_id x0 = Some k)),
           (decide (Ticket.trip_id row = Some k)); cbn [length] in Hp; lia.
Qed.

Lemma creation_counts x db x' db' :
  Ticket.pk x = None -> save x db = (inr x', db') ->
  exists k tr,
    Ticket.trip_id x = Some k /\ trips db !! k = Some tr /\
    sold_count k db < Trip.capacity tr /\
    sold_count k db' = sold_count k db + 1 /\
    forall k', k' <> k -> sold_count k' db' = sold_count k' db.
Proof.
  intros Hpk Hs.
  apply save_inr_dated in Hs
    as (base & pid & pa & p & k0 & d & _ & _ & _ & _ & _ & Hcl & -> & _ & Hnew & ->).
  apply clean_inr_new in Hcl as (k & tr & Hk & Htr & Hseats);
    [|destruct x; exact Hpk].
  exists k, tr. split; [destruct x; exact Hk|]. split; [exact Htr|].
  unfold available_seats in Hseats. split; [lia|].
  specialize (Hnew Hpk). split.
  - rewrite (sold_count_insert _ _ _ _ Hnew). cbn [Ticket.trip_id Ticket.stored].
    rewrite decide_True by exact Hk. reflexivity.
  - intros k' Hne. rewrite (sold_count_insert _ _ _ _ Hnew).
    cbn [Ticket.trip_id Ticket.stored].
    rewrite decide_False; [lia|]. rewrite Hk. congruence.
Qed.

Lemma not_overbooked_creation x db :
  Ticket.pk x = None -> not_overbooked db -> not_overbooked (save x db).2.
Proof.
  intros Hpk Hinv. destruct (save x db) as [[e|x'] db'] eqn:Hs; cbn [snd].
  - now rewrite (save_inl _ _ _ _ Hs).
  - pose proof Hs as Hs'.
    apply creation_counts in Hs as (k & tr & Hk & Htr & Hlt & Hk1 & Hother);
      [|exact Hpk].
    apply save_row_ok in Hs' as (k0 & _ & _ & Hdb).
    intros k' tr' Htr'. rewrite Hdb in Htr'. cbn in Htr'.
    destruct (decide (k' = k)) as [->|Hne].
    + rewrite Hk1. assert (tr' = tr) as -> by congruence. lia.
    + rewrite (Hother k' Hne). now apply Hinv.
Qed.

End Capacity.

(** X1. A [save] that raises, whatever the exception and wherever it is
    raised, leaves the store as it was. *)
Theorem save_failure_writes_nothing (x : Ticket.t) (db : DB) (e : Exn) (db' : DB) :
  save x db = (inl e, db') -> db' = db.
Proof. apply save_inl. Qed.

Lemma save_failure_writes_nothing_witness :
  (save (new_ticket 1 None) example_sold_out).2 = example_sold_out.
Proof.
  refine (save_failure_writes_nothing (new_ticket 1 None) example_sold_out
            (ValidationError [NonFieldError (no_seats_message example_trip)]) _ _).
  vm_compute. reflexivity.
Defined.

(** X2. A [save] that succeeds writes the row of the ticket and nothing
    else: the other tables, the clock and every other row of the ticket
    table are as before, and the instance returned is the row written. *)
Theorem save_touches_one_row (x : Ticket.t) (db : DB) (x' : Ticket.t) (db' : DB) :
  save x db = (inr x', db') ->
  passengers db' = passengers db /\ cashiers db' = cashiers db /\
  trips db' = trips db /\ now db' = now db /\
  exists k,
    Ticket.pk x' = Some k /\ tickets db' !! k = Some x' /\
    (forall k0, Ticket.pk x = Some k0 -> k = k0) /\
    (Ticket.pk x = None -> tickets db !! k = None) /\
    forall k', k' <> k -> tickets db' !! k' = tickets db !! k'.
Proof.
  intros Hs.
  apply save_inr_dated in Hs
    as (base & pid & pa & p & k & d & _ & _ & _ & _ & _ & _ & -> & Hk & Hnew & ->).
  repeat (split; [reflexivity|]). exists k.
  split; [reflexivity|]. split; [cbn; apply lookup_insert_eq|].
  split; [exact Hk|]. split; [exact Hnew|].
  intros k' Hne. cbn [tickets with_tickets]. now apply lookup_insert_ne.
Qed.

Lemma save_touches_one_row_witness :
  passengers example_sold_out = passengers example_db /\
  trips example_sold_out = trips example_db.
Proof.
  assert (Hsave : save (new_ticket 3 None) example_db
                  = (inr example_sold_ticket, example_sold_out))
    by (vm_compute; reflexivity).
  destruct (save_touches_one_row _ _ _ _ Hsave) as (Hp & _ & Ht & _).
  split; [exact Hp|exact Ht].
Defined.

(** X3. The row a successful [save] writes is in order: it carries its
    key, it is dated, its passenger, cashier and trip exist, its base
    price is set, and [paid_amount] has exactly two decimal places. *)
Theorem save_writes_valid_row (x : Ticket.t) (db : DB) (x' : Ticket.t) (db' : DB) :
  save x db = (inr x', db') ->
  exists k,
    tickets db' !! k = Some x' /\ row_ok db' k x' /\
    (exists cid, Ticket.cashier_id x' = Some cid /\ is_Some (cashiers db' !! cid)).
Proof.
  intros Hs. destruct (save_row_ok _ _ _ _ Hs) as (k & Hk & Hrow & Hdb).
  exists k. split; [exact Hk|]. split; [exact Hrow|].
  apply save_inr_dated in Hs
    as (base & pid & pa & p & k0 & d & _ & _ & _ & _ & Hcf & _ & -> & _ & _ & _).
  apply clean_fields_nil in Hcf as (_ & Hfc & _).
  apply foreign_key_errors_nil in Hfc as (kc & Hkc & Hc).
  exists kc. split; [destruct x; exact Hkc|]. rewrite Hdb. exact Hc.
Qed.

Lemma save_writes_valid_row_witness :
  exists k, tickets example_sold_out !! k = Some example_sold_ticket /\
            row_ok example_sold_out k example_sold_ticket.
Proof.
  assert (Hsave : save (new_ticket 3 None) example_db
                  = (inr example_sold_ticket, example_sold_out))
    by (vm_compute; reflexivity).
  destruct (save_writes_valid_row _ _ _ _ Hsave) as (k & Hk & Hrow & _).
  exists k. split; [exact Hk|exact Hrow].
Defined.

(** X4. The order of the ticket table is kept by every operation: by
    [Ticket.save], whether it succeeds or raises, by the deletion of a
    passenger, of a cashier or of a trip, and by the update of a passenger
    or of a trip.  No ticket is ever left with a reference to a row that
    is gone. *)
Theorem store_ok_preserved (db : DB) :
  store_ok db ->
  (forall x, store_ok (save x db).2) /\
  (forall k, store_ok (delete_passenger k db).2) /\
  (forall k, store_ok (delete_cashier k db).2) /\
  (forall k, store_ok (delete_trip k db).2) /\
  (forall k f, store_ok (update_passenger k f db).2) /\
  (forall k f, store_ok (update_trip k f db).2).
Proof.
  intros Hok. split; [|split; [|split; [|split; [|split]]]]; intros.
  - now apply store_ok_save.
  - now apply store_ok_delete_passenger.
  - now apply store_ok_delete_cashier.
  - now apply store_ok_delete_trip.
  - now apply store_ok_update_passenger.
  - now apply store_ok_update_trip.
Qed.

Lemma store_ok_preserved_witness :
  store_ok (delete_cashier 1 example_report_db).2 /\
  store_ok (delete_passenger 1 example_report_db).2.
Proof.
  destruct (store_ok_preserved example_report_db example_report_db_ok)
    as (_ & Hp & Hc & _).
  split; [apply Hc|apply Hp].
Defined.

(** X5. Creating a ticket takes one seat of its trip and none of any
    other trip, and only where a seat was left; so tickets created one
    after the other, whichever of the calls raise, never overbook a trip
    that was not overbooked. *)
Theorem creation_respects_capacity :
  (forall x db x' db',
      Ticket.pk x = None -> save x db = (inr x', db') ->
      exists k tr,
        Ticket.trip_id x = Some k /\ trips db !! k = Some tr /\
        sold_count k db < Trip.capacity tr /\
        sold_count k db' = sold_count k db + 1 /\
        forall k', k' <> k -> sold_count k' db' = sold_count k' db) /\
  (forall xs db,
      Forall (fun x => Ticket.pk x = None) xs ->
      not_overbooked db -> not_overbooked (add_all xs db)).
Proof.
  split; [exact creation_counts|].
  intros xs. induction xs as [|x xs IH]; intros db Hall Hinv; [exact Hinv|].
  apply Forall_cons in Hall as [Hx Hall]. cbn [add_all].
  apply IH; [exact Hall|]. now apply not_overbooked_creation.
Qed.

Lemma creation_respects_capacity_witness :
  not_overbooked
    (add_all [new_ticket 3 None; new_ticket 1 None; new_ticket 2 None] example_db).
Proof.
  apply (proj2 creation_respects_capacity).
  - repeat constructor.
  - intros k tr Htr. cbn in Htr.
    apply lookup_insert_Some in Htr as [[<- <-]|[_ Htr]].
    + vm_compute. discriminate.
    + now rewrite lookup_empty in Htr.
Defined.

(** X6. Saving again the instance that [save] returned, in the store it
    left, succeeds, returns the same instance and leaves the store as it
    is: the price comes out the same and the row is rewritten with
    itself. *)
Theorem save_idempotent (x : Ticket.t) (db : DB) (x' : Ticket.t) (db' : DB) :
  save x db = (inr x', db') -> save x' db' = (inr x', db').
Proof.
  intros Hs.
  apply save_inr_dated in Hs
    as (base & pid & pa & p & k & d & Hb & Hpid & Hpa & Hr & Hcf & _ & -> & _ & _ & ->).
  set (x2 := Ticket.stored k (Some d) (priced x base p)).
  set (db2 := with_tickets (<[k := x2]> (tickets db)) db).
  assert (Hb2 : resolves_base x2 db2 base).
  { unfold resolves_base, base_price_set in *. cbn.
    destruct (Decimal.truthy base) eqn:Htruthy; [reflexivity|].
    destruct (Ticket.base_price x) as [b|] eqn:Hbp.
    - destruct (Decimal.truthy b) eqn:Hb'.
      + injection Hb as ->. congruence.
      + destruct Hb as (k1 & tr & Hk1 & Htr & ->). exists k1, tr.
        repeat split; auto.
    - destruct Hb as (k1 & tr & Hk1 & Htr & ->). exists k1, tr.
      repeat split; auto. }
  assert (Hpid2 : Ticket.passenger_id x2 = Some pid) by (destruct x; exact Hpid).
  rewrite (save_eval x2 db2 base pid pa Hb2 Hpid2 Hpa), Hr.
  change (priced x2 base p) with x2.
  assert (Hfc : full_clean x2 db2 = (inr tt, db2)).
  { apply full_clean_pass.
    - exact Hcf.
    - reflexivity.
    - reflexivity. }
  rewrite (bind_step _ _ _ _ _ Hfc).
  unfold super_save. unfold_M.
  change (Ticket.pk x2) with (Some k).
  change (Ticket.purchase_date x2) with (Some d). cbv beta iota.
  assert (Hrow : tickets db2 !! k = Some x2)
    by (unfold db2; cbn [tickets with_tickets]; apply lookup_insert_eq).
  rewrite Hrow. change (Ticket.stored k (Some d) x2) with x2.
  f_equal. unfold db2, with_tickets. cbn [passengers cashiers trips tickets now].
  f_equal. apply insert_insert_eq.
Qed.

Lemma save_idempotent_witness :
  save example_sold_ticket example_sold_out = (inr example_sold_ticket, example_sold_out).
Proof.
  apply (save_idempotent (new_ticket 3 None) example_db).
  vm_compute. reflexivity.
Defined.

(** X7. The seat check does not see a ticket that changes trip: saving a
    persisted ticket with another trip succeeds as any save of a persisted
    ticket does, and counts it on the new trip whatever the seats left
    there, so the trip can end with more tickets than seats. *)
Theorem moving_ticket_skips_seat_check
    (x : Ticket.t) (db : DB) (x' : Ticket.t) (db' : DB) (k : Z) (x0 : Ticket.t)
    (k2 : Z) :
  Ticket.pk x = Some k -> tickets db !! k = Some x0 ->
  Ticket.trip_id x = Some k2 -> Ticket.trip_id x0 <> Some k2 ->
  save x db = (inr x', db') ->
  sold_count k2 db' = sold_count k2 db + 1.
Proof.
  intros Hpk Hrow Hk2 Hne Hs.
  apply save_inr_dated in Hs
    as (base & pid & pa & p & k' & d & _ & _ & _ & _ & _ & _ & -> & Hk & _ & ->).
  rewrite (Hk k Hpk). rewrite (sold_count_overwrite _ _ _ _ _ Hrow).
  cbn [Ticket.trip_id Ticket.stored].
  rewrite decide_True by (destruct x; exact Hk2).
  rewrite decide_False by exact Hne. lia.
Qed.

Lemma moving_ticket_skips_seat_check_witness :
  available_seats 2 (Trip.set_capacity 0 example_trip) example_report_db = 0 /\
  sold_count 2 (save (Ticket.set_trip_id (Some 2) (report_ticket 1 1))
                     example_report_db).2
  = sold_count 2 example_report_db + 1.
Proof.
  split; [vm_compute; reflexivity|].
  refine (moving_ticket_skips_seat_check
            (Ticket.set_trip_id (Some 2) (report_ticket 1 1)) example_report_db
            (Ticket.set_trip_id (Some 2) (report_ticket 1 1)) _ 1 (report_ticket 1 1) 2
            eq_refl eq_refl eq_refl _ _).
  - discriminate.
  - vm_compute. reflexivity.
Defined.

(** X8. A ticket is never saved without a cashier: the field is nullable
    in the table but not blank in validation.  So a ticket whose cashier
    was deleted, which keeps its row with no cashier, cannot be saved
    again until a cashier is set on it. *)
Theorem ticket_needs_cashier :
  (forall x db x' db',
      save x db = (inr x', db') ->
      exists c, Ticket.cashier_id x = Some c /\ is_Some (cashiers db !! c)) /\
  (forall db c k x,
      is_Some (cashiers db !! c) ->
      tickets db !! k = Some x -> Ticket.cashier_id x = Some c ->
      let db1 := (delete_cashier c db).2 in
      exists x1,
        tickets db1 !! k = Some x1 /\ Ticket.cashier_id x1 = None /\
        forall x' db', save x1 db1 <> (inr x', db')).
Proof.
  assert (Hneed : forall x db x' db',
      save x db = (inr x', db') ->
      exists c, Ticket.cashier_id x = Some c /\ is_Some (cashiers db !! c)).
  { intros x db x' db' Hs.
    apply save_inr_dated in Hs
      as (base & pid & pa & p & k0 & d & _ & _ & _ & _ & Hcf & _).
    apply clean_fields_nil in Hcf as (_ & Hfc & _).
    apply foreign_key_errors_nil in Hfc as (kc & Hkc & Hc).
    exists kc. split; [destruct x; exact Hkc|exact Hc]. }
  split; [exact Hneed|].
  intros db c k x [cr Hc] Hrow Hcash db1.
  exists (Ticket.set_cashier_id None x).
  assert (Hrow1 : tickets db1 !! k = Some (Ticket.set_cashier_id None x)).
  { unfold db1, delete_cashier. unfold_M. rewrite Hc. cbn [snd tickets].
    unfold on_delete, cashier_on_delete. rewrite lookup_fmap, Hrow. cbn.
    now rewrite decide_True by exact Hcash. }
  split; [exact Hrow1|]. split; [now destruct x|].
  intros x' db' Hs. apply Hneed in Hs as (c' & Hc' & _).
  destruct x; discriminate.
Qed.

Lemma ticket_needs_cashier_witness :
  exists x1,
    tickets (delete_cashier 1 example_report_db).2 !! 1 = Some x1 /\
    Ticket.cashier_id x1 = None /\
    forall x' db', save x1 (delete_cashier 1 example_report_db).2 <> (inr x', db').
Proof.
  refine (proj2 ticket_needs_cashier example_report_db 1 1 (report_ticket 1 1)
            _ eq_refl eq_refl).
  eexists. reflexivity.
Defined.

(** * The other methods of the models *)

(** X9. [Passenger.age_group] and [Ticket.calculate_discount] draw the
    same lines: a passenger is labelled a minor exactly when the discount
    factor is 0.5, a pensioner exactly when it is 0.7, and an adult
    exactly when it is 1.0. *)
Theorem age_group_matches_discount (p : Passenger.t) :
  (age_group p = "неповнолітній" <->
   calculate_discount (Passenger.age p) = Dec 5 (-1)) /\
  (age_group p = "пенсіонер" <->
   calculate_discount (Passenger.age p) = Dec 7 (-1)) /\
  (age_group p = "дорослий" <->
   calculate_discount (Passenger.age p) = Dec 10 (-1)).
Proof.
  unfold age_group, calculate_discount.
  destruct (Passenger.age p <? 18); [|destruct (60 <? Passenger.age p)];
    repeat split; intros H; try reflexivity; discriminate H.
Qed.

(** X10. [Trip.duration_str] shows whole hours and minutes below 60 that
    add up to [duration_minutes], and [duration_minutes] is the duration
    cut down to a whole minute (towards minus infinity when the arrival
    is before the departure); a trip that does not arrive before it
    leaves shows no negative number. *)
Theorem duration_str_parts (tr : Trip.t) :
  exists hours minutes,
    duration_str tr = pretty hours +:+ " год " +:+ pretty minutes +:+ " хв" /\
    0 <= minutes < 60 /\
    duration_minutes tr = 60 * hours + minutes /\
    60 * duration_minutes tr <= Trip.arrival tr - Trip.departure tr
      < 60 * duration_minutes tr + 60 /\
    (Trip.departure tr <= Trip.arrival tr -> 0 <= hours).
Proof.
  exists (duration_minutes tr / 60), (duration_minutes tr mod 60).
  split; [reflexivity|].
  split; [apply Z.mod_pos_bound; lia|].
  split; [apply Z.div_mod; lia|].
  unfold duration_minutes.
  pose proof (Z.div_mod (Trip.arrival tr - Trip.departure tr) 60 ltac:(lia)).
  pose proof (Z.mod_pos_bound (Trip.arrival tr - Trip.departure tr) 60 ltac:(lia)).
  split; [lia|].
  intros Hle. apply Z.div_pos; [|lia]. apply Z.div_pos; lia.
Qed.

Section DiscountOrder.
Import Decimal.

Lemma round_half_even_mono n n' m :
  0 <= n <= n' -> 0 < m -> round_half_even n m <= round_half_even n' m.
Proof.
  intros Hn Hm. unfold round_half_even.
  pose proof (Z.div_mod n m ltac:(lia)) as Hd.
  pose proof (Z.div_mod n' m ltac:(lia)) as Hd'.
  pose proof (Z.mod_pos_bound n m Hm) as Hr.
  pose proof (Z.mod_pos_bound n' m Hm) as Hr'.
  assert (Hq : n / m <= n' / m) by (apply Z.div_le_mono; lia).
  set (q := n / m) in *. set (q' := n' / m) in *.
  set (r := n mod m) in *. set (r' := n' mod m) in *.
  destruct (Z.eq_dec q q') as [Heq|Hne].
  - rewrite <- Heq in *. assert (r <= r') by nia.
    destruct (Z.ltb_spec (2 * r) m), (Z.ltb_spec m (2 * r)),
             (Z.ltb_spec (2 * r') m), (Z.ltb_spec m (2 * r'));
      destruct (Z.even q); lia.
  - assert (q + 1 <= q') by lia.
    destruct (Z.ltb_spec (2 * r) m), (Z.ltb_spec m (2 * r)),
             (Z.ltb_spec (2 * r') m), (Z.ltb_spec m (2 * r'));
      destruct (Z.even q), (Z.even q'); lia.
Qed.

Lemma div_half_even_nonneg c m :
  0 <= c -> 0 < m -> div_half_even c m = round_half_even c m.
Proof.
  intros Hc Hm. unfold div_half_even.
  destruct (Z.eq_dec c 0) as [->|Hnz].
  - assert (H0 : round_half_even 0 m = 0).
    { unfold round_half_even. rewrite Z.div_0_l, Z.mod_0_l by lia.
      change (2 * 0) with 0. apply Z.ltb_lt in Hm. now rewrite Hm. }
    cbn [Z.sgn Z.abs]. now rewrite H0.
  - rewrite Z.sgn_pos, Z.abs_eq by lia. apply Z.mul_1_l.
Qed.

Lemma rescale_mono a b e :
  expo a = expo b -> 0 <= coef a <= coef b ->
  coef (rescale a e) <= coef (rescale b e).
Proof.
  intros He Hc. unfold rescale. rewrite He.
  destruct (Z.leb_spec e (expo b)); cbn [coef].
  - apply Z.mul_le_mono_nonneg_r; [|lia]. apply Z.pow_nonneg. lia.
  - assert (0 < 10 ^ (e - expo b)) by (apply Z.pow_pos_nonneg; lia).
    rewrite !div_half_even_nonneg by lia.
    now apply round_half_even_mono.
Qed.

Lemma le_same_expo a b :
  expo a = expo b -> (Decimal.le a b <-> coef a <= coef b).
Proof.
  intros He. unfold Decimal.le, value. rewrite He.
  assert (Hpos : (0 < Qpower 10 (expo b))%Q) by (apply Qpower_0_lt; reflexivity).
  rewrite (Qmult_le_r _ _ _ Hpos), (Zle_Qle (coef a) (coef b)). reflexivity.
Qed.

Lemma price_rounds x db base pid pa p :
  resolves_base x db base ->
  Ticket.passenger_id x = Some pid -> passengers db !! pid = Some pa ->
  (price x db).1 = inr p ->
  round_ (raw_price base (calculate_discount (Passenger.age pa))) 2 = Some p.
Proof.
  intros Hb Hpid Hpa. rewrite (price_eval x db base pid pa Hb Hpid Hpa). cbn [fst].
  destruct (round_ _ 2); [now intros [= ->]|discriminate].
Qed.

End DiscountOrder.

(** X11. The price follows the discount: of two tickets with the same
    base price, not negative and within the ten digits of the field, the
    one whose passenger has the smaller discount factor is not the
    dearer.  A minor never pays more than a pensioner, nor a pensioner
    more than an adult. *)
Theorem discount_orders_prices
    (x1 x2 : Ticket.t) (db : DB) (base : Decimal)
    (pid1 pid2 : Z) (pa1 pa2 : Passenger.t) (p1 p2 : Decimal) :
  resolves_base x1 db base -> resolves_base x2 db base ->
  Ticket.passenger_id x1 = Some pid1 -> passengers db !! pid1 = Some pa1 ->
  Ticket.passenger_id x2 = Some pid2 -> passengers db !! pid2 = Some pa2 ->
  0 <= Decimal.coef base < 10 ^ 10 ->
  Decimal.le (calculate_discount (Passenger.age pa1))
             (calculate_discount (Passenger.age pa2)) ->
  (price x1 db).1 = inr p1 -> (price x2 db).1 = inr p2 ->
  Decimal.le p1 p2.
Proof.
  intros Hb1 Hb2 Hpid1 Hpa1 Hpid2 Hpa2 Hbase Hd Hp1 Hp2.
  apply (price_rounds _ _ _ _ _ _ Hb1 Hpid1 Hpa1) in Hp1.
  apply (price_rounds _ _ _ _ _ _ Hb2 Hpid2 Hpa2) in Hp2.
  rewrite raw_price_exact in Hp1, Hp2 by lia.
  apply round_2_Some in Hp1, Hp2. subst p1 p2.
  destruct (calculate_discount_coef (Passenger.age pa1)) as [Hc1 He1].
  destruct (calculate_discount_coef (Passenger.age pa2)) as [Hc2 He2].
  apply le_same_expo in Hd; [|congruence].
  apply le_same_expo; [now rewrite !expo_rescale|].
  apply rescale_mono; unfold Decimal.mul_exact; cbn [Decimal.coef Decimal.expo].
  - congruence.
  - nia.
Qed.

Lemma discount_orders_prices_witness :
  Decimal.le (Dec 6000 (-2)) (Dec 8400 (-2)).
Proof.
  refine (discount_orders_prices
            (new_ticket 1 None) (new_ticket 2 None) example_db (Decimal.of_int 100)
            1 2 (Passenger.Build "Ivan" "Franko" "KA100001" 10)
            (Passenger.Build "Lesia" "Ukrainka" "KA100002" 70)
            (Dec 6000 (-2)) (Dec 8400 (-2)) _ _ eq_refl eq_refl eq_refl eq_refl _ _ _ _).
  - exists 1, example_trip. repeat split; reflexivity.
  - exists 1, example_trip. repeat split; reflexivity.
  - split; [discriminate|reflexivity].
  - vm_compute. discriminate.
  - vm_compute. reflexivity.
  - vm_compute. reflexivity.
Defined.

(** * The other reports *)

Section CashierReport.

#[global] Instance sales_before_trans be : Transitive (sales_before be).
Proof.
  intros a b c. unfold sales_before.
  apply (desc_before_trans Decimal.le _ _).
Qed.

#[global] Instance sales_before_total be : Total (sales_before be).
Proof.
  intros a b. unfold sales_before.
  apply (desc_before_total Decimal.le _ _).
Qed.

Lemma run_cashier_performance_ok be db out :
  run_cashier_performance be db = Some out -> cashier_performance be db out.
Proof.
  unfold run_cashier_performance. intros H.
  destruct (mapM _ _) as [rows|] eqn:Hm; [|discriminate].
  injection H as <-. exists rows. split.
  - apply (mapM_rows _ _ _ _ Hm). intros kc r Hr. unfold run_cashier_row in Hr.
    destruct (sum_in_order _ _) as [s|] eqn:Hs; [|discriminate].
    injection Hr as <-. repeat split. now apply sum_in_order_sql_sum.
  - apply order_by_merge_sort; apply _.
Qed.

Lemma cashier_performance_answers be db :
  sum_arithmetic be = ExactNumeric -> exists out, cashier_performance be db out.
Proof.
  intros Hex.
  destruct (mapM_total (run_cashier_row be db) (map_to_list (cashiers db)))
    as [rows Hm].
  { intros kc. unfold run_cashier_row.
    rewrite (sum_in_order_exact _ _ Hex). cbn. eauto. }
  eexists. apply run_cashier_performance_ok. unfold run_cashier_performance.
  rewrite Hm. reflexivity.
Qed.

Lemma Sorted_impl_elem {A} (R R' : A -> A -> Prop) l :
  (forall a b, a ∈ l -> b ∈ l -> R a b -> R' a b) ->
  Sorted R l -> Sorted R' l.
Proof.
  intros Himpl Hs. induction Hs as [|a l Hs IH Hhd]; [constructor|].
  constructor.
  - apply IH. intros x y Hx Hy. apply Himpl; now apply list_elem_of_further.
  - destruct Hhd as [|b l Hab]; constructor.
    apply Himpl; [apply list_elem_of_here| |exact Hab].
    apply list_elem_of_further, list_elem_of_here.
Qed.

Lemma cashier_row_sold be db kc r :
  cashier_row be db kc r ->
  0 < tickets_count r <-> related_tickets Ticket.cashier_id kc.1 db <> [].
Proof.
  intros (_ & _ & -> & _).
  destruct (related_tickets Ticket.cashier_id kc.1 db); cbn [length]; split;
    intros H; try lia; try discriminate; now destruct H.
Qed.

Lemma cashier_row_sales be db kc r :
  cashier_row be db kc r ->
  0 < tickets_count r <-> is_Some (total_sales r).
Proof.
  intros Hrow. rewrite (cashier_row_sold _ _ _ _ Hrow).
  destruct Hrow as (_ & _ & _ & Hsum). apply sql_sum_null in Hsum.
  rewrite <- not_eq_None_Some, Hsum.
  split; intros H Hnil; apply H; [now apply fmap_nil_inv in Hnil|now rewrite Hnil].
Qed.

End CashierReport.

(** X12. The cashier report lists exactly the cashiers who sold a ticket,
    each with the number of tickets sold and the [SUM] the database
    computes over their [paid_amount] (their arithmetic sum where the
    engine adds decimals exactly), in descending order of that sum.
    Filtering on the count, as the query does, is filtering on a sum that
    is not NULL, as its comment says; so no NULL is ever sorted, and the
    answer does not depend on where the database puts NULLs. *)
Theorem cashier_performance_report (be : Backend) (db : DB) :
  (sum_arithmetic be = ExactNumeric -> exists out, cashier_performance be db out) /\
  forall out, cashier_performance be db out ->
  (forall r, r ∈ out ->
     cashiers db !! cr_id r = Some (cr_cashier r) /\
     let ts := related_tickets Ticket.cashier_id (cr_id r) db in
     ts <> [] /\ tickets_count r = Z.of_nat (length ts) /\
     exists s, total_sales r = Some s /\
       sql_sum be (Ticket.paid_amount <$> ts) (Some s) /\
       (sum_arithmetic be = ExactNumeric ->
        (Decimal.value s == Qsum (Decimal.value ∘ Ticket.paid_amount <$> ts))%Q)) /\
  (forall k c, cashiers db !! k = Some c ->
     ((exists r, r ∈ out /\ cr_id r = k) <->
      related_tickets Ticket.cashier_id k db <> [])) /\
  (forall kc r, cashier_row be db kc r ->
     0 < tickets_count r <-> is_Some (total_sales r)) /\
  StronglySorted (sales_before be) out /\
  (forall be', sum_arithmetic be' = sum_arithmetic be ->
               cashier_performance be' db out).
Proof.
  split; [apply cashier_performance_answers|].
  intros out (rows & Hrows & Hq). pose proof Hq as [Hperm Hsort].
  apply order_by_sorted in Hq as (Hsorted & _ & Hmem); [|apply _].
  assert (Hout : forall r, r ∈ out ->
    exists k c, cashier_row be db (k, c) r /\ cashiers db !! k = Some c /\
                related_tickets Ticket.cashier_id k db <> []).
  { intros r Hr. apply Hmem, list_elem_of_filter in Hr as [Hpos Hr].
    destruct (rows_of_r _ _ _ r Hrows Hr) as ([k c] & Hin & Hrow).
    apply elem_of_map_to_list in Hin. exists k, c.
    split; [exact Hrow|]. split; [exact Hin|].
    now apply (cashier_row_sold _ _ _ _ Hrow). }
  assert (Hsome : forall r, r ∈ out -> is_Some (total_sales r)).
  { intros r Hr. destruct (Hout r Hr) as (k & c & Hrow & _ & Hne).
    apply (cashier_row_sales _ _ _ _ Hrow).
    now apply (cashier_row_sold _ _ _ _ Hrow). }
  split; [|split; [|split; [|split]]].
  - intros r Hr. destruct (Hout r Hr) as (k & c & Hrow & Hc & Hne).
    destruct (Hsome r Hr) as [s Hs].
    destruct Hrow as (H1 & H2 & Hcount & Hsum).
    cbn [fst snd] in *. rewrite H1, H2. split; [exact Hc|]. cbv zeta.
    split; [exact Hne|]. split; [exact Hcount|].
    rewrite Hs in Hsum. exists s. split; [exact Hs|]. split; [exact Hsum|].
    intros Hex. rewrite (sql_sum_exact _ _ _ Hex Hsum).
    now rewrite list_fmap_compose.
  - intros k c Hc. split.
    + intros (r & Hr & Hid). destruct (Hout r Hr) as (k' & c' & Hrow & _ & Hne).
      destruct Hrow as (H1 & _). cbn [fst] in H1. now rewrite <- Hid, H1.
    + intros Hne. destruct (rows_of_l _ _ _ (k, c) Hrows) as (r & Hr & Hrow).
      { now apply elem_of_map_to_list. }
      exists r. split; [|apply Hrow].
      apply Hmem, list_elem_of_filter. split; [|exact Hr].
      now apply (cashier_row_sold _ _ _ _ Hrow).
  - intros kc r. apply cashier_row_sales.
  - exact Hsorted.
  - intros be' Hbe. exists rows. split.
    + eapply Forall2_impl; [exact Hrows|].
      intros kc r (H1 & H2 & H3 & H4). repeat split; auto.
      now apply (sql_sum_backend be).
    + split; [exact Hperm|].
      apply (Sorted_impl_elem (sales_before be)); [|exact Hsort].
      intros a b Ha Hb. destruct (Hsome a Ha) as [sa Hsa].
      destruct (Hsome b Hb) as [sb Hsb].
      unfold sales_before. now rewrite Hsa, Hsb.
Qed.

Lemma cashier_performance_report_witness :
  exists out,
    run_cashier_performance lenient_backend example_report_db = Some out /\
    cashier_performance (MkBackend true RaisesError Binary64) example_report_db out.
Proof.
  assert (Hrun : exists out,
            run_cashier_performance lenient_backend example_report_db = Some out)
    by (eexists; vm_compute; reflexivity).
  destruct Hrun as [out Hrun]. exists out. split; [exact Hrun|].
  exact (proj2 (proj2 (proj2 (proj2
           (proj2 (cashier_performance_report lenient_backend example_report_db) out
              (run_cashier_performance_ok _ _ _ Hrun)))))
           (MkBackend true RaisesError Binary64) eq_refl).
Defined.

Section Groups.
Context {A K : Type} `{EqDecision K}.
Implicit Types (f : A -> K) (l : list A) (keys : list K).

Lemma Zsum_perm (l1 l2 : list Z) : l1 ≡ₚ l2 -> Zsum l1 = Zsum l2.
Proof.
  induction 1 as [|x l1 l2 _ IH|x y l|l1 l2 l3 _ IH1 _ IH2]; cbn [Zsum foldr] in *;
    unfold Zsum in *; lia.
Qed.

Lemma Zsum_add (g h : K -> Z) keys :
  Zsum ((fun k => g k + h k) <$> keys) = Zsum (g <$> keys) + Zsum (h <$> keys).
Proof.
  induction keys as [|k keys IH]; [reflexivity|].
  rewrite !fmap_cons. unfold Zsum in *. cbn [foldr]. lia.
Qed.

Lemma Zsum_ext (g h : K -> Z) keys :
  (forall k, g k = h k) -> Zsum (g <$> keys) = Zsum (h <$> keys).
Proof.
  intros Hgh. induction keys as [|k keys IH]; [reflexivity|].
  rewrite !fmap_cons. unfold Zsum in *. cbn [foldr]. rewrite Hgh, IH. reflexivity.
Qed.

Lemma Zsum_indicator keys k0 (w : Z) :
  NoDup keys ->
  Zsum ((fun k => if decide (k0 = k) then w else 0) <$> keys) =
  if decide (k0 ∈ keys) then w else 0.
Proof.
  induction 1 as [|k keys Hk Hnd IH]; [reflexivity|].
  rewrite fmap_cons. unfold Zsum in *. cbn [foldr]. rewrite IH.
  destruct (decide (k0 = k)) as [Heq|Hne], (decide (k0 ∈ keys)) as [Hin|Hnin],
           (decide (k0 ∈ k :: keys)) as [Hin'|Hnin'];
    try lia; exfalso; rewrite ?elem_of_cons in *; subst; tauto.
Qed.

Lemma Qsum_add (g h : K -> Q) keys :
  (Qsum ((fun k => g k + h k) <$> keys)
   == Qsum (g <$> keys) + Qsum (h <$> keys))%Q.
Proof.
  induction keys as [|k keys IH]; [reflexivity|].
  rewrite !fmap_cons.
  change (g k + h k + Qsum ((fun k => g k + h k) <$> keys)
          == g k + Qsum (g <$> keys) + (h k + Qsum (h <$> keys)))%Q.
  rewrite IH. ring.
Qed.

Lemma Qsum_ext (g h : K -> Q) keys :
  (forall k, g k == h k)%Q -> (Qsum (g <$> keys) == Qsum (h <$> keys))%Q.
Proof.
  intros Hgh. induction keys as [|k keys IH]; [reflexivity|].
  rewrite !fmap_cons.
  change (g k + Qsum (g <$> keys) == h k + Qsum (h <$> keys))%Q.
  now rewrite Hgh, IH.
Qed.

Lemma Qsum_indicator keys k0 (w : Q) :
  NoDup keys ->
  (Qsum ((fun k => if decide (k0 = k) then w else 0) <$> keys)
   == if decide (k0 ∈ keys) then w else 0)%Q.
Proof.
  induction 1 as [|k keys Hk Hnd IH]; [reflexivity|].
  rewrite fmap_cons.
  change ((if decide (k0 = k) then w else 0)
          + Qsum ((fun k => if decide (k0 = k) then w else 0) <$> keys)
          == if decide (k0 ∈ k :: keys) then w else 0)%Q.
  rewrite IH.
  destruct (decide (k0 = k)) as [Heq|Hne], (decide (k0 ∈ keys)) as [Hin|Hnin],
           (decide (k0 ∈ k :: keys)) as [Hin'|Hnin'];
    try ring; exfalso; rewrite ?elem_of_cons in *; subst; tauto.
Qed.

(** The groups of a list by a key share its elements out: their sizes
    add up to its length, and the sums of a weight over them to the sum
    of the weight over the list. *)
Lemma group_count f l keys :
  NoDup keys -> (forall x, x ∈ l -> f x ∈ keys) ->
  Zsum ((fun k => Z.of_nat (length (filter (fun x => f x = k) l))) <$> keys)
  = Z.of_nat (length l).
Proof.
  intros Hnd. induction l as [|a l IH]; intros Hin.
  - cbn [filter list_filter length]. induction keys as [|k keys IHk]; [reflexivity|].
    rewrite fmap_cons. unfold Zsum in *. cbn [foldr].
    rewrite IHk; [reflexivity|now apply NoDup_cons_1_2 in Hnd|].
    intros x Hx. now apply not_elem_of_nil in Hx.
  - rewrite (Zsum_ext _
      (fun k => (if decide (f a = k) then 1 else 0)
                + Z.of_nat (length (filter (fun x => f x = k) l)))).
    2:{ intros k. rewrite filter_cons.
        destruct (decide (f a = k)); cbn [length]; lia. }
    rewrite Zsum_add, (Zsum_indicator keys (f a) 1 Hnd), IH.
    + rewrite decide_True by (apply Hin, list_elem_of_here). cbn [length]. lia.
    + intros x Hx. apply Hin. now apply list_elem_of_further.
Qed.

Lemma group_Qsum (w : A -> Q) f l keys :
  NoDup keys -> (forall x, x ∈ l -> f x ∈ keys) ->
  (Qsum ((fun k => Qsum (w <$> filter (fun x => f x = k) l)) <$> keys)
   == Qsum (w <$> l))%Q.
Proof.
  intros Hnd. induction l as [|a l IH]; intros Hin.
  - clear. induction keys as [|k keys IHk]; [reflexivity|].
    rewrite fmap_cons.
    change (0 + Qsum ((fun k => Qsum (w <$> filter (fun x => f x = k) []))
                        <$> keys) == 0)%Q.
    rewrite Qplus_0_l. exact IHk.
  - rewrite (Qsum_ext _
      (fun k => (if decide (f a = k) then w a else 0)
                + Qsum (w <$> filter (fun x => f x = k) l))%Q).
    2:{ intros k. rewrite filter_cons.
        destruct (decide (f a = k)); [reflexivity|].
        symmetry. apply Qplus_0_l. }
    rewrite Qsum_add, (Qsum_indicator keys (f a) (w a) Hnd), IH.
    + rewrite decide_True by (apply Hin, list_elem_of_here). reflexivity.
    + intros x Hx. apply Hin. now apply list_elem_of_further.
Qed.

End Groups.

Section MonthReport.
Variable month_of : Z -> Z.

#[global] Instance month_before_trans be : Transitive (month_before be).
Proof.
  intros a b c. unfold month_before.
  destruct (mr_month a), (mr_month b), (mr_month c); simpl; intros; try congruence; lia.
Qed.

#[global] Instance month_before_total be : Total (month_before be).
Proof.
  intros a b. unfold month_before.
  destruct (mr_month a), (mr_month b), (nulls_largest be); simpl; auto; lia.
Qed.

Lemma run_sales_by_month_ok be db out :
  run_sales_by_month month_of be db = Some out ->
  sales_by_month month_of be db out.
Proof.
  unfold run_sales_by_month. intros H.
  destruct (mapM _ _) as [rows|] eqn:Hm; [|discriminate].
  injection H as <-. exists rows. split.
  - apply (mapM_rows _ _ _ _ Hm). intros m r Hr. unfold run_month_row in Hr.
    destruct (sum_in_order _ _) as [s|] eqn:Hs; [|discriminate].
    injection Hr as <-. repeat split. now apply sum_in_order_sql_sum.
  - apply order_by_merge_sort; apply _.
Qed.

Lemma sales_by_month_answers be db :
  sum_arithmetic be = ExactNumeric ->
  exists out, sales_by_month month_of be db out.
Proof.
  intros Hex.
  destruct (mapM_total (run_month_row month_of be db) (months month_of db))
    as [rows Hm].
  { intros m. unfold run_month_row.
    rewrite (sum_in_order_exact _ _ Hex). cbn. eauto. }
  eexists. apply run_sales_by_month_ok. unfold run_sales_by_month.
  rewrite Hm. reflexivity.
Qed.

Lemma month_before_antisym be r1 r2 :
  month_before be r1 r2 -> month_before be r2 r1 -> mr_month r1 = mr_month r2.
Proof.
  unfold month_before.
  destruct (mr_month r1), (mr_month r2); simpl; intros; try congruence.
  f_equal. lia.
Qed.

(** Where the engine adds exactly, the row of a month is determined. *)
Lemma month_row_fun be db m r r' :
  sum_arithmetic be = ExactNumeric ->
  month_row month_of be db m r -> month_row month_of be db m r' -> r = r'.
Proof.
  intros Hex (H1 & H2 & H3) (H1' & H2' & H3').
  pose proof (sql_sum_fun _ _ _ _ Hex H2 H2') as Hs.
  destruct r, r'. cbn in *. congruence.
Qed.

Lemma month_row_revenue be db m r :
  sum_arithmetic be = ExactNumeric -> month_row month_of be db m r ->
  (revenue_value r ==
   Qsum (Decimal.value ∘ Ticket.paid_amount <$> month_tickets month_of db m))%Q.
Proof.
  intros Hex (_ & Hsum & _). unfold revenue_value.
  destruct (monthly_revenue r) as [s|]; cbn [from_option].
  - rewrite (sql_sum_exact _ _ _ Hex Hsum). now rewrite list_fmap_compose.
  - apply sql_sum_null in Hsum. destruct Hsum as [Hnil _].
    specialize (Hnil eq_refl). apply fmap_nil_inv in Hnil. now rewrite Hnil.
Qed.

End MonthReport.

(** X13. The monthly report shares the tickets out among the months of
    their purchase: the counts of its rows add up to the number of
    tickets; each row has at least one ticket and carries the [SUM] the
    database computes over the [paid_amount] of the tickets of its month,
    which is not NULL; no month comes twice, so the rows are in strictly
    ascending order.  Where the engine adds decimals exactly, the
    revenues add up to the sum of every [paid_amount] and the answer of
    the query is unique. *)
Theorem sales_by_month_report (month_of : Z -> Z) (be : Backend) (db : DB) :
  (sum_arithmetic be = ExactNumeric ->
   exists out, sales_by_month month_of be db out) /\
  forall out, sales_by_month month_of be db out ->
  Zsum (mr_tickets_sold <$> out) = Z.of_nat (size (tickets db)) /\
  (sum_arithmetic be = ExactNumeric ->
   (Qsum (revenue_value <$> out) ==
    Qsum (Decimal.value ∘ Ticket.paid_amount <$> (map_to_list (tickets db)).*2))%Q) /\
  NoDup (mr_month <$> out) /\
  (forall r, r ∈ out ->
     0 < mr_tickets_sold r /\ is_Some (monthly_revenue r) /\
     sql_sum be (Ticket.paid_amount <$> month_tickets month_of db (mr_month r))
       (monthly_revenue r) /\
     exists k x, tickets db !! k = Some x /\ month_key month_of x = mr_month r) /\
  StronglySorted (month_before be) out /\
  (sum_arithmetic be = ExactNumeric ->
   forall out', sales_by_month month_of be db out' -> out' = out).
Proof.
  split; [apply sales_by_month_answers|].
  intros out (rows & Hrows & Hq). pose proof Hq as [Hperm _].
  apply order_by_sorted in Hq as (Hsorted & _ & Hmem); [|apply _].
  set (all := (map_to_list (tickets db)).*2) in *.
  assert (Hnd : NoDup (months month_of db)) by apply NoDup_remove_dups.
  assert (Hkeys : forall x, x ∈ all -> month_key month_of x ∈ months month_of db).
  { intros x Hx. apply elem_of_remove_dups, list_elem_of_fmap. eauto. }
  split; [|split; [|split; [|split; [|split]]]].
  - rewrite <- (Zsum_perm _ _ (fmap_Permutation mr_tickets_sold _ _ Hperm)).
    rewrite (rows_fmap _ mr_tickets_sold
               (fun m => Z.of_nat (length (month_tickets month_of db m)))
               _ _ Hrows) by (now intros m r (_ & _ & H)).
    unfold month_tickets. fold all.
    rewrite (group_count (month_key month_of) all _ Hnd Hkeys).
    unfold all. now rewrite length_fmap, length_map_to_list.
  - intros Hex.
    rewrite <- (Qsum_perm _ _ (fmap_Permutation revenue_value _ _ Hperm)).
    rewrite (rows_Qsum _ revenue_value
               (fun m => Qsum (Decimal.value ∘ Ticket.paid_amount <$>
                               month_tickets month_of db m))
               _ _ Hrows) by (intros m r; now apply month_row_revenue).
    unfold month_tickets. fold all.
    apply (group_Qsum _ (month_key month_of) all _ Hnd Hkeys).
  - rewrite <- (fmap_Permutation mr_month _ _ Hperm).
    rewrite (rows_fmap _ mr_month id _ _ Hrows) by (now intros m r (H & _)).
    now rewrite list_fmap_id.
  - intros r Hr. apply Hmem in Hr.
    destruct (rows_of_r _ _ _ r Hrows Hr) as (m & Hm & H1 & Hsum & Hcount).
    apply elem_of_remove_dups, list_elem_of_fmap in Hm as (x & Hxm & Hx).
    fold all in Hx. rewrite H1.
    assert (Hin : x ∈ month_tickets month_of db m).
    { apply list_elem_of_filter. split; [now symmetry|exact Hx]. }
    assert (Hne : month_tickets month_of db m <> []).
    { intros Hnil. rewrite Hnil in Hin. now apply not_elem_of_nil in Hin. }
    split; [|split; [|split; [exact Hsum|]]].
    + rewrite Hcount. destruct (month_tickets month_of db m); [now destruct Hne|].
      cbn [length]. lia.
    + apply (sql_sum_some _ _ _ Hsum). intros Hnil.
      now apply fmap_nil_inv in Hnil.
    + unfold all in Hx. apply list_elem_of_fmap in Hx as ([k x0] & -> & Hx).
      apply elem_of_map_to_list in Hx. exists k, x0. split; [exact Hx|now symmetry].
  - exact Hsorted.
  - intros Hex out' (rows' & Hrows' & Hq'). pose proof Hq' as [Hperm' _].
    apply order_by_sorted in Hq' as (Hsorted' & _ & Hmem'); [|apply _].
    assert (rows' = rows) as ->.
    { apply (rows_fun _ _ _ _
               (fun m r r' => month_row_fun month_of be db m r r' Hex)
               Hrows' Hrows). }
    apply (StronglySorted_unique_strong (month_before be)); auto.
    + intros r1 r2 Hr1 Hr2 H12 H21.
      apply Hmem' in Hr1. apply Hmem in Hr2.
      destruct (rows_of_r _ _ _ r1 Hrows Hr1) as (m1 & _ & Hrow1).
      destruct (rows_of_r _ _ _ r2 Hrows Hr2) as (m2 & _ & Hrow2).
      pose proof (month_before_antisym be r1 r2 H12 H21) as Hm.
      pose proof Hrow1 as (E1 & _). pose proof Hrow2 as (E2 & _).
      assert (m1 = m2) as -> by congruence.
      exact (month_row_fun month_of be db m2 r1 r2 Hex Hrow1 Hrow2).
    + now rewrite <- Hperm', <- Hperm.
Qed.

Lemma sales_by_month_report_witness :
  exists out,
    run_sales_by_month example_month_of lenient_backend example_report_db
    = Some out /\
    Zsum (mr_tickets_sold <$> out) = 2.
Proof.
  assert (Hrun : exists out,
            run_sales_by_month example_month_of lenient_backend example_report_db
            = Some out)
    by (eexists; vm_compute; reflexivity).
  destruct Hrun as [out Hrun]. exists out. split; [exact Hrun|].
  exact (proj1 (proj2 (sales_by_month_report _ lenient_backend example_report_db)
                  out (run_sales_by_month_ok _ _ _ _ Hrun))).
Defined.

(** * The repositories after a deletion *)

Section Deletion.

Lemma fmap_snd_filter {A B} (P : B -> Prop) `{!forall x, Decision (P x)}
    (l : list (A * B)) :
  (filter (fun kx => P kx.2) l).*2 = filter P (l.*2).
Proof.
  induction l as [|[k x] l IH]; [reflexivity|].
  rewrite fmap_cons, !filter_cons. cbn [snd].
  destruct (decide (P x)); [rewrite fmap_cons|]; now rewrite IH.
Qed.

Lemma values_filter (P : Ticket.t -> Prop) `{!forall x, Decision (P x)}
    (m : gmap Z Ticket.t) :
  (map_to_list (filter (fun kx => P kx.2) m)).*2 ≡ₚ filter P (map_to_list m).*2.
Proof.
  rewrite map_filter_alt, map_to_list_to_map.
  - now rewrite fmap_snd_filter.
  - apply NoDup_fmap_fst.
    + intros i x y [_ Hx]%list_elem_of_filter [_ Hy]%list_elem_of_filter.
      apply elem_of_map_to_list in Hx, Hy. congruence.
    + apply NoDup_filter, NoDup_map_to_list.
Qed.

Lemma filter_filter_impl {A} (P Q : A -> Prop)
    `{!forall x, Decision (P x)} `{!forall x, Decision (Q x)} (l : list A) :
  (forall x, Q x -> P x) -> filter Q (filter P l) = filter Q l.
Proof.
  intros Himpl. induction l as [|a l IH]; [reflexivity|].
  rewrite !filter_cons. destruct (decide (P a)) as [HP|HnP].
  - rewrite filter_cons. destruct (decide (Q a)); now rewrite IH.
  - rewrite decide_False; [exact IH|]. intros HQ. now apply HnP, Himpl.
Qed.

Lemma filter_filter_none {A} (P Q : A -> Prop)
    `{!forall x, Decision (P x)} `{!forall x, Decision (Q x)} (l : list A) :
  (forall x, Q x -> ~ P x) -> filter Q (filter P l) = [].
Proof.
  intros Himpl. induction l as [|a l IH]; [reflexivity|].
  rewrite filter_cons. destruct (decide (P a)) as [HP|HnP]; [|exact IH].
  rewrite filter_cons, decide_False; [exact IH|]. intros HQ. now apply (Himpl a).
Qed.

Lemma filter_split_length {A} (P Q : A -> Prop)
    `{!forall x, Decision (P x)} `{!forall x, Decision (Q x)} (l : list A) :
  (length (filter Q (filter (fun x => ~ P x) l))
   + length (filter Q (filter P l)) = length (filter Q l))%nat.
Proof.
  induction l as [|a l IH]; [reflexivity|].
  rewrite !filter_cons.
  destruct (decide (P a)) as [HP|HnP].
  - rewrite decide_False by tauto. rewrite filter_cons.
    destruct (decide (Q a)); cbn [length]; lia.
  - rewrite decide_True by exact HnP. rewrite filter_cons.
    destruct (decide (Q a)); cbn [length]; lia.
Qed.

Lemma filter_fmap_length {A} (Q : A -> Prop) `{!forall x, Decision (Q x)}
    (g : A -> A) (l : list A) :
  (forall x, Q (g x) <-> Q x) ->
  length (filter Q (g <$> l)) = length (filter Q l).
Proof.
  intros Hg. induction l as [|a l IH]; [reflexivity|].
  rewrite fmap_cons, !filter_cons.
  destruct (decide (Q a)) as [HQ|HnQ].
  - rewrite decide_True by now apply Hg. cbn [length]. now rewrite IH.
  - rewrite decide_False; [exact IH|]. intros HQg. now apply HnQ, Hg.
Qed.

Lemma tickets_delete_passenger db p :
  is_Some (passengers db !! p) ->
  tickets (delete_passenger p db).2 =
  filter (fun kx : Z * Ticket.t => Ticket.passenger_id kx.2 <> Some p) (tickets db).
Proof.
  intros [pa Hp]. unfold delete_passenger. unfold_M. now rewrite Hp.
Qed.

Lemma tickets_delete_cashier db c :
  is_Some (cashiers db !! c) ->
  tickets (delete_cashier c db).2 =
  (fun x => if decide (Ticket.cashier_id x = Some c)
            then Ticket.set_cashier_id None x else x) <$> tickets db.
Proof.
  intros [ca Hc]. unfold delete_cashier. unfold_M. now rewrite Hc.
Qed.

End Deletion.

(** X14. Once a passenger is deleted, [get_by_id] finds nobody, a second
    [delete] answers [False], [by_passenger] returns no ticket for that
    passenger, and returns for every other passenger the tickets it
    returned before. *)
Theorem deleted_passenger_is_gone (db : DB) (p : Z) :
  is_Some (passengers db !! p) ->
  let db' := (delete_passenger p db).2 in
  passengers db' !! p = None /\
  (delete_passenger p db').1 = inr false /\
  (by_passenger p db').1 = inr [] /\
  forall p' ts ts',
    p' <> p ->
    (by_passenger p' db).1 = inr ts -> (by_passenger p' db').1 = inr ts' ->
    ts' ≡ₚ ts.
Proof.
  intros Hp db'.
  assert (Hgone : passengers db' !! p = None).
  { destruct Hp as [pa Hpa]. unfold db', delete_passenger. unfold_M.
    rewrite Hpa. cbn. apply lookup_delete_eq. }
  assert (Hts : forall q,
    related_tickets Ticket.passenger_id q db' ≡ₚ
    filter (fun x => Ticket.passenger_id x = Some q)
      (filter (fun x => Ticket.passenger_id x <> Some p) (map_to_list (tickets db)).*2)).
  { intros q. unfold related_tickets, db'. rewrite (tickets_delete_passenger db p Hp).
    pose proof (values_filter (fun x => Ticket.passenger_id x <> Some p) (tickets db))
      as Hv. cbv beta in Hv. now rewrite Hv. }
  split; [exact Hgone|]. split; [|split].
  - unfold delete_passenger. unfold_M. now rewrite Hgone.
  - unfold by_passenger. unfold_M. cbn [fst]. f_equal.
    apply Permutation_nil_r. rewrite Hts.
    rewrite filter_filter_none; [reflexivity|]. intros x Hx Hne. now apply Hne.
  - intros p' ts ts' Hne. unfold by_passenger. unfold_M. cbn [fst].
    intros [= <-] [= <-]. rewrite Hts.
    rewrite filter_filter_impl; [reflexivity|]. intros x Hx. congruence.
Qed.

Lemma deleted_passenger_is_gone_witness :
  (by_passenger 1 (delete_passenger 1 example_report_db).2).1 = inr [].
Proof.
  refine (proj1 (proj2 (proj2 (deleted_passenger_is_gone example_report_db 1 _)))).
  eexists. reflexivity.
Defined.

(** X15. Deleting a cashier frees no seat: every trip keeps its count of
    tickets.  Deleting a passenger frees, on every trip, exactly the
    seats of that passenger's tickets. *)
Theorem deletion_and_seats :
  (forall db c k, sold_count k (delete_cashier c db).2 = sold_count k db) /\
  (forall db p k,
      is_Some (passengers db !! p) ->
      sold_count k (delete_passenger p db).2 =
      sold_count k db
      - Z.of_nat (length (filter (fun x => Ticket.trip_id x = Some k)
                            (related_tickets Ticket.passenger_id p db)))).
Proof.
  split.
  - intros db c k. destruct (cashiers db !! c) as [ca|] eqn:Hc.
    + unfold sold_count, related_tickets.
      rewrite (tickets_delete_cashier db c) by eauto.
      rewrite map_to_list_fmap, <- list_fmap_compose.
      rewrite (list_fmap_ext _
        ((fun x => if decide (Ticket.cashier_id x = Some c)
                   then Ticket.set_cashier_id None x else x) ∘ snd)) by now intros i [].
      rewrite list_fmap_compose, filter_fmap_length; [reflexivity|].
      intros x. destruct (decide _); [now destruct x|reflexivity].
    + unfold delete_cashier. unfold_M. now rewrite Hc.
  - intros db p k Hp. unfold sold_count, related_tickets.
    rewrite (tickets_delete_passenger db p Hp).
    pose proof (values_filter (fun x => Ticket.passenger_id x <> Some p) (tickets db))
      as Hv. cbv beta in Hv. rewrite Hv.
    pose proof (filter_split_length
      (fun x => Ticket.passenger_id x = Some p)
      (fun x => Ticket.trip_id x = Some k) (map_to_list (tickets db)).*2) as Hsplit.
    lia.
Qed.

Lemma deletion_and_seats_witness :
  sold_count 1 (delete_passenger 1 example_report_db).2 =
  sold_count 1 example_report_db
  - Z.of_nat (length (filter (fun x => Ticket.trip_id x = Some 1)
                        (related_tickets Ticket.passenger_id 1 example_report_db))).
Proof.
  refine (proj2 deletion_and_seats example_report_db 1 1 _).
  eexists. reflexivity.
Defined.

Section TrainTypes.

#[global] Instance decimal_le_refl : Reflexive Decimal.le.
Proof. intros a. unfold Decimal.le. apply Qle_refl. Qed.

Lemma dec_max_spec a b :
  (dec_max a b = a \/ dec_max a b = b) /\
  Decimal.le a (dec_max a b) /\ Decimal.le b (dec_max a b).
Proof.
  unfold dec_max. destruct (decide (Decimal.le a b)) as [Hle|Hnle].
  - repeat split; auto. reflexivity.
  - repeat split; auto; [reflexivity|].
    destruct (decimal_le_total a b); [contradiction|assumption].
Qed.

Lemma foldl_dec_max ds : forall d,
  foldl dec_max d ds ∈ d :: ds /\
  forall x, x ∈ d :: ds -> Decimal.le x (foldl dec_max d ds).
Proof.
  induction ds as [|a ds IH]; intros d; cbn [foldl].
  - split; [apply list_elem_of_here|]. intros x Hx.
    apply list_elem_of_singleton in Hx as ->. reflexivity.
  - destruct (IH (dec_max d a)) as [Hin Hmax].
    destruct (dec_max_spec d a) as (Hcase & Hd & Ha).
    split.
    + apply elem_of_cons in Hin as [Heq|Hin].
      * rewrite Heq. destruct Hcase as [->| ->].
        -- apply list_elem_of_here.
        -- apply list_elem_of_further, list_elem_of_here.
      * now do 2 apply list_elem_of_further.
    + intros x Hx.
      assert (Htop : Decimal.le (dec_max d a) (foldl dec_max (dec_max d a) ds))
        by apply Hmax, list_elem_of_here.
      apply elem_of_cons in Hx as [->|Hx].
      { now transitivity (dec_max d a). }
      apply elem_of_cons in Hx as [->|Hx].
      { now transitivity (dec_max d a). }
      now apply Hmax, list_elem_of_further.
Qed.

Lemma sql_max_spec ds :
  match sql_max ds with
  | None => ds = []
  | Some m => m ∈ ds /\ forall d, d ∈ ds -> Decimal.le d m
  end.
Proof. destruct ds as [|d ds]; [reflexivity|]. apply foldl_dec_max. Qed.

Lemma joined_length db kt :
  Z.of_nat (length (joined db kt)) = Z.max 1 (sold_count kt.1 db).
Proof.
  unfold joined, sold_count.
  destruct (related_tickets Ticket.trip_id kt.1 db) as [|x ts]; [reflexivity|].
  rewrite length_fmap. cbn [length]. lia.
Qed.

Lemma mjoin_length {A B} (g : A -> list B) (l : list A) :
  Z.of_nat (length (mjoin (g <$> l))) =
  Zsum ((fun a => Z.of_nat (length (g a))) <$> l).
Proof.
  induction l as [|a l IH]; [reflexivity|].
  rewrite !fmap_cons.
  change (mjoin (g a :: (g <$> l))) with (g a ++ mjoin (g <$> l)).
  rewrite length_app, Nat2Z.inj_add, IH. reflexivity.
Qed.

Lemma Zsum_max1 {A} (h : A -> Z) (l : list A) :
  Z.of_nat (length l) <= Zsum ((fun a => Z.max 1 (h a)) <$> l) /\
  (Zsum ((fun a => Z.max 1 (h a)) <$> l) = Z.of_nat (length l) <->
   forall a, a ∈ l -> h a <= 1).
Proof.
  induction l as [|a l [IHle IHeq]].
  - split; [reflexivity|]. split; [|reflexivity].
    intros _ a Ha. now apply not_elem_of_nil in Ha.
  - rewrite fmap_cons. unfold Zsum in *. cbn [foldr length]. split; [lia|].
    split.
    + intros Heq x Hx. apply elem_of_cons in Hx as [->|Hx]; [lia|].
      apply IHeq; [lia|exact Hx].
    + intros Hall.
      assert (h a <= 1) by apply Hall, list_elem_of_here.
      assert (foldr Z.add 0 ((fun a => Z.max 1 (h a)) <$> l) = Z.of_nat (length l)).
      { apply IHeq. intros x Hx. now apply Hall, list_elem_of_further. }
      lia.
Qed.

(** The prices met in the joined rows of a group are the prices of the
    tickets of its trips. *)
Lemma joined_prices db ty d :
  d ∈ omap (fun r => (Ticket.paid_amount ∘ fst) <$> r) (joined_of_type db ty) <->
  exists kt x,
    kt ∈ trips_of_type db ty /\ x ∈ related_tickets Ticket.trip_id kt.1 db /\
    Ticket.paid_amount x = d.
Proof.
  rewrite list_elem_of_omap. unfold joined_of_type. split.
  - intros (r & Hr & Hd). apply list_elem_of_join in Hr as (rows & Hr & Hrows).
    apply list_elem_of_fmap in Hrows as (kt & -> & Hkt).
    exists kt. unfold joined in Hr.
    destruct (related_tickets Ticket.trip_id kt.1 db) as [|y ts] eqn:Hts.
    + apply list_elem_of_singleton in Hr as ->. discriminate.
    + apply list_elem_of_fmap in Hr as (x & -> & Hx). exists x.
      cbn in Hd. injection Hd as <-. auto.
  - intros (kt & x & Hkt & Hx & <-).
    exists (Some (x, Ticket.passenger_id x ≫= fun pid => passengers db !! pid)).
    split; [|reflexivity]. apply list_elem_of_join. exists (joined db kt).
    split; [|apply list_elem_of_fmap; eauto].
    unfold joined.
    destruct (related_tickets Ticket.trip_id kt.1 db) as [|y ts] eqn:Hts.
    + now apply not_elem_of_nil in Hx.
    + apply list_elem_of_fmap. eauto.
Qed.

End TrainTypes.



(** * The queries of the repositories *)

(** X17. [upcoming] returns the trips that leave at the given time or
    later, the time itself included; with a later time it returns a
    sub-list of what it returned with the earlier one, and what it drops
    are trips that leave before the later time. *)
Theorem upcoming_window (db : DB) (t t' : Z) :
  t <= t' ->
  exists l l',
    upcoming t db = (inr l, db) /\ upcoming t' db = (inr l', db) /\
    (forall tr, tr ∈ l <->
       (exists k, trips db !! k = Some tr) /\ t <= Trip.departure tr) /\
    l' `sublist_of` l /\
    (forall tr, tr ∈ l -> tr ∉ l' -> Trip.departure tr < t').
Proof.
  intros Hle. eexists _, _. split; [reflexivity|]. split; [reflexivity|].
  set (all := (map_to_list (trips db)).*2).
  split; [|split].
  - intros tr. rewrite list_elem_of_filter. unfold all. rewrite list_elem_of_fmap.
    split.
    + intros [Ht ([k tr0] & -> & Hin)]. apply elem_of_map_to_list in Hin. eauto.
    + intros [[k Hk] Ht]. split; [exact Ht|]. exists (k, tr).
      split; [reflexivity|]. now apply elem_of_map_to_list.
  - rewrite <- (filter_filter_impl (fun tr => t <= Trip.departure tr)
                  (fun tr => t' <= Trip.departure tr) all) by (intros; lia).
    apply sublist_filter.
  - intros tr Hin Hnin. apply list_elem_of_filter in Hin as [_ Hin].
    destruct (Z.lt_ge_cases (Trip.departure tr) t') as [Hlt|Hge]; [exact Hlt|].
    destruct Hnin. now apply list_elem_of_filter.
Qed.

Lemma upcoming_window_witness :
  exists l l',
    upcoming 0 example_db = (inr l, example_db) /\
    upcoming 1 example_db = (inr l', example_db) /\
    (forall tr, tr ∈ l <->
       (exists k, trips example_db !! k = Some tr) /\ 0 <= Trip.departure tr) /\
    l' `sublist_of` l /\
    (forall tr, tr ∈ l -> tr ∉ l' -> Trip.departure tr < 1).
Proof. apply (upcoming_window example_db 0 1). lia. Defined.

(** X18. [BaseRepository.update] on tickets: for a key that has no row it
    returns [None] and writes nothing; when it raises it writes nothing;
    and when it succeeds with attributes that leave the key alone, on a
    table in order, [get_by_id] then finds the instance it returned and
    every other row is as before. *)
Theorem update_ticket_then_get (db : DB) (k : Z) (f : Ticket.t -> Ticket.t) :
  (tickets db !! k = None -> update_ticket k f db = (inr None, db)) /\
  (forall e db', update_ticket k f db = (inl e, db') -> db' = db) /\
  (store_ok db -> (forall y, Ticket.pk (f y) = Ticket.pk y) ->
   forall x' db',
     update_ticket k f db = (inr (Some x'), db') ->
     get_ticket k db' = (inr (Some x'), db') /\
     forall k', k' <> k -> tickets db' !! k' = tickets db !! k').
Proof.
  unfold update_ticket, get_ticket. unfold_M.
  destruct (tickets db !! k) as [obj|] eqn:Hrow.
  - split; [discriminate|]. split.
    + intros e db' H. destruct (save (f obj) db) as [[e'|y] db1] eqn:Hs; [|discriminate].
      injection H as _ <-. now apply save_inl in Hs.
    + intros Hok Hpk x' db' H.
      destruct (save (f obj) db) as [[e'|y] db1] eqn:Hs; [discriminate|].
      injection H as <- <-.
      apply save_inr_dated in Hs
        as (base & pid & pa & p & k0 & d & _ & _ & _ & _ & _ & _ & -> & Hk & _ & ->).
      destruct (Hok k obj Hrow) as (Hobj & _).
      assert (k0 = k) as -> by (apply Hk; rewrite Hpk; exact Hobj).
      cbn [tickets with_tickets]. rewrite lookup_insert_eq. split; [reflexivity|].
      intros k' Hne. now apply lookup_insert_ne.
  - split; [reflexivity|]. split; [now intros e db' [= _ <-]|discriminate].
Qed.

Lemma update_ticket_then_get_witness :
  get_ticket 1
    (update_ticket 1 (Ticket.set_payment_method (Some "card")) example_report_db).2
  = (inr (Some (Ticket.set_payment_method (Some "card") (report_ticket 1 1))),
     (update_ticket 1 (Ticket.set_payment_method (Some "card")) example_report_db).2).
Proof.
  refine (proj1 (proj2 (proj2 (update_ticket_then_get example_report_db 1
            (Ticket.set_payment_method (Some "card"))))
            example_report_db_ok _ _ _ _)).
  - now intros [].
  - vm_compute. reflexivity.
Defined.
